(** * Verification of the cultivation optimizer ([src/utils/math.ts])

    The development embeds the numeric helpers and the Pareto-frontier
    optimizer [optimize] of [src/utils/math.ts] and proves properties of
    the cost and value formulas, the instances and their identifiers, the
    curve precomputer, the merge step (expand, sort, prune), the target
    selector and the returned record.

    Numbers.  A JavaScript [number] that the program only ever uses as an
    integer (levels, replica counts, floored zhenyuan values, buckets) is a
    [Z]; the other numbers (difficulty, speed, reduction, times, the target)
    are exact rationals [Q], so rounding of binary floating point is not
    part of the model.  [Infinity] only occurs as the initial value of
    [minTimeSeen] and is the [None] of an [option Q].  Division is the
    exact division of [Q]; a run with speed 0, where JavaScript divides by
    zero, is outside the model, and the later properties of frontiers and
    of whole runs have a speed other than 0 as a hypothesis.

    Structure.  [optimize] is a single function in the source; its five
    numbered steps are separate definitions here, and the variables that
    its loops mutate are passed along explicitly.  The fields [z] and [t]
    of an option and of a frontier state are [opt_z], [opt_t] and [st_z],
    [st_t].  The object [finalArts] is a finite map from [uniqueId] to
    level.  [Array.prototype.sort] is stable; it is modelled by insertion
    sort, which computes the one stable ordering by the comparator. *)

From Stdlib Require Import ZArith QArith Qround Lia Lqa Ascii.
From stdpp Require Import base list strings gmap pretty sorting.

Local Open Scope Z_scope.

(** ** Numeric helpers *)

(** [a < b] on times, as a boolean. *)
Definition Qltb (x y : Q) : bool :=
  match (x ?= y)%Q with Lt => true | _ => false end.

(** [for (let l = start; l < bound; l += step) s = body l s], with the
    number of iterations left as fuel. *)
Fixpoint for_loop {S : Type} (fuel : nat) (l bound step : Z)
    (body : Z -> S -> S) (s : S) : S :=
  match fuel with
  | O => s
  | Datatypes.S fuel' =>
      if l <? bound
      then for_loop fuel' (l + step) bound step body (body l s)
      else s
  end.

(** The loops of the program have a positive step, so [bound - start]
    iterations are always enough. *)
Definition for_range {S : Type} (start bound step : Z)
    (body : Z -> S -> S) (s : S) : S :=
  for_loop (Z.to_nat (bound - start)) start bound step body s.

(** ** The cost and value formulas *)

Definition getDifficultyModifier (level : Z) : Q :=
  if level <? 309 then 1%Q
  else if (309 <=? level) && (level <? 400)
       then ((9 * inject_Z level - 1811) / 890)%Q
       else 2%Q.

Definition getLevelUpCostValue (level : Z) (difficulty : Q) : Q :=
  let modifier := getDifficultyModifier level in
  ((difficulty * (inject_Z level ^ 3 + 1000) / 100) * modifier)%Q.

Definition getZhenyuan (level : Z) (difficulty : Q) (isMain : bool) : Z :=
  let rawZhenyuan := ((3 * inject_Z level ^ 3 * difficulty) / 10127)%Q in
  let factor := if isMain then 1%Q else 0.5%Q in
  Qfloor (rawZhenyuan * factor).

Definition getBreakthroughTime (targetLevelEndingIn9 : Z)
    (reductionPercent : Q) : Q :=
  let baseTime :=
    if (99 <=? targetLevelEndingIn9) && (targetLevelEndingIn9 <=? 289)
    then 2%Q
    else if (299 <=? targetLevelEndingIn9) && (targetLevelEndingIn9 <=? 389)
    then 4%Q
    else if 399 <=? targetLevelEndingIn9
    then 8%Q
    else 0%Q in
  (baseTime * (1 - reductionPercent / 100))%Q.

Definition getStepCost (startLevel : Z) (difficulty speed : Q)
    (breakthroughReduction : Q) : Q :=
  let breakTime := getBreakthroughTime startLevel breakthroughReduction in
  let cultValue :=
    for_range startLevel (startLevel + 10) 1
      (fun l cultValue => (cultValue + getLevelUpCostValue l difficulty)%Q)
      0%Q in
  let cultTime := (cultValue / speed)%Q in
  (breakTime + cultTime)%Q.

(** ** Data model of [optimize] *)

Record Art := mkArt {
  id : string;
  difficulty : Q;
  isMain : bool;
  count : Z
}.

Inductive TargetType := zhenyuan | time.

Record Settings := mkSettings {
  speed : Q;
  reduction : Q;
  targetType : TargetType;
  targetValue : Q
}.

(** [{ ...art, uniqueId, originalIndex }] *)
Record Instance := mkInstance {
  art : Art;
  uniqueId : string;
  originalIndex : nat
}.

(** One stopping point [{ level, z, t }] of an instance. *)
Record Opt := mkOpt {
  level : Z;
  opt_z : Z;
  opt_t : Q
}.

(** One frontier state [{ z, t, choices }]. *)
Record State := mkState {
  st_z : Z;
  st_t : Q;
  choices : list Z
}.

Record Result := mkResult {
  totalZhenyuan : Z;
  totalTimeHours : Q;
  arts : gmap string Z;
  path : list Z
}.

(** ** 1. Flatten instances *)

(** The inner loop [for (let i = 0; i < art.count; i++)] of one art. *)
Definition expandArt (idx : nat) (a : Art) : list Instance :=
  (fun i : nat => mkInstance a (id a +:+ "_" +:+ pretty i) idx)
    <$> seq 0 (Z.to_nat (count a)).

Definition flatten (arts : list Art) : list Instance :=
  concat (imap expandArt arts).

(** ** 2. Precompute the option curve of an instance *)

Definition optionsBody (inst : Instance) (settings : Settings)
    (l : Z) (acc : Q * list Opt) : Q * list Opt :=
  let '(cumTime, options) := acc in
  let stepT :=
    getStepCost l (difficulty (art inst)) (speed settings) (reduction settings) in
  let cumTime := (cumTime + stepT)%Q in
  let nextLevel := l + 10 in
  let nextZ := getZhenyuan nextLevel (difficulty (art inst)) (isMain (art inst)) in
  (cumTime, options ++ [mkOpt nextLevel nextZ cumTime]).

Definition computeOptions (settings : Settings) (inst : Instance) : list Opt :=
  let options :=
    [mkOpt 99 (getZhenyuan 99 (difficulty (art inst)) (isMain (art inst))) 0%Q] in
  snd (for_range 99 499 10 (optionsBody inst settings) (0%Q, options)).

(** ** 3. Merge step: expand, sort, prune *)

(** [options[0].z]; every option list starts with the level-99 option. *)
Definition baseZ (options : list Opt) : Z :=
  match options with
  | o :: _ => opt_z o
  | [] => 0
  end.

(** The nested [for ... of] loops that push one candidate per
    (state, option) pair.  The index [i] is always inside [choices]. *)
Definition expand (i : nat) (options : list Opt) (frontier : list State)
    : list State :=
  let baseZ_i := baseZ options in
  state ← frontier;
  opt ← options;
  let deltaZ := opt_z opt - baseZ_i in
  let newZ := st_z state + deltaZ in
  let newT := (st_t state + opt_t opt)%Q in
  let newChoices := <[i := level opt]> (choices state) in
  [mkState newZ newT newChoices].

(** [nextFrontier.sort((a, b) => b.z - a.z)]: a stable sort by [z]
    descending; equal-[z] states keep their relative order.  [insertByZ x l]
    puts [x], which stood before all of [l], behind exactly the states [y]
    with [b.z - a.z > 0] at [a = x], [b = y]. *)
Fixpoint insertByZ (x : State) (l : list State) : list State :=
  match l with
  | [] => [x]
  | y :: l' =>
      if 0 <? st_z y - st_z x then y :: insertByZ x l'
      else x :: y :: l'
  end.

Definition sortByZDesc (l : list State) : list State :=
  foldr insertByZ [] l.

Definition BUCKET_SIZE : Z := 100.

(** The variables the prune loop mutates. *)
Record PruneAcc := mkPruneAcc {
  pruned : list State;
  minTimeSeen : option Q;
  seenBuckets : gset Z
}.

(** [state.t < minTimeSeen], where [None] is [Infinity]. *)
Definition belowMinTime (x : Q) (m : option Q) : bool :=
  match m with
  | None => true
  | Some m => Qltb x m
  end.

Definition bucketOf (state : State) : Z := st_z state / BUCKET_SIZE.

Definition pruneStep (acc : PruneAcc) (state : State) : PruneAcc :=
  if belowMinTime (st_t state) (minTimeSeen acc) then
    let bucket := bucketOf state in
    if decide (bucket ∉ seenBuckets acc) then
      mkPruneAcc (pruned acc ++ [state]) (Some (st_t state))
                 ({[bucket]} ∪ seenBuckets acc)
    else acc
  else acc.

Definition pruneInit : PruneAcc := mkPruneAcc [] None ∅.

Definition prune (nextFrontier : list State) : list State :=
  pruned (foldl pruneStep pruneInit nextFrontier).

Definition mergeStep (i : nat) (options : list Opt) (frontier : list State)
    : list State :=
  prune (sortByZDesc (expand i options frontier)).

(** The loop [for (let i = 0; i < instances.length; i++)]. *)
Fixpoint mergeFrom (i : nat) (instanceOptions : list (list Opt))
    (frontier : list State) : list State :=
  match instanceOptions with
  | [] => frontier
  | options :: rest => mergeFrom (S i) rest (mergeStep i options frontier)
  end.

Definition initialFrontier (n : nat) : list State :=
  [mkState 0 0%Q (replicate n 99)].

(** ** 4. Target selector *)

(** Resource-floor scan with its [break]. *)
Fixpoint scanZhenyuan (baseTotalZ : Z) (target : Q) (frontier : list State)
    (bestState : option State) : option State :=
  match frontier with
  | [] => bestState
  | state :: rest =>
      if Qle_bool target (inject_Z (st_z state + baseTotalZ))
      then scanZhenyuan baseTotalZ target rest (Some state)
      else bestState
  end.

(** Time-budget scan: the first state within budget. *)
Fixpoint scanTime (target : Q) (frontier : list State) : option State :=
  match frontier with
  | [] => None
  | state :: rest =>
      if Qle_bool (st_t state) target then Some state
      else scanTime target rest
  end.

Definition selectBest (settings : Settings) (baseTotalZ : Z)
    (frontier : list State) : option State :=
  match targetType settings with
  | zhenyuan =>
      match scanZhenyuan baseTotalZ (targetValue settings) frontier None with
      | Some s => Some s
      | None => head frontier
      end
  | time =>
      match scanTime (targetValue settings) frontier with
      | Some s => Some s
      | None => last frontier
      end
  end.

(** ** 5. Format the output, and the whole of [optimize] *)

Definition baseTotal (instances : list Instance) : Z :=
  foldl (fun baseTotalZ inst =>
           baseTotalZ + getZhenyuan 99 (difficulty (art inst)) (isMain (art inst)))
        0 instances.

(** [finalArts[inst.uniqueId] = bestState.choices[idx]], in instance order;
    a later instance with the same [uniqueId] overwrites an earlier one. *)
Definition formatArts (instances : list Instance) (bestState : State)
    : gmap string Z :=
  foldl (fun finalArts '(idx, inst) =>
           <[uniqueId inst := default 0 (choices bestState !! idx)]> finalArts)
        ∅ (imap pair instances).

Definition frontierOf (settings : Settings) (instances : list Instance)
    : list State :=
  mergeFrom 0 (computeOptions settings <$> instances)
            (initialFrontier (length instances)).

Definition optimize (arts : list Art) (settings : Settings) : option Result :=
  let instances := flatten arts in
  if decide (length instances = 0%nat) then
    Some (mkResult 0 0%Q ∅ [])
  else
    let baseTotalZ := baseTotal instances in
    let frontier := frontierOf settings instances in
    match selectBest settings baseTotalZ frontier with
    | None => None
    | Some bestState =>
        Some (mkResult (st_z bestState + baseTotalZ) (st_t bestState)
                       (formatArts instances bestState) [])
    end.

(** * Definitions for the statements and proofs *)

(** ** Loops and the option curve in closed form *)

(** The values the loop variable takes: [start], [start + step], ... *)
Definition grid (start step : Z) (n : nat) : list Z :=
  (fun k : nat => start + step * Z.of_nat k) <$> seq 0 n.

(** The cultivation value of the ten level-ups [l -> l+1], ...,
    [l+9 -> l+10], summed in the order of the loop. *)
Definition spanCultValue (l : Z) (d : Q) : Q :=
  foldl (fun cultValue l => (cultValue + getLevelUpCostValue l d)%Q) 0%Q
        (grid l 1 10).

(** Cumulative cost of the first [k] spans above level 99. *)
Fixpoint cumCost (d sp r : Q) (k : nat) : Q :=
  match k with
  | O => 0%Q
  | S k' => (cumCost d sp r k' + getStepCost (99 + 10 * Z.of_nat k') d sp r)%Q
  end.

(** The option [k] spans above level 99. *)
Definition optionAt (settings : Settings) (inst : Instance) (k : nat) : Opt :=
  let lvl := 99 + 10 * Z.of_nat k in
  mkOpt lvl (getZhenyuan lvl (difficulty (art inst)) (isMain (art inst)))
        (cumCost (difficulty (art inst)) (speed settings) (reduction settings) k).

(** The factor by which [getZhenyuan] scales the cube of the level. *)
Definition zhenyuanRate (d : Q) (m : bool) : Q :=
  (3 * d * (if m then 1 else 0.5) / 10127)%Q.

(** How far the value of an instance can rise above its level-99 value. *)
Definition valueRange (inst : Instance) : Z :=
  getZhenyuan 499 (difficulty (art inst)) (isMain (art inst))
  - getZhenyuan 99 (difficulty (art inst)) (isMain (art inst)).

(** The least and the greatest value delta a choice of options for the
    given instances can reach: each instance adds between the lesser and
    the greater of 0 and its value range. *)
Definition lowestDelta (instances : list Instance) : Z :=
  foldr Z.add 0 ((fun inst => Z.min 0 (valueRange inst)) <$> instances).

Definition highestDelta (instances : list Instance) : Z :=
  foldr Z.add 0 ((fun inst => Z.max 0 (valueRange inst)) <$> instances).

(** ** Order along a frontier *)

(** Value never increases along the list. *)
Definition zNonInc (l : list State) : Prop :=
  StronglySorted (fun a b => st_z b <= st_z a) l.

(** Value strictly decreases along the list. *)
Definition zDesc (l : list State) : Prop :=
  StronglySorted (fun a b => st_z b < st_z a) l.

(** Time strictly decreases along the list. *)
Definition tDesc (l : list State) : Prop :=
  StronglySorted (fun a b => (st_t b < st_t a)%Q) l.

(** ** The prune loop and the fold *)

(** What the loop variables are, in terms of the states kept so far out of
    the candidates [seen] so far: the threshold is the time of the state
    kept last, the bucket set holds the buckets of the kept states, whose
    times strictly decrease and whose buckets are pairwise different. *)
Record pruneInv (seen : list State) (acc : PruneAcc) : Prop := mkPruneInv {
  inv_sub : pruned acc `sublist_of` seen;
  inv_min : minTimeSeen acc = st_t <$> last (pruned acc);
  inv_buckets : forall b : Z, b ∈ seenBuckets acc <-> b ∈ bucketOf <$> pruned acc;
  inv_time : tDesc (pruned acc);
  inv_nodup : NoDup (bucketOf <$> pruned acc)
}.

(** The candidate pushed for one (state, option) pair. *)
Definition candidate (i : nat) (options : list Opt) (state : State) (opt : Opt)
    : State :=
  mkState (st_z state + (opt_z opt - baseZ options))
          (st_t state + opt_t opt)%Q
          (<[i := level opt]> (choices state)).

(** The frontier after the loop has merged the first [k] instances. *)
Definition prefixFrontier (settings : Settings) (instances : list Instance)
    (k : nat) : list State :=
  mergeFrom 0 (take k (computeOptions settings <$> instances))
            (initialFrontier (length instances)).

(** The frontier ends with the all-level-99 state of value 0 and time 0,
    and every other state lies in a higher bucket and costs time. *)
Definition hasBaseline (frontier : list State) (ch : list Z) : Prop :=
  exists fr', frontier = fr' ++ [mkState 0 0%Q ch] /\
              forall s, s ∈ fr' -> 100 <= st_z s /\ (0 < st_t s)%Q.

(** The options start with the free level-99 option, and every other
    option gains at least one bucket width and costs time. *)
Definition optionsGap (options : list Opt) : Prop :=
  exists o0 rest, options = o0 :: rest /\ level o0 = 99 /\ opt_t o0 = 0%Q /\
                  forall o, o ∈ rest -> 100 <= opt_z o - opt_z o0 /\ (0 < opt_t o)%Q.

(** ** Evaluation with times in lowest terms

    [Q] arithmetic never cancels common factors, so the times of a run grow
    large.  The pipeline below keeps every time in lowest terms: option
    costs are reduced as they are accumulated, state times after each merge
    step.  It makes the same decisions as [optimize], because the program
    only adds and compares times, and is what the concrete runs are
    evaluated with. *)

Definition normOpt (o : Opt) : Opt := mkOpt (level o) (opt_z o) (Qred (opt_t o)).

Definition normState (s : State) : State :=
  mkState (st_z s) (Qred (st_t s)) (choices s).

Definition normResult (r : Result) : Result :=
  mkResult (totalZhenyuan r) (Qred (totalTimeHours r)) (arts r) (path r).

Definition normAcc (acc : PruneAcc) : PruneAcc :=
  mkPruneAcc (normState <$> pruned acc) (Qred <$> minTimeSeen acc) (seenBuckets acc).

(** The options of an instance above level 99, with every cumulative cost
    reduced as soon as it is formed. *)
Fixpoint optionsNFrom (d sp r : Q) (m : bool) (n k : nat) (cumTime : Q)
    : list Opt :=
  match n with
  | O => []
  | S n' =>
      let cumTime' := Qred (cumTime + getStepCost (99 + 10 * Z.of_nat k) d sp r) in
      let nextLevel := 99 + 10 * Z.of_nat (S k) in
      mkOpt nextLevel (getZhenyuan nextLevel d m) cumTime'
        :: optionsNFrom d sp r m n' (S k) cumTime'
  end.

Definition optionsN (settings : Settings) (inst : Instance) : list Opt :=
  let d := difficulty (art inst) in
  let m := isMain (art inst) in
  mkOpt 99 (getZhenyuan 99 d m) 0%Q
    :: optionsNFrom d (speed settings) (reduction settings) m 40 0 0%Q.

Definition mergeStepN (i : nat) (options : list Opt) (frontier : list State)
    : list State :=
  normState <$> mergeStep i options frontier.

Fixpoint mergeFromN (i : nat) (instanceOptions : list (list Opt))
    (frontier : list State) : list State :=
  match instanceOptions with
  | [] => frontier
  | options :: rest => mergeFromN (S i) rest (mergeStepN i options frontier)
  end.

Definition prefixFrontierN (settings : Settings) (instances : list Instance)
    (k : nat) : list State :=
  mergeFromN 0 (take k (optionsN settings <$> instances))
             (initialFrontier (length instances)).

Definition frontierOfN (settings : Settings) (instances : list Instance)
    : list State :=
  mergeFromN 0 (optionsN settings <$> instances)
             (initialFrontier (length instances)).

Definition optimizeN (arts : list Art) (settings : Settings) : option Result :=
  let instances := flatten arts in
  if decide (length instances = 0%nat) then
    Some (mkResult 0 0%Q ∅ [])
  else
    let baseTotalZ := baseTotal instances in
    let frontier := frontierOfN settings instances in
    match selectBest settings baseTotalZ frontier with
    | None => None
    | Some bestState =>
        Some (mkResult (st_z bestState + baseTotalZ) (st_t bestState)
                       (formatArts instances bestState) [])
    end.

(** ** The breakthrough bands *)

(** The [baseTime] of [getBreakthroughTime] for a start level. *)
Definition baseTime (l : Z) : Q :=
  if (99 <=? l) && (l <=? 289) then 2%Q
  else if (299 <=? l) && (l <=? 389) then 4%Q
  else if 399 <=? l then 8%Q else 0%Q.

(** ** Instances and their identifiers *)

(** The instances of the arts from index [j] on. *)
Definition flattenFrom (j : nat) (arts : list Art) : list Instance :=
  concat (imap (fun idx => expandArt (j + idx)) arts).

(** No character of the string is an underscore. *)
Fixpoint noUnderscore (s : string) : Prop :=
  match s with
  | EmptyString => True
  | String c s' => c <> "_"%char /\ noUnderscore s'
  end.

(** ** The levels a state stands for *)

(** The value of an instance at a level, and the cost of raising it from
    level 99 to a level [99 + 10 k]. *)
Definition levelValue (inst : Instance) (l : Z) : Z :=
  getZhenyuan l (difficulty (art inst)) (isMain (art inst)).

Definition levelCost (settings : Settings) (inst : Instance) (l : Z) : Q :=
  cumCost (difficulty (art inst)) (speed settings) (reduction settings)
          (Z.to_nat ((l - 99) / 10)).

(** Total value and total cost of giving the instances, in order, the
    levels [ch]. *)
Definition chosenValue (instances : list Instance) (ch : list Z) : Z :=
  foldr Z.add 0 (zip_with levelValue instances ch).

Definition chosenCost (settings : Settings) (instances : list Instance)
    (ch : list Z) : Q :=
  foldr Qplus 0%Q (zip_with (levelCost settings) instances ch).

(** What the fold keeps true of a state after [k] instances: the choices
    have one level per instance, still 99 from index [k] on, every level is
    one of 99, 109, ..., 499, and value and time are the totals of the
    chosen levels. *)
Record stateInv (settings : Settings) (instances : list Instance) (k : nat)
    (s : State) : Prop := mkStateInv {
  sinv_length : length (choices s) = length instances;
  sinv_rest : forall i, (k <= i < length instances)%nat -> choices s !! i = Some 99;
  sinv_grid : Forall (fun l => l ∈ grid 99 10 41) (choices s);
  sinv_value : st_z s + baseTotal instances = chosenValue instances (choices s);
  sinv_time : (st_t s == chosenCost settings instances (choices s))%Q
}.

(** The levels the output map reports for the instances, in order. *)
Definition reportedLevels (instances : list Instance) (res : Result) : list Z :=
  (fun inst => default 0 (arts res !! uniqueId inst)) <$> instances.

(** ** Inputs of the concrete runs

    One main art of difficulty 2 with a single replica and the instance
    [flatten] makes of it; the same art with two replicas and its
    instances. *)

Definition exampleArt : Art := mkArt "a" 2 true 1.

Definition exampleInstance : Instance := mkInstance exampleArt "a_0" 0.

Definition exampleReplicas : Art := mkArt "a" 2 true 2.

Definition exampleReplica (i : nat) : Instance :=
  mkInstance exampleReplicas ("a_" +:+ pretty i) 0.

(** * Properties *)

(** ** Loops *)

Lemma grid_S start step n :
  grid start step (S n) = start :: grid (start + step) step n.
Proof.
  unfold grid. cbn [seq fmap list_fmap]. f_equal; [f_equal; lia|].
  rewrite <- (fmap_S_seq 0), <- list_fmap_compose.
  apply list_fmap_ext. intros _ k _. cbn. lia.
Qed.

(** A loop with enough fuel runs its body once per grid point and leaves
    through its condition. *)
Lemma for_loop_grid {S : Type} (body : Z -> S -> S) (step bound : Z) :
  0 < step ->
  forall (n fuel : nat) (l : Z) (s : S),
    (n <= fuel)%nat ->
    l + step * (Z.of_nat n - 1) < bound ->
    bound <= l + step * Z.of_nat n ->
    for_loop fuel l bound step body s = foldl (fun s l => body l s) s (grid l step n).
Proof.
  intros Hstep n. induction n as [|n IH]; intros fuel l s Hfuel Hlo Hhi.
  - destruct fuel as [|fuel]; [done|]. cbn [for_loop].
    destruct (Z.ltb_spec l bound); [lia|done].
  - destruct fuel as [|fuel]; [lia|]. cbn [for_loop].
    destruct (Z.ltb_spec l bound); [|nia].
    rewrite grid_S. cbn [foldl]. apply IH; [lia| nia | nia].
Qed.

(** More fuel than needed changes nothing. *)
Lemma for_loop_fuel_irrel {S : Type} (body : Z -> S -> S) (step bound : Z) :
  0 < step ->
  forall (fuel fuel' : nat) (l : Z) (s : S),
    (Z.to_nat (bound - l) <= fuel)%nat ->
    (Z.to_nat (bound - l) <= fuel')%nat ->
    for_loop fuel l bound step body s = for_loop fuel' l bound step body s.
Proof.
  intros Hstep fuel. induction fuel as [|fuel IH]; intros fuel' l s H1 H2.
  - destruct fuel' as [|fuel']; [done|]. cbn [for_loop].
    destruct (Z.ltb_spec l bound); [lia|done].
  - destruct fuel' as [|fuel'].
    + cbn [for_loop]. destruct (Z.ltb_spec l bound); [lia|done].
    + cbn [for_loop]. destruct (Z.ltb_spec l bound); [|done].
      apply IH; lia.
Qed.

(** ** The formulas *)

Lemma Qcube (q : Q) : (q ^ 3 == q * q * q)%Q.
Proof. simpl. ring. Qed.

Lemma Qcube_nonneg (q : Q) : (0 <= q -> 0 <= q ^ 3)%Q.
Proof. intros H. rewrite Qcube. assert (0 <= q * q)%Q by nra. nra. Qed.

Lemma Qcube_inject (l : Z) : (inject_Z l ^ 3 == inject_Z (l ^ 3))%Q.
Proof.
  rewrite Qcube. replace (l ^ 3) with (l * l * l) by ring.
  by rewrite !inject_Z_mult.
Qed.

Lemma getDifficultyModifier_pos l : (0 < getDifficultyModifier l)%Q.
Proof.
  unfold getDifficultyModifier.
  destruct (l <? 309) eqn:E1; [lra|].
  destruct ((309 <=? l) && (l <? 400)) eqn:E2; [|lra].
  apply andb_prop in E2 as [E2 _]. apply Z.leb_le in E2.
  rewrite Zle_Qle in E2. change (309 <= inject_Z l)%Q in E2.
  apply Qlt_shift_div_l; lra.
Qed.

Lemma getLevelUpCostValue_pos (l : Z) (d : Q) :
  (0 < d)%Q -> 0 <= l -> (0 < getLevelUpCostValue l d)%Q.
Proof.
  intros Hd Hl. unfold getLevelUpCostValue.
  pose proof (getDifficultyModifier_pos l) as Hm.
  assert (0 <= inject_Z l ^ 3)%Q as Hc.
  { apply Qcube_nonneg. rewrite Zle_Qle in Hl; exact Hl. }
  apply Qmult_lt_0_compat; [|exact Hm].
  apply Qlt_shift_div_l; [lra|]. nra.
Qed.

(** The base time of [getBreakthroughTime] is never negative, so with a
    reduction of at most 100 percent neither is the charge. *)
Lemma getBreakthroughTime_nonneg (l : Z) (r : Q) :
  (r <= 100)%Q -> (0 <= getBreakthroughTime l r)%Q.
Proof.
  intros Hr. unfold getBreakthroughTime.
  assert (0 <= 1 - r / 100)%Q as Hf.
  { assert (r / 100 <= 1)%Q; [|lra]. apply Qle_shift_div_r; lra. }
  repeat case_match; nra.
Qed.

Lemma grid_span (l : Z) :
  grid l 1 10 = [l; l + 1; l + 2; l + 3; l + 4; l + 5; l + 6; l + 7; l + 8; l + 9].
Proof. unfold grid. cbn [seq fmap list_fmap]. repeat (f_equal; try lia). Qed.

Lemma getStepCost_unfold (l : Z) (d sp r : Q) :
  getStepCost l d sp r = (getBreakthroughTime l r + spanCultValue l d / sp)%Q.
Proof.
  unfold getStepCost, for_range, spanCultValue.
  by rewrite (for_loop_grid _ 1 (l + 10) ltac:(lia) 10) by lia.
Qed.

Lemma foldl_Qplus_pos (f : Z -> Q) (ls : list Z) (acc : Q) :
  Forall (fun l => 0 < f l)%Q ls -> (0 <= acc)%Q -> ls <> [] ->
  (0 < foldl (fun c l => c + f l) acc ls)%Q.
Proof.
  intros Hall. revert acc. induction Hall as [|l ls Hl Hall IH]; intros acc Hacc Hne.
  - done.
  - cbn [foldl]. destruct ls as [|l' ls'].
    + cbn [foldl]. lra.
    + apply IH; [lra|done].
Qed.

Lemma spanCultValue_pos (l : Z) (d : Q) :
  (0 < d)%Q -> 0 <= l -> (0 < spanCultValue l d)%Q.
Proof.
  intros Hd Hl. unfold spanCultValue.
  apply (foldl_Qplus_pos (fun l => getLevelUpCostValue l d)); [|lra|by rewrite grid_span].
  rewrite grid_span. repeat constructor; apply getLevelUpCostValue_pos; lia || done.
Qed.

Lemma getStepCost_pos (l : Z) (d sp r : Q) :
  (0 < d)%Q -> (0 < sp)%Q -> (r <= 100)%Q -> 0 <= l ->
  (0 < getStepCost l d sp r)%Q.
Proof.
  intros Hd Hsp Hr Hl. rewrite getStepCost_unfold.
  pose proof (getBreakthroughTime_nonneg l r Hr).
  assert (0 < spanCultValue l d / sp)%Q; [|lra].
  apply Qlt_shift_div_l; [done|]. pose proof (spanCultValue_pos l d Hd Hl). lra.
Qed.

(** ** The option curve in closed form *)

Lemma foldl_optionsBody settings inst (n j : nat) (acc : list Opt) :
  foldl (fun s l => optionsBody inst settings l s)
        (cumCost (difficulty (art inst)) (speed settings) (reduction settings) j, acc)
        (grid (99 + 10 * Z.of_nat j) 10 n)
  = (cumCost (difficulty (art inst)) (speed settings) (reduction settings) (j + n),
     acc ++ (optionAt settings inst <$> seq (S j) n)).
Proof.
  revert j acc. induction n as [|n IH]; intros j acc.
  - cbn. by rewrite Nat.add_0_r, app_nil_r.
  - rewrite grid_S. cbn [foldl seq fmap list_fmap].
    replace (99 + 10 * Z.of_nat j + 10) with (99 + 10 * Z.of_nat (S j)) by lia.
    unfold optionsBody at 2.
    replace (99 + 10 * Z.of_nat j + 10) with (99 + 10 * Z.of_nat (S j)) by lia.
    change (cumCost ?d ?sp ?r j + getStepCost (99 + 10 * Z.of_nat j) ?d ?sp ?r)%Q
      with (cumCost d sp r (S j)).
    rewrite IH. f_equal; [f_equal; lia|].
    by rewrite <- app_assoc.
Qed.

Lemma computeOptions_closed settings inst :
  computeOptions settings inst = optionAt settings inst <$> seq 0 41.
Proof.
  unfold computeOptions, for_range.
  rewrite (for_loop_grid _ 10 499 ltac:(lia) 40) by (cbn; lia).
  exact (f_equal snd (foldl_optionsBody settings inst 40 0 _)).
Qed.

(** ** Monotonicity of the value function *)

Lemma Qfloor_lt_of_gap (a b : Q) : (a + 1 <= b)%Q -> Qfloor a < Qfloor b.
Proof.
  intros H. pose proof (Qfloor_le a) as Ha. pose proof (Qlt_floor b) as Hb.
  rewrite Zlt_Qlt. rewrite inject_Z_plus in Hb.
  change (inject_Z 1) with 1%Q in Hb. lra.
Qed.

Lemma getZhenyuan_rate (l : Z) (d : Q) (m : bool) :
  getZhenyuan l d m = Qfloor (inject_Z (l ^ 3) * zhenyuanRate d m).
Proof.
  unfold getZhenyuan, zhenyuanRate. apply Qfloor_comp.
  rewrite Qcube_inject. destruct m; field.
Qed.

Lemma zhenyuanRate_nonneg d m : (0 <= d)%Q -> (0 <= zhenyuanRate d m)%Q.
Proof.
  intros Hd. unfold zhenyuanRate. apply Qle_shift_div_l; [lra|].
  destruct m; lra.
Qed.

Lemma zhenyuanRate_lower d m : (1 # 40 <= d)%Q -> (3 # 810160 <= zhenyuanRate d m)%Q.
Proof.
  intros Hd. unfold zhenyuanRate. apply Qle_shift_div_l; [lra|].
  destruct m; lra.
Qed.

Lemma getZhenyuan_mono (l1 l2 : Z) (d : Q) (m : bool) :
  (0 <= d)%Q -> 0 <= l1 <= l2 -> getZhenyuan l1 d m <= getZhenyuan l2 d m.
Proof.
  intros Hd Hl. rewrite !getZhenyuan_rate. apply Qfloor_resp_le.
  apply Qmult_le_compat_r; [|by apply zhenyuanRate_nonneg].
  rewrite <- Zle_Qle. apply Z.pow_le_mono_l. lia.
Qed.

Lemma zhenyuanRate_nonpos d m : (d <= 0)%Q -> (zhenyuanRate d m <= 0)%Q.
Proof.
  intros Hd. unfold zhenyuanRate. apply Qle_shift_div_r; [lra|].
  destruct m; lra.
Qed.

(** For a difficulty below zero the value falls with the level. *)
Lemma getZhenyuan_anti (l1 l2 : Z) (d : Q) (m : bool) :
  (d <= 0)%Q -> 0 <= l1 <= l2 -> getZhenyuan l2 d m <= getZhenyuan l1 d m.
Proof.
  intros Hd Hl. rewrite !getZhenyuan_rate. apply Qfloor_resp_le.
  pose proof (zhenyuanRate_nonpos d m Hd) as Hc.
  assert (l1 ^ 3 <= l2 ^ 3) as Hcube by (apply Z.pow_le_mono_l; lia).
  rewrite Zle_Qle in Hcube.
  set (a := inject_Z (l1 ^ 3)) in *. set (b := inject_Z (l2 ^ 3)) in *.
  set (c := zhenyuanRate d m) in *. nra.
Qed.

Lemma getZhenyuan_step_lt (l : Z) (d : Q) (m : bool) :
  (1 # 40 <= d)%Q -> 99 <= l -> getZhenyuan l d m < getZhenyuan (l + 10) d m.
Proof.
  intros Hd Hl. rewrite !getZhenyuan_rate. apply Qfloor_lt_of_gap.
  pose proof (zhenyuanRate_lower d m Hd) as Hc.
  assert (324730 <= (l + 10) ^ 3 - l ^ 3) as Hgap by nia.
  rewrite Zle_Qle in Hgap. unfold Zminus in Hgap.
  rewrite inject_Z_plus, inject_Z_opp in Hgap.
  change (inject_Z 324730) with (324730 # 1)%Q in Hgap.
  set (a := inject_Z (l ^ 3)) in *. set (b := inject_Z ((l + 10) ^ 3)) in *.
  set (c := zhenyuanRate d m) in *. nra.
Qed.

(** ** The breakthrough charge and the option curve *)

(** C6: the breakthrough charge of a span is fixed by its starting level:
    base time 2 for a start in [99,289], 4 for [299,389], 8 from 399 on,
    multiplied by [1 - reductionPercent / 100]; [getStepCost] charges it
    for the level the span starts at. *)
Theorem getBreakthroughTime_bands (l : Z) (r : Q) :
  (99 <= l <= 289 -> getBreakthroughTime l r = (2 * (1 - r / 100))%Q) /\
  (299 <= l <= 389 -> getBreakthroughTime l r = (4 * (1 - r / 100))%Q) /\
  (399 <= l -> getBreakthroughTime l r = (8 * (1 - r / 100))%Q) /\
  (forall d sp : Q,
      getStepCost l d sp r = (getBreakthroughTime l r + spanCultValue l d / sp)%Q).
Proof.
  unfold getBreakthroughTime. repeat split.
  - intros [H1 H2]. apply Z.leb_le in H1, H2. by rewrite H1, H2.
  - intros [H1 H2].
    destruct (Z.leb_spec l 289); [lia|]. rewrite andb_false_r.
    apply Z.leb_le in H1, H2. by rewrite H1, H2.
  - intros H1.
    destruct (Z.leb_spec l 289); [lia|]. rewrite andb_false_r.
    destruct (Z.leb_spec l 389); [lia|]. rewrite andb_false_r.
    apply Z.leb_le in H1. by rewrite H1.
  - intros d sp. apply getStepCost_unfold.
Qed.

Lemma getBreakthroughTime_bands_witness :
  getBreakthroughTime 289 25 = (2 * (1 - 25 / 100))%Q /\
  getBreakthroughTime 299 25 = (4 * (1 - 25 / 100))%Q /\
  getBreakthroughTime 489 25 = (8 * (1 - 25 / 100))%Q.
Proof.
  split; [|split].
  - apply (getBreakthroughTime_bands 289 25). lia.
  - apply (getBreakthroughTime_bands 299 25). lia.
  - apply (getBreakthroughTime_bands 489 25). lia.
Defined.

Lemma lookup_computeOptions settings inst (k : nat) :
  (k < 41)%nat -> computeOptions settings inst !! k = Some (optionAt settings inst k).
Proof.
  intros Hk. rewrite computeOptions_closed, list_lookup_fmap.
  by rewrite lookup_seq_lt.
Qed.

Lemma lookup_computeOptions_inv settings inst (k : nat) (o : Opt) :
  computeOptions settings inst !! k = Some o ->
  (k < 41)%nat /\ o = optionAt settings inst k.
Proof.
  intros H. assert (k < 41)%nat as Hk.
  { apply lookup_lt_Some in H.
    by rewrite computeOptions_closed, length_fmap, length_seq in H. }
  rewrite lookup_computeOptions in H by done. split; congruence.
Qed.

(** C5: the options of an instance stand at the levels 99, 109, ..., 499;
    the first one is level 99 with its value and cost 0; every further
    option adds, to the cumulative cost of the option before it, the step
    cost of the ten-level span between them, which is the breakthrough
    charge plus the sum of the ten level-up cost values over the speed. *)
Theorem computeOptions_curve (settings : Settings) (inst : Instance) :
  let d := difficulty (art inst) in
  let m := isMain (art inst) in
  length (computeOptions settings inst) = 41%nat /\
  level <$> computeOptions settings inst = grid 99 10 41 /\
  level <$> last (computeOptions settings inst) = Some 499 /\
  head (computeOptions settings inst) = Some (mkOpt 99 (getZhenyuan 99 d m) 0%Q) /\
  (forall (k : nat) (o o' : Opt),
      computeOptions settings inst !! k = Some o ->
      computeOptions settings inst !! S k = Some o' ->
      level o' = level o + 10 /\
      opt_z o' = getZhenyuan (level o') d m /\
      opt_t o' = (opt_t o + getStepCost (level o) d (speed settings) (reduction settings))%Q) /\
  (forall l : Z,
      let span := [l; l + 1; l + 2; l + 3; l + 4; l + 5; l + 6; l + 7; l + 8; l + 9] in
      getStepCost l d (speed settings) (reduction settings)
      = (getBreakthroughTime l (reduction settings)
         + foldl (fun cultValue l' => cultValue + getLevelUpCostValue l' d) 0 span
           / speed settings)%Q).
Proof.
  intros d m. split_and!.
  - rewrite computeOptions_closed. reflexivity.
  - rewrite computeOptions_closed, <- list_fmap_compose. reflexivity.
  - rewrite computeOptions_closed. reflexivity.
  - rewrite computeOptions_closed. reflexivity.
  - intros k o o' Hk Hk'.
    apply lookup_computeOptions_inv in Hk as [_ ->].
    apply lookup_computeOptions_inv in Hk' as [_ ->].
    split_and!; [cbn [optionAt level]; lia|reflexivity..].
  - intros l span. rewrite getStepCost_unfold. unfold spanCultValue.
    by rewrite grid_span.
Qed.

Lemma computeOptions_curve_witness :
  let s := mkSettings 1 0 zhenyuan 0 in
  let inst := mkInstance (mkArt "a" 2 true 1) "a_0" 0 in
  let o := optionAt s inst 0 in
  let o' := optionAt s inst 1 in
  computeOptions s inst !! 0%nat = Some o /\
  computeOptions s inst !! 1%nat = Some o' /\
  level o' = level o + 10 /\
  opt_z o' = getZhenyuan (level o') 2 true /\
  opt_t o' = (opt_t o + getStepCost (level o) 2 1 0)%Q.
Proof.
  intros s inst o o'.
  assert (computeOptions s inst !! 0%nat = Some o) as H0 by (vm_compute; reflexivity).
  assert (computeOptions s inst !! 1%nat = Some o') as H1 by (vm_compute; reflexivity).
  split; [exact H0|]. split; [exact H1|].
  destruct (computeOptions_curve s inst) as (_ & _ & _ & _ & H & _).
  exact (H 0%nat o o' H0 H1).
Defined.

Lemma cumCost_lt (d sp r : Q) (i j : nat) :
  (0 < d)%Q -> (0 < sp)%Q -> (r <= 100)%Q -> (i < j)%nat ->
  (cumCost d sp r i < cumCost d sp r j)%Q.
Proof.
  intros Hd Hsp Hr Hij. induction Hij as [|j Hij IH]; cbn [cumCost].
  - pose proof (getStepCost_pos (99 + 10 * Z.of_nat i) d sp r Hd Hsp Hr ltac:(lia)). lra.
  - pose proof (getStepCost_pos (99 + 10 * Z.of_nat j) d sp r Hd Hsp Hr ltac:(lia)). lra.
Qed.

Lemma cumCost_nonneg (d sp r : Q) (k : nat) :
  (0 < d)%Q -> (0 < sp)%Q -> (r <= 100)%Q -> (0 <= cumCost d sp r k)%Q.
Proof.
  intros Hd Hsp Hr. destruct k as [|k]; [cbn; lra|].
  apply Qlt_le_weak. change 0%Q with (cumCost d sp r 0).
  apply cumCost_lt; [done..|lia].
Qed.

Lemma cumCost_pos (d sp r : Q) (k : nat) :
  (0 < d)%Q -> (0 < sp)%Q -> (r <= 100)%Q -> (0 < k)%nat -> (0 < cumCost d sp r k)%Q.
Proof.
  intros Hd Hsp Hr Hk. change 0%Q with (cumCost d sp r 0). by apply cumCost_lt.
Qed.

(** C3 (amended): for an instance with positive difficulty and speed and a
    reduction in [0,100], level and cost are strictly increasing along its
    options; the value never decreases, and it is strictly increasing as
    soon as the difficulty is at least 1/40.  The same holds of
    [getZhenyuan] itself: it never decreases in the level and, for such a
    difficulty, it rises over every ten levels from level 99 on. *)
Theorem options_increasing (settings : Settings) (inst : Instance) :
  let d := difficulty (art inst) in
  let m := isMain (art inst) in
  (0 < d)%Q -> (0 < speed settings)%Q ->
  (0 <= reduction settings)%Q -> (reduction settings <= 100)%Q ->
  (forall (i j : nat) (o o' : Opt),
      (i < j)%nat ->
      computeOptions settings inst !! i = Some o ->
      computeOptions settings inst !! j = Some o' ->
      level o < level o' /\
      (opt_t o < opt_t o')%Q /\
      opt_z o <= opt_z o' /\
      ((1 # 40 <= d)%Q -> opt_z o < opt_z o')) /\
  (forall l1 l2 : Z, 0 <= l1 <= l2 -> getZhenyuan l1 d m <= getZhenyuan l2 d m) /\
  (forall l1 l2 : Z,
      (1 # 40 <= d)%Q -> 99 <= l1 -> l1 + 10 <= l2 ->
      getZhenyuan l1 d m < getZhenyuan l2 d m).
Proof.
  intros d m Hd Hsp Hr0 Hr. split_and!.
  - intros i j o o' Hij Hi Hj.
    apply lookup_computeOptions_inv in Hi as [_ ->].
    apply lookup_computeOptions_inv in Hj as [_ ->].
    cbn [optionAt level opt_t opt_z]. fold d m. split_and!.
    + lia.
    + by apply cumCost_lt.
    + apply getZhenyuan_mono; [lra|lia].
    + intros Hd'.
      eapply Z.lt_le_trans; [apply getZhenyuan_step_lt; [done|lia]|].
      apply getZhenyuan_mono; [lra|lia].
  - intros l1 l2 Hl. apply getZhenyuan_mono; [lra|done].
  - intros l1 l2 Hd' Hl1 Hl2.
    eapply Z.lt_le_trans; [apply getZhenyuan_step_lt; [done|lia]|].
    apply getZhenyuan_mono; [lra|lia].
Qed.

Lemma options_increasing_witness :
  let s := mkSettings 1 0 zhenyuan 0 in
  let o := optionAt s exampleInstance 0 in
  let o' := optionAt s exampleInstance 1 in
  level o < level o' /\ (opt_t o < opt_t o')%Q /\ opt_z o < opt_z o' /\
  getZhenyuan 99 2 true < getZhenyuan 109 2 true.
Proof.
  intros s o o'.
  destruct (options_increasing s exampleInstance) as (Hopts & _ & Hval).
  - reflexivity.
  - reflexivity.
  - intros H. discriminate H.
  - intros H. discriminate H.
  - destruct (Hopts 0%nat 1%nat o o') as (H1 & H2 & _ & H4).
    + lia.
    + vm_compute; reflexivity.
    + vm_compute; reflexivity.
    + split; [exact H1|]. split; [exact H2|]. split.
      * apply H4. intros H. discriminate H.
      * apply (Hval 99 109); [intros H; discriminate H|lia|lia].
Defined.

(** C3, as stated, fails for a small positive difficulty: the floor in
    [getZhenyuan] gives levels 99 and 109 the same value. *)
Lemma options_value_not_strictly_increasing :
  let s := mkSettings 1 0 zhenyuan 0 in
  let inst := mkInstance (mkArt "a" (1 # 1000) true 1) "a_0" 0 in
  (0 < difficulty (art inst))%Q /\ (0 < speed s)%Q /\
  (0 <= reduction s <= 100)%Q /\
  getZhenyuan 99 (1 # 1000) true = 0 /\
  getZhenyuan 109 (1 # 1000) true = 0 /\
  (fun o => (level o, opt_z o)) <$> take 3 (computeOptions s inst)
  = [(99, 0); (109, 0); (119, 0)].
Proof.
  intros s inst. split_and!; try (cbn; lra); reflexivity.
Qed.

(** ** The sort *)

Lemma insertByZ_perm (x : State) (l : list State) : insertByZ x l ≡ₚ x :: l.
Proof.
  induction l as [|y l IH]; cbn [insertByZ]; [done|].
  case_match; [|done]. rewrite IH. apply Permutation_swap.
Qed.

Lemma sortByZDesc_perm (l : list State) : sortByZDesc l ≡ₚ l.
Proof.
  induction l as [|x l IH]; [done|].
  cbn [sortByZDesc foldr]. rewrite insertByZ_perm. by f_equiv.
Qed.

Lemma insertByZ_sorted (x : State) (l : list State) :
  zNonInc l -> zNonInc (insertByZ x l).
Proof.
  unfold zNonInc. induction l as [|y l IH]; intros Hl; cbn [insertByZ].
  - repeat constructor.
  - apply StronglySorted_cons in Hl as [Hy Hl].
    destruct (Z.ltb_spec 0 (st_z y - st_z x)) as [Hlt|Hge].
    + apply StronglySorted_cons. split; [|by apply IH].
      rewrite insertByZ_perm. constructor; [lia|done].
    + apply StronglySorted_cons. split.
      * constructor; [lia|]. eapply Forall_impl; [exact Hy|]. cbn. lia.
      * apply StronglySorted_cons. done.
Qed.

Lemma sortByZDesc_sorted (l : list State) : zNonInc (sortByZDesc l).
Proof.
  induction l as [|x l IH]; [constructor|].
  cbn [sortByZDesc foldr]. by apply insertByZ_sorted.
Qed.

Lemma elem_of_sortByZDesc (x : State) (l : list State) :
  x ∈ sortByZDesc l <-> x ∈ l.
Proof. by rewrite sortByZDesc_perm. Qed.

Lemma StronglySorted_sublist {A : Type} (R : A -> A -> Prop) (l1 l2 : list A) :
  l1 `sublist_of` l2 -> StronglySorted R l2 -> StronglySorted R l1.
Proof.
  induction 1 as [|x l1 l2 Hsub IH|x l1 l2 Hsub IH]; intros Hs.
  - constructor.
  - apply StronglySorted_cons in Hs as [Hx Hs]. apply StronglySorted_cons.
    split; [|by apply IH]. rewrite Forall_forall in Hx |- *.
    intros y Hy. apply Hx. by eapply sublist_subseteq.
  - apply StronglySorted_cons in Hs as [_ Hs]. by apply IH.
Qed.

(** A sorted list read by positions. *)
Lemma StronglySorted_lookup {A : Type} (R : A -> A -> Prop) (l : list A)
    (i j : nat) (a b : A) :
  StronglySorted R l -> (i < j)%nat -> l !! i = Some a -> l !! j = Some b -> R a b.
Proof.
  intros Hs. revert i j. induction Hs as [|x l Hs IH Hx]; intros i j Hij Hi Hj.
  - by rewrite lookup_nil in Hi.
  - destruct j as [|j]; [lia|]. cbn in Hj. destruct i as [|i].
    + cbn in Hi. injection Hi as <-. rewrite Forall_forall in Hx.
      apply Hx. by eapply list_elem_of_lookup_2.
    + cbn in Hi. apply (IH i j); [lia|done..].
Qed.

(** ** The prune loop *)

Lemma Qltb_lt (x y : Q) : Qltb x y = true <-> (x < y)%Q.
Proof.
  unfold Qltb. rewrite Qlt_alt. destruct (x ?= y)%Q; split; congruence.
Qed.

Lemma pruneInv_init : pruneInv [] pruneInit.
Proof.
  split; cbn.
  - constructor.
  - done.
  - intros b. set_solver.
  - constructor.
  - constructor.
Qed.

Lemma pruneStep_cases (acc : PruneAcc) (c : State) :
  (belowMinTime (st_t c) (minTimeSeen acc) = true /\
   (bucketOf c ∉ seenBuckets acc) /\
   pruneStep acc c
   = mkPruneAcc (pruned acc ++ [c]) (Some (st_t c))
                ({[bucketOf c]} ∪ seenBuckets acc)) \/
  ((belowMinTime (st_t c) (minTimeSeen acc) = false \/
    bucketOf c ∈ seenBuckets acc) /\
   pruneStep acc c = acc).
Proof.
  unfold pruneStep. destruct (belowMinTime _ _) eqn:Ht; [|right; auto].
  destruct (decide (bucketOf c ∉ seenBuckets acc)) as [Hb|Hb].
  - left. auto.
  - right. split; [right|done]. by apply dec_stable.
Qed.

(** Under the invariant the threshold test compares with every kept state. *)
Lemma belowMinTime_all (seen : list State) (acc : PruneAcc) (c : State) :
  pruneInv seen acc ->
  belowMinTime (st_t c) (minTimeSeen acc) = true <->
  (forall k, k ∈ pruned acc -> (st_t c < st_t k)%Q).
Proof.
  intros [_ Hmin _ Htime _]. rewrite Hmin.
  destruct (pruned acc) as [|k0 ks] using rev_ind.
  - cbn. split; [|done]. intros _ k Hk. by apply elem_of_nil in Hk.
  - rewrite last_snoc. cbn. rewrite Qltb_lt. clear IHks. split.
    + intros Hlt k Hk. apply elem_of_app in Hk as [Hk|Hk].
      * unfold tDesc in Htime.
        pose proof (StronglySorted_app_1_elem_of _ _ _ k k0 Htime Hk) as Hkk.
        cbn in Hkk. specialize (Hkk ltac:(left)). lra.
      * apply list_elem_of_singleton in Hk as ->. done.
    + intros Hall. apply Hall. apply elem_of_app. right. left.
Qed.

Lemma pruneInv_step (seen : list State) (acc : PruneAcc) (c : State) :
  pruneInv seen acc -> pruneInv (seen ++ [c]) (pruneStep acc c).
Proof.
  intros Hinv.
  destruct (pruneStep_cases acc c) as [(Ht & Hb & ->)|[_ ->]].
  - pose proof (proj1 (belowMinTime_all seen acc c Hinv) Ht) as Hall.
    destruct Hinv as [Hsub Hmin Hbuckets Htime Hnodup]. split; cbn.
    + by apply sublist_app.
    + by rewrite last_snoc.
    + intros b. rewrite fmap_app, elem_of_app, elem_of_union, Hbuckets.
      cbn. rewrite elem_of_singleton, list_elem_of_singleton. tauto.
    + apply StronglySorted_app. split_and!; [|done|repeat constructor].
      intros k c' Hk Hc'. apply list_elem_of_singleton in Hc' as ->. by apply Hall.
    + rewrite fmap_app. apply NoDup_app. split_and!; [done| |cbn; apply NoDup_singleton].
      intros b Hb1 Hb2. cbn in Hb2. apply list_elem_of_singleton in Hb2 as ->.
      by apply Hb, Hbuckets.
  - destruct Hinv as [Hsub Hmin Hbuckets Htime Hnodup]. split; try done.
    by apply sublist_inserts_r.
Qed.

Lemma pruneInv_foldl (l seen : list State) (acc : PruneAcc) :
  pruneInv seen acc -> pruneInv (seen ++ l) (foldl pruneStep acc l).
Proof.
  revert seen acc. induction l as [|c l IH]; intros seen acc Hinv; cbn [foldl].
  - by rewrite app_nil_r.
  - rewrite (assoc_L (++) seen [c] l : seen ++ c :: l = (seen ++ [c]) ++ l).
    apply IH. by apply pruneInv_step.
Qed.

Lemma pruneInv_prune (l : list State) :
  pruneInv l (foldl pruneStep pruneInit l).
Proof. apply (pruneInv_foldl l [] pruneInit), pruneInv_init. Qed.

Lemma prune_sublist (l : list State) : prune l `sublist_of` l.
Proof. apply (inv_sub _ _ (pruneInv_prune l)). Qed.

Lemma prune_tDesc (l : list State) : tDesc (prune l).
Proof. apply (inv_time _ _ (pruneInv_prune l)). Qed.

Lemma prune_NoDup_buckets (l : list State) : NoDup (bucketOf <$> prune l).
Proof. apply (inv_nodup _ _ (pruneInv_prune l)). Qed.

Lemma elem_of_prune (x : State) (l : list State) : x ∈ prune l -> x ∈ l.
Proof. apply sublist_subseteq, prune_sublist. Qed.

(** Sorted input and pairwise different buckets give strictly decreasing
    values. *)
Lemma prune_zDesc (l : list State) : zNonInc l -> zDesc (prune l).
Proof.
  intros Hl.
  pose proof (StronglySorted_sublist _ _ _ (prune_sublist l) Hl) as Hs.
  pose proof (prune_NoDup_buckets l) as Hnd.
  unfold zDesc. induction Hs as [|x k Hs IH Hx]; [constructor|].
  rewrite fmap_cons in Hnd. apply NoDup_cons in Hnd as [Hnotin Hnd].
  constructor; [by apply IH|].
  rewrite Forall_forall in Hx |- *. intros y Hy.
  specialize (Hx y Hy). cbn in Hx.
  destruct (decide (st_z y = st_z x)) as [Heq|Hne]; [|lia].
  exfalso. apply Hnotin. apply list_elem_of_fmap. exists y. split; [|done].
  unfold bucketOf. by rewrite Heq.
Qed.

(** The first candidate is always kept, so pruning never empties a
    non-empty candidate list. *)
Lemma pruned_foldl_prefix (l : list State) (acc : PruneAcc) :
  exists k, pruned (foldl pruneStep acc l) = pruned acc ++ k /\ k `sublist_of` l.
Proof.
  revert acc. induction l as [|c l IH]; intros acc; cbn [foldl].
  - exists []. by rewrite app_nil_r.
  - destruct (IH (pruneStep acc c)) as (k & -> & Hk).
    destruct (pruneStep_cases acc c) as [(_ & _ & ->)|[_ ->]]; cbn.
    + exists (c :: k). rewrite <- app_assoc. split; [done|by constructor].
    + exists k. split; [done|by constructor].
Qed.

Lemma prune_head (c : State) (l : list State) : head (prune (c :: l)) = Some c.
Proof.
  unfold prune. cbn [foldl].
  destruct (pruned_foldl_prefix l (pruneStep pruneInit c)) as (k & -> & _).
  unfold pruneStep, pruneInit. cbn.
  rewrite decide_True by set_solver. done.
Qed.

Lemma prune_app (before after : list State) :
  prune (before ++ after)
  = pruned (foldl pruneStep (foldl pruneStep pruneInit before) after).
Proof. unfold prune. by rewrite foldl_app. Qed.

(** C1 (amended): when the scan, which runs over the candidates sorted by
    value descending, reaches a candidate [c], the threshold is the least
    time among the states kept so far and the bucket set holds their
    buckets (width 100); [c] is kept exactly when its time is strictly
    below the time of every kept state and no kept state lies in its
    bucket; when [c] is kept, every earlier candidate of its bucket failed
    the time test at its own turn, so the state kept for a bucket is the
    first candidate of that bucket that passes the time test; any other
    candidate is discarded and leaves threshold, bucket set and kept states
    as they were; no two kept states share a bucket. *)
Theorem prune_scan (before after : list State) (c : State) :
  let acc := foldl pruneStep pruneInit before in
  let kept := pruned acc in
  let below := forall k, k ∈ kept -> (st_t c < st_t k)%Q in
  let fresh := forall k, k ∈ kept -> bucketOf k <> bucketOf c in
  (forall i options frontier,
      mergeStep i options frontier = prune (sortByZDesc (expand i options frontier)) /\
      zNonInc (sortByZDesc (expand i options frontier))) /\
  BUCKET_SIZE = 100 /\
  minTimeSeen acc = st_t <$> last kept /\
  (forall k m, k ∈ kept -> minTimeSeen acc = Some m -> (m <= st_t k)%Q) /\
  (forall b, b ∈ seenBuckets acc <-> exists k, k ∈ kept /\ bucketOf k = b) /\
  (below /\ fresh ->
   pruneStep acc c
   = mkPruneAcc (kept ++ [c]) (Some (st_t c)) ({[bucketOf c]} ∪ seenBuckets acc)) /\
  (~ (below /\ fresh) -> pruneStep acc c = acc) /\
  (below /\ fresh ->
   forall b1 c' b2,
     before = b1 ++ c' :: b2 -> bucketOf c' = bucketOf c ->
     ~ (forall k, k ∈ pruned (foldl pruneStep pruneInit b1) -> (st_t c' < st_t k)%Q)) /\
  (exists rest,
      prune (before ++ c :: after) = pruned (pruneStep acc c) ++ rest /\
      rest `sublist_of` after) /\
  NoDup (bucketOf <$> prune (before ++ c :: after)).
Proof.
  intros acc kept below fresh.
  assert (pruneInv before acc) as Hinv by apply pruneInv_prune.
  assert (exists rest,
             prune (before ++ c :: after) = pruned (pruneStep acc c) ++ rest /\
             rest `sublist_of` after) as Hrest.
  { rewrite prune_app. cbn [foldl]. apply pruned_foldl_prefix. }
  assert (fresh ->
          forall b1 c' b2,
            before = b1 ++ c' :: b2 -> bucketOf c' = bucketOf c ->
            ~ (forall k, k ∈ pruned (foldl pruneStep pruneInit b1) ->
                         (st_t c' < st_t k)%Q)) as Hfirst.
  { intros Hf b1 c' b2 Hbefore Hbucket Hpass.
    pose proof (pruneInv_prune b1) as Hinv1.
    set (acc1 := foldl pruneStep pruneInit b1) in *.
    assert (pruned (pruneStep acc1 c') `sublist_of` kept) as Hsub.
    { unfold kept, acc. rewrite Hbefore, foldl_app. cbn [foldl]. fold acc1.
      destruct (pruned_foldl_prefix b2 (pruneStep acc1 c')) as (more & -> & _).
      by apply sublist_inserts_r. }
    destruct (pruneStep_cases acc1 c') as [(_ & _ & Hstep)|[[Hn|Hn] Hstep]].
    - apply (Hf c'); [|done]. eapply sublist_subseteq; [exact Hsub|].
      rewrite Hstep. cbn. apply elem_of_app. right. left.
    - apply (belowMinTime_all b1 acc1 c' Hinv1) in Hpass. congruence.
    - apply (inv_buckets _ _ Hinv1) in Hn.
      apply list_elem_of_fmap in Hn as (k & Hkb & Hk).
      apply (Hf k); [|congruence]. eapply sublist_subseteq; [exact Hsub|].
      by rewrite Hstep. }
  subst kept below fresh. clearbody acc.
  assert (forall b, b ∈ seenBuckets acc <->
                    exists k, k ∈ pruned acc /\ bucketOf k = b) as Hseen.
  { intros b. rewrite (inv_buckets _ _ Hinv), list_elem_of_fmap.
    split; intros (k & H1 & H2); exists k; auto. }
  assert ((forall k, k ∈ pruned acc -> (st_t c < st_t k)%Q) <->
          belowMinTime (st_t c) (minTimeSeen acc) = true) as Hbelow.
  { symmetry. by eapply belowMinTime_all. }
  assert ((forall k, k ∈ pruned acc -> bucketOf k <> bucketOf c) <->
          bucketOf c ∉ seenBuckets acc) as Hfresh.
  { rewrite Hseen. split.
    - intros H (k & Hk & Heq). by apply (H k).
    - intros H k Hk Heq. apply H. by exists k. }
  split_and!.
  - intros i options frontier. split; [done|apply sortByZDesc_sorted].
  - done.
  - apply (inv_min _ _ Hinv).
  - intros k m Hk Hm. rewrite (inv_min _ _ Hinv) in Hm.
    pose proof (inv_time _ _ Hinv) as Htime.
    destruct (pruned acc) as [|k0 ks _] using rev_ind; [done|].
    rewrite last_snoc in Hm. injection Hm as <-.
    apply elem_of_app in Hk as [Hk|Hk].
    + pose proof (StronglySorted_app_1_elem_of _ _ _ k k0 Htime Hk) as Hkk.
      cbn in Hkk. specialize (Hkk ltac:(left)). lra.
    + apply list_elem_of_singleton in Hk as ->. lra.
  - exact Hseen.
  - intros [Hb Hf]. apply Hbelow in Hb. apply Hfresh in Hf.
    destruct (pruneStep_cases acc c) as [(_ & _ & ->)|[[Hn|Hn] _]];
      [done|congruence|done].
  - intros Hnot.
    destruct (pruneStep_cases acc c) as [(Hb & Hf & _)|[_ ->]]; [|done].
    exfalso. apply Hnot. by rewrite Hbelow, Hfresh.
  - intros [_ Hf]. by apply Hfirst.
  - exact Hrest.
  - apply prune_NoDup_buckets.
Qed.

Lemma prune_scan_witness :
  let c1 := mkState 250 5 [109; 99] in
  let c2 := mkState 240 3 [99; 109] in
  let c3 := mkState 140 1 [99; 99] in
  pruneStep (foldl pruneStep pruneInit [c1]) c3
  = mkPruneAcc [c1; c3] (Some 1%Q) ({[1]} ∪ {[2]} ∪ ∅) /\
  pruneStep (foldl pruneStep pruneInit [c1]) c2 = foldl pruneStep pruneInit [c1].
Proof.
  intros c1 c2 c3. split.
  - apply (prune_scan [c1] [] c3). split.
    + intros k Hk. apply list_elem_of_singleton in Hk as ->. reflexivity.
    + intros k Hk. apply list_elem_of_singleton in Hk as ->. vm_compute. lia.
  - apply (prune_scan [c1] [] c2). intros [_ Hfresh].
    apply (Hfresh c1); [left|reflexivity].
Defined.

(** A hand-sized trace of the prune loop: the candidate of value 150, the
    first and highest of bucket 1, fails the time test against the kept
    state of value 250, and bucket 1 goes to the candidate of value 140. *)
Lemma prune_trace_bucket_1 :
  let c1 := mkState 250 5 [] in
  let c2 := mkState 150 7 [] in
  let c3 := mkState 140 3 [] in
  zNonInc [c1; c2; c3] /\
  bucketOf c2 = 1 /\ bucketOf c3 = 1 /\
  prune [c1; c2; c3] = [c1; c3].
Proof.
  intros c1 c2 c3. split_and!; [|reflexivity..].
  repeat constructor; cbn; lia.
Qed.

(** ** The pipeline with times in lowest terms agrees with [optimize] *)

Lemma Qred_plus_norm (a b : Q) : Qred (Qred a + Qred b) = Qred (a + b).
Proof. apply Qred_complete. by rewrite !Qred_correct. Qed.

Lemma Qltb_Qred (a b : Q) : Qltb (Qred a) (Qred b) = Qltb a b.
Proof. unfold Qltb. by rewrite <- Qred_compare. Qed.

Lemma Qle_bool_Qred_l (a b : Q) : Qle_bool (Qred a) b = Qle_bool a b.
Proof. apply Qleb_comp; [apply Qred_correct|reflexivity]. Qed.

Lemma baseZ_norm (options : list Opt) : baseZ (normOpt <$> options) = baseZ options.
Proof. by destruct options. Qed.

Lemma expand_norm (i : nat) (options : list Opt) (frontier : list State) :
  normState <$> expand i (normOpt <$> options) (normState <$> frontier)
  = normState <$> expand i options frontier.
Proof.
  unfold expand. rewrite baseZ_norm. generalize (baseZ options) as b. intros b.
  induction frontier as [|s fr IH]; [done|].
  rewrite fmap_cons, !bind_cons, !fmap_app, IH. f_equal. clear IH.
  induction options as [|o os IH]; [done|].
  rewrite fmap_cons, !bind_cons, !fmap_app, IH. f_equal.
  cbn. unfold normState. cbn. by rewrite Qred_plus_norm.
Qed.

Lemma insertByZ_norm (x : State) (l : list State) :
  normState <$> insertByZ x l = insertByZ (normState x) (normState <$> l).
Proof.
  induction l as [|y l IH]; [done|]. cbn [insertByZ fmap list_fmap].
  change (st_z (normState ?s)) with (st_z s).
  case_match; [|done]. cbn [fmap list_fmap]. by rewrite <- IH.
Qed.

Lemma sortByZDesc_norm (l : list State) :
  normState <$> sortByZDesc l = sortByZDesc (normState <$> l).
Proof.
  induction l as [|x l IH]; [done|].
  cbn [sortByZDesc foldr fmap list_fmap]. rewrite insertByZ_norm.
  f_equal. exact IH.
Qed.

Lemma pruneStep_norm (acc : PruneAcc) (c : State) :
  pruneStep (normAcc acc) (normState c) = normAcc (pruneStep acc c).
Proof.
  unfold pruneStep.
  assert (belowMinTime (st_t (normState c)) (minTimeSeen (normAcc acc))
          = belowMinTime (st_t c) (minTimeSeen acc)) as ->.
  { cbn. destruct (minTimeSeen acc); [apply Qltb_Qred|done]. }
  destruct (belowMinTime _ _); [|done].
  change (bucketOf (normState c)) with (bucketOf c).
  change (seenBuckets (normAcc acc)) with (seenBuckets acc).
  case_decide; [|done].
  unfold normAcc. cbn. by rewrite fmap_app.
Qed.

Lemma foldl_pruneStep_norm (l : list State) (acc : PruneAcc) :
  foldl pruneStep (normAcc acc) (normState <$> l) = normAcc (foldl pruneStep acc l).
Proof.
  revert acc. induction l as [|c l IH]; intros acc; [done|].
  cbn [foldl fmap list_fmap]. by rewrite pruneStep_norm, IH.
Qed.

Lemma prune_norm (l : list State) :
  prune (normState <$> l) = normState <$> prune l.
Proof.
  unfold prune. change pruneInit with (normAcc pruneInit) at 1.
  by rewrite foldl_pruneStep_norm.
Qed.

Lemma mergeStep_norm (i : nat) (options : list Opt) (frontier : list State) :
  mergeStepN i (normOpt <$> options) (normState <$> frontier)
  = normState <$> mergeStep i options frontier.
Proof.
  unfold mergeStepN, mergeStep.
  by rewrite <- !prune_norm, !sortByZDesc_norm, expand_norm.
Qed.

Lemma mergeFrom_norm (instanceOptions : list (list Opt)) (i : nat)
    (frontier : list State) :
  mergeFromN i (fmap (M:=list) normOpt <$> instanceOptions) (normState <$> frontier)
  = normState <$> mergeFrom i instanceOptions frontier.
Proof.
  revert i frontier. induction instanceOptions as [|o os IH]; intros i frontier.
  - done.
  - cbn [mergeFromN mergeFrom fmap list_fmap].
    by rewrite mergeStep_norm, IH.
Qed.

Lemma optionsNFrom_spec (settings : Settings) (inst : Instance) (n k : nat) :
  optionsNFrom (difficulty (art inst)) (speed settings) (reduction settings)
               (isMain (art inst)) n k
               (Qred (cumCost (difficulty (art inst)) (speed settings)
                              (reduction settings) k))
  = normOpt <$> (optionAt settings inst <$> seq (S k) n).
Proof.
  revert k. induction n as [|n IH]; intros k; [done|].
  cbn [optionsNFrom seq fmap list_fmap].
  set (d := difficulty (art inst)). set (sp := speed settings).
  set (r := reduction settings).
  assert (Qred (Qred (cumCost d sp r k) + getStepCost (99 + 10 * Z.of_nat k) d sp r)
          = Qred (cumCost d sp r (S k))) as ->.
  { apply Qred_complete. cbn [cumCost]. by rewrite Qred_correct. }
  f_equal. apply IH.
Qed.

Lemma optionsN_spec (settings : Settings) (inst : Instance) :
  optionsN settings inst = normOpt <$> computeOptions settings inst.
Proof.
  rewrite computeOptions_closed. unfold optionsN.
  change (seq 0 41) with (0%nat :: seq 1 40). cbn [fmap list_fmap].
  f_equal. exact (optionsNFrom_spec settings inst 40 0).
Qed.

Lemma optionsN_fmap (settings : Settings) (instances : list Instance) :
  optionsN settings <$> instances
  = fmap (M:=list) normOpt <$> (computeOptions settings <$> instances).
Proof.
  rewrite <- list_fmap_compose. apply list_fmap_ext.
  intros _ inst _. apply optionsN_spec.
Qed.

Lemma frontierOf_norm (settings : Settings) (instances : list Instance) :
  frontierOfN settings instances = normState <$> frontierOf settings instances.
Proof.
  unfold frontierOfN, frontierOf.
  by rewrite <- mergeFrom_norm, optionsN_fmap.
Qed.

Lemma scanZhenyuan_norm (base : Z) (target : Q) (frontier : list State)
    (best : option State) :
  scanZhenyuan base target (normState <$> frontier) (normState <$> best)
  = normState <$> scanZhenyuan base target frontier best.
Proof.
  revert best. induction frontier as [|s fr IH]; intros best; [done|].
  cbn [scanZhenyuan fmap list_fmap].
  change (st_z (normState s)) with (st_z s).
  case_match; [|done]. apply (IH (Some s)).
Qed.

Lemma scanTime_norm (target : Q) (frontier : list State) :
  scanTime target (normState <$> frontier) = normState <$> scanTime target frontier.
Proof.
  induction frontier as [|s fr IH]; [done|].
  cbn [scanTime fmap list_fmap].
  change (st_t (normState s)) with (Qred (st_t s)). rewrite Qle_bool_Qred_l.
  by case_match.
Qed.

Lemma selectBest_norm (settings : Settings) (base : Z) (frontier : list State) :
  selectBest settings base (normState <$> frontier)
  = normState <$> selectBest settings base frontier.
Proof.
  unfold selectBest. destruct (targetType settings).
  - rewrite (scanZhenyuan_norm base _ frontier None).
    destruct (scanZhenyuan _ _ frontier None); [done|].
    cbn. by destruct frontier.
  - rewrite scanTime_norm. destruct (scanTime _ frontier); [done|].
    cbn. by rewrite fmap_last.
Qed.

(** The reduced pipeline returns the result of [optimize], with the total
    time in lowest terms. *)
Lemma optimizeN_spec (arts0 : list Art) (settings : Settings) :
  optimizeN arts0 settings = normResult <$> optimize arts0 settings.
Proof.
  unfold optimizeN, optimize. case_decide; [done|].
  rewrite frontierOf_norm, selectBest_norm.
  by destruct (selectBest _ _ (frontierOf _ _)).
Qed.

Lemma optimizeN_Some (arts0 : list Art) (settings : Settings)
    (total : Z) (hours : Q) (levels : gmap string Z) (p : list Z) :
  optimizeN arts0 settings = Some (mkResult total hours levels p) ->
  exists r, optimize arts0 settings = Some r /\
            totalZhenyuan r = total /\
            (totalTimeHours r == hours)%Q /\
            arts r = levels.
Proof.
  rewrite optimizeN_spec. destruct (optimize arts0 settings) as [r|]; [|done].
  cbn. intros [= <- <- <- <-]. exists r. split_and!; try done.
  symmetry. apply Qred_correct.
Qed.

(** ** Candidates and what a merge step preserves *)

Lemma elem_of_expand (c : State) (i : nat) (options : list Opt)
    (frontier : list State) :
  c ∈ expand i options frontier <->
  exists s o, s ∈ frontier /\ o ∈ options /\ c = candidate i options s o.
Proof.
  unfold expand. rewrite list_elem_of_bind. split.
  - intros (s & Hc & Hs). apply list_elem_of_bind in Hc as (o & Hc & Ho).
    apply list_elem_of_singleton in Hc. by exists s, o.
  - intros (s & o & Hs & Ho & ->). exists s. split; [|done].
    apply list_elem_of_bind. exists o. split; [|done].
    by apply list_elem_of_singleton.
Qed.

Lemma elem_of_mergeStep (c : State) (i : nat) (options : list Opt)
    (frontier : list State) :
  c ∈ mergeStep i options frontier ->
  exists s o, s ∈ frontier /\ o ∈ options /\ c = candidate i options s o.
Proof.
  intros Hc. unfold mergeStep in Hc. apply elem_of_prune in Hc.
  rewrite elem_of_sortByZDesc in Hc. exact (proj1 (elem_of_expand _ _ _ _) Hc).
Qed.

Lemma mergeStep_nonempty (i : nat) (options : list Opt) (frontier : list State) :
  options <> [] -> frontier <> [] -> mergeStep i options frontier <> [].
Proof.
  intros Ho Hf. unfold mergeStep.
  destruct (sortByZDesc (expand i options frontier)) as [|c l] eqn:E.
  - exfalso. destruct frontier as [|s fr]; [done|].
    destruct options as [|o os]; [done|].
    assert (candidate i (o :: os) s o ∈ sortByZDesc (expand i (o :: os) (s :: fr))) as Hin.
    { apply elem_of_sortByZDesc, elem_of_expand. exists s, o.
      split_and!; [left|left|done]. }
    rewrite E in Hin. by apply elem_of_nil in Hin.
  - intros Hnil. pose proof (prune_head c l) as Hh. by rewrite Hnil in Hh.
Qed.

Lemma mergeFrom_snoc (instanceOptions : list (list Opt)) (options : list Opt)
    (i : nat) (frontier : list State) :
  mergeFrom i (instanceOptions ++ [options]) frontier
  = mergeStep (i + length instanceOptions) options
              (mergeFrom i instanceOptions frontier).
Proof.
  revert i frontier. induction instanceOptions as [|o os IH]; intros i frontier.
  - cbn. by rewrite Nat.add_0_r.
  - cbn [mergeFrom app length]. rewrite IH. f_equal. lia.
Qed.

(** Every frontier of the fold is sorted: value strictly decreasing and
    time strictly decreasing along it. *)
Lemma mergeFrom_sorted (instanceOptions : list (list Opt)) (i : nat)
    (frontier : list State) :
  zDesc frontier -> tDesc frontier ->
  zDesc (mergeFrom i instanceOptions frontier) /\
  tDesc (mergeFrom i instanceOptions frontier).
Proof.
  revert i frontier. induction instanceOptions as [|o os IH]; intros i frontier Hz Ht.
  - done.
  - cbn [mergeFrom]. apply IH.
    + apply prune_zDesc, sortByZDesc_sorted.
    + apply prune_tDesc.
Qed.

Lemma mergeFrom_NoDup_buckets (instanceOptions : list (list Opt)) (i : nat)
    (frontier : list State) :
  NoDup (bucketOf <$> frontier) ->
  NoDup (bucketOf <$> mergeFrom i instanceOptions frontier).
Proof.
  revert i frontier. induction instanceOptions as [|o os IH]; intros i frontier Hnd.
  - done.
  - cbn [mergeFrom]. apply IH, prune_NoDup_buckets.
Qed.

Lemma mergeFrom_nonempty (instanceOptions : list (list Opt)) (i : nat)
    (frontier : list State) :
  Forall (fun options => options <> []) instanceOptions -> frontier <> [] ->
  mergeFrom i instanceOptions frontier <> [].
Proof.
  intros Hall. revert i frontier.
  induction Hall as [|o os Ho Hall IH]; intros i frontier Hf; [done|].
  cbn [mergeFrom]. by apply IH, mergeStep_nonempty.
Qed.

(** Bounds that every option gain respects carry over to the frontier:
    the values stay within the summed bounds. *)
Lemma mergeFrom_bounds (instanceOptions : list (list Opt)) (bounds : list (Z * Z))
    (i : nat) (frontier : list State) (L H : Z) :
  Forall2 (fun options b =>
             forall o, o ∈ options -> b.1 <= opt_z o - baseZ options <= b.2)
          instanceOptions bounds ->
  (forall s, s ∈ frontier -> L <= st_z s <= H) ->
  forall s, s ∈ mergeFrom i instanceOptions frontier ->
            L + foldr Z.add 0 (fst <$> bounds) <= st_z s
            <= H + foldr Z.add 0 (snd <$> bounds).
Proof.
  intros Hall. revert i frontier L H.
  induction Hall as [|o b os bs Ho Hall IH]; intros i frontier L H Hf s Hs.
  - cbn in *. specialize (Hf s Hs). lia.
  - cbn [mergeFrom foldr fmap list_fmap] in *.
    apply (IH (S i) (mergeStep i o frontier) (L + b.1) (H + b.2)) in Hs; [lia|].
    intros c Hc. apply elem_of_mergeStep in Hc as (s0 & o0 & Hs0 & Ho0 & ->).
    cbn. specialize (Hf s0 Hs0). specialize (Ho o0 Ho0). lia.
Qed.

Lemma mergeFrom_time_nonneg (instanceOptions : list (list Opt))
    (i : nat) (frontier : list State) :
  Forall (fun options => forall o, o ∈ options -> (0 <= opt_t o)%Q)
         instanceOptions ->
  (forall s, s ∈ frontier -> (0 <= st_t s)%Q) ->
  forall s, s ∈ mergeFrom i instanceOptions frontier -> (0 <= st_t s)%Q.
Proof.
  intros Hall. revert i frontier.
  induction Hall as [|o os Ho Hall IH]; intros i frontier Hf s Hs.
  - by apply Hf.
  - cbn [mergeFrom] in Hs. apply (IH (S i) (mergeStep i o frontier)); [|done].
    intros c Hc. apply elem_of_mergeStep in Hc as (s0 & o0 & Hs0 & Ho0 & ->).
    cbn. specialize (Hf s0 Hs0). specialize (Ho o0 Ho0). lra.
Qed.

(** *** The options of a real instance *)

Lemma baseZ_computeOptions settings inst :
  baseZ (computeOptions settings inst)
  = getZhenyuan 99 (difficulty (art inst)) (isMain (art inst)).
Proof. by rewrite computeOptions_closed. Qed.

Lemma elem_of_computeOptions settings inst (o : Opt) :
  o ∈ computeOptions settings inst ->
  exists k : nat, (k < 41)%nat /\ o = optionAt settings inst k.
Proof.
  intros Ho. apply list_elem_of_lookup in Ho as [k Hk].
  exists k. by apply lookup_computeOptions_inv.
Qed.

Lemma computeOptions_nonempty settings inst : computeOptions settings inst <> [].
Proof. by rewrite computeOptions_closed. Qed.

Lemma computeOptions_gain settings inst (o : Opt) :
  (0 <= difficulty (art inst))%Q ->
  o ∈ computeOptions settings inst ->
  0 <= opt_z o - baseZ (computeOptions settings inst) <= valueRange inst.
Proof.
  intros Hd Ho. rewrite baseZ_computeOptions.
  apply elem_of_computeOptions in Ho as (k & Hk & ->).
  unfold valueRange. cbn [optionAt opt_z].
  pose proof (getZhenyuan_mono 99 (99 + 10 * Z.of_nat k) _ (isMain (art inst)) Hd
                ltac:(lia)).
  pose proof (getZhenyuan_mono (99 + 10 * Z.of_nat k) 499 _ (isMain (art inst)) Hd
                ltac:(lia)).
  lia.
Qed.

Lemma valueRange_nonneg (inst : Instance) :
  (0 <= difficulty (art inst))%Q -> 0 <= valueRange inst.
Proof.
  intros Hd. unfold valueRange.
  pose proof (getZhenyuan_mono 99 499 _ (isMain (art inst)) Hd ltac:(lia)). lia.
Qed.

(** Whatever the sign of the difficulty, the gain of an option lies between
    0 and the value range of its instance. *)
Lemma computeOptions_span settings inst (o : Opt) :
  o ∈ computeOptions settings inst ->
  Z.min 0 (valueRange inst) <= opt_z o - baseZ (computeOptions settings inst)
  <= Z.max 0 (valueRange inst).
Proof.
  intros Ho. destruct (Qlt_le_dec (difficulty (art inst)) 0) as [Hneg|Hpos].
  - rewrite baseZ_computeOptions.
    apply elem_of_computeOptions in Ho as (k & Hk & ->).
    unfold valueRange. cbn [optionAt opt_z].
    pose proof (getZhenyuan_anti 99 (99 + 10 * Z.of_nat k) _ (isMain (art inst))
                  (Qlt_le_weak _ _ Hneg) ltac:(lia)).
    pose proof (getZhenyuan_anti (99 + 10 * Z.of_nat k) 499 _ (isMain (art inst))
                  (Qlt_le_weak _ _ Hneg) ltac:(lia)).
    lia.
  - pose proof (computeOptions_gain settings inst o Hpos Ho). lia.
Qed.

Lemma computeOptions_time_nonneg settings inst (o : Opt) :
  (0 < difficulty (art inst))%Q -> (0 < speed settings)%Q ->
  (reduction settings <= 100)%Q ->
  o ∈ computeOptions settings inst -> (0 <= opt_t o)%Q.
Proof.
  intros Hd Hsp Hr Ho. apply elem_of_computeOptions in Ho as (k & Hk & ->).
  cbn [optionAt opt_t]. by apply cumCost_nonneg.
Qed.

(** ** Frontiers of the fold *)

Lemma prefixFrontier_all settings instances :
  prefixFrontier settings instances (length instances) = frontierOf settings instances.
Proof.
  unfold prefixFrontier, frontierOf. by rewrite take_ge by (by rewrite length_fmap).
Qed.

Lemma prefixFrontier_S settings instances (k : nat) (inst : Instance) :
  instances !! k = Some inst ->
  prefixFrontier settings instances (S k)
  = mergeStep k (computeOptions settings inst) (prefixFrontier settings instances k).
Proof.
  intros Hk. unfold prefixFrontier.
  rewrite (take_S_r _ k (computeOptions settings inst))
    by (by rewrite list_lookup_fmap, Hk).
  rewrite mergeFrom_snoc. f_equal. cbn.
  rewrite length_take, length_fmap. apply lookup_lt_Some in Hk. lia.
Qed.

(** C2 (amended): along every frontier produced by a merge step, and so
    along the frontier after any prefix of instances, the value strictly
    decreases and the time strictly decreases with it; time is strictly
    increasing in value. *)
Theorem mergeStep_order (i : nat) (options : list Opt) (frontier : list State)
    (settings : Settings) (instances : list Instance) (n : nat) :
  (forall (j k : nat) (a b : State),
      (j < k)%nat ->
      mergeStep i options frontier !! j = Some a ->
      mergeStep i options frontier !! k = Some b ->
      st_z b < st_z a /\ (st_t b < st_t a)%Q) /\
  (forall (j k : nat) (a b : State),
      (j < k)%nat ->
      prefixFrontier settings instances n !! j = Some a ->
      prefixFrontier settings instances n !! k = Some b ->
      st_z b < st_z a /\ (st_t b < st_t a)%Q).
Proof.
  split; intros j k a b Hjk Ha Hb.
  - split.
    + apply (StronglySorted_lookup (fun a b => st_z b < st_z a)
               (mergeStep i options frontier) j k a b); [|done..].
      apply prune_zDesc, sortByZDesc_sorted.
    + apply (StronglySorted_lookup (fun a b => (st_t b < st_t a)%Q)
               (mergeStep i options frontier) j k a b); [|done..].
      apply prune_tDesc.
  - destruct (mergeFrom_sorted (take n (computeOptions settings <$> instances)) 0
                (initialFrontier (length instances))) as [Hz Ht];
      [repeat constructor..|].
    split.
    + by apply (StronglySorted_lookup (fun a b => st_z b < st_z a) _ j k a b Hz).
    + by apply (StronglySorted_lookup (fun a b => (st_t b < st_t a)%Q) _ j k a b Ht).
Qed.

Lemma NoDup_range_length (bs : list Z) (lo hi : Z) :
  lo <= hi -> NoDup bs -> (forall b, b ∈ bs -> lo <= b <= hi) ->
  Z.of_nat (length bs) <= hi - lo + 1.
Proof.
  intros Hn Hnd Hr.
  assert (bs ⊆+ seqZ lo (hi - lo + 1)) as Hsub.
  { apply NoDup_submseteq; [done|]. intros b Hb. apply elem_of_seqZ.
    specialize (Hr b Hb). lia. }
  apply submseteq_length in Hsub. rewrite length_seqZ in Hsub. lia.
Qed.

Lemma prefixFrontier_nonempty settings instances (k : nat) :
  prefixFrontier settings instances k <> [].
Proof.
  apply mergeFrom_nonempty; [|done].
  apply Forall_take, Forall_fmap, Forall_forall.
  intros inst _. apply computeOptions_nonempty.
Qed.

Lemma prefixFrontier_range settings instances (k : nat) :
  forall s, s ∈ prefixFrontier settings instances k ->
            lowestDelta (take k instances) <= st_z s
            <= highestDelta (take k instances).
Proof.
  intros s Hs. unfold prefixFrontier in Hs. rewrite <- fmap_take in Hs.
  apply (mergeFrom_bounds _
           ((fun inst => (Z.min 0 (valueRange inst), Z.max 0 (valueRange inst)))
              <$> take k instances) _ _ 0 0) in Hs.
  - rewrite <- !list_fmap_compose in Hs. unfold lowestDelta, highestDelta.
    exact Hs.
  - apply Forall2_fmap, Forall_Forall2_diag, Forall_forall.
    intros inst _ o Ho. cbn. by apply computeOptions_span.
  - intros s0 Hs0. apply list_elem_of_singleton in Hs0 as ->. cbn. lia.
Qed.

(** With difficulties of at least 0 the deltas range from 0 to the sum of
    the value ranges. *)
Lemma delta_range_nonneg (instances : list Instance) :
  Forall (fun inst => 0 <= difficulty (art inst))%Q instances ->
  lowestDelta instances = 0 /\
  highestDelta instances = foldr Z.add 0 (valueRange <$> instances).
Proof.
  unfold lowestDelta, highestDelta.
  induction 1 as [|inst insts Hd _ [IHlo IHhi]]; [done|].
  cbn [fmap list_fmap foldr]. rewrite IHlo, IHhi.
  pose proof (valueRange_nonneg inst Hd). lia.
Qed.

Lemma prefixFrontier_value_nonneg settings instances (k : nat) :
  Forall (fun inst => 0 <= difficulty (art inst))%Q instances ->
  forall s, s ∈ prefixFrontier settings instances k -> 0 <= st_z s.
Proof.
  intros Hd s Hs. apply prefixFrontier_range in Hs.
  destruct (delta_range_nonneg (take k instances)) as [Hlo _];
    [by apply Forall_take|].
  lia.
Qed.

(** C8: after any prefix of instances the frontier holds at most one state
    per bucket of width 100, and its values lie in the range of the value
    deltas that the instances merged so far can reach; so its size is at
    most the number of buckets that span this range.  For difficulties of
    at least 0 the range is from 0 to the sum of the value ranges of these
    instances. *)
Theorem frontier_size_bound (settings : Settings) (instances : list Instance)
    (k : nat) :
  let fr := prefixFrontier settings instances k in
  let lo := lowestDelta (take k instances) in
  let hi := highestDelta (take k instances) in
  (forall s, s ∈ fr -> lo <= st_z s <= hi) /\
  NoDup (bucketOf <$> fr) /\
  Z.of_nat (length fr) <= hi / BUCKET_SIZE - lo / BUCKET_SIZE + 1 /\
  (Forall (fun inst => 0 <= difficulty (art inst))%Q (take k instances) ->
   lo = 0 /\ hi = foldr Z.add 0 (valueRange <$> take k instances)).
Proof.
  intros fr lo hi.
  assert (forall s, s ∈ fr -> lo <= st_z s <= hi) as Hrange
    by apply prefixFrontier_range.
  assert (NoDup (bucketOf <$> fr)) as Hnd.
  { apply mergeFrom_NoDup_buckets. cbn. apply NoDup_singleton. }
  split_and!; [done..| |apply delta_range_nonneg].
  rewrite <- (length_fmap bucketOf).
  assert (lo <= hi) as Hlohi.
  { pose proof (prefixFrontier_nonempty settings instances k) as Hne.
    fold fr in Hne. destruct fr as [|s0 fr0]; [done|].
    specialize (Hrange s0 ltac:(left)). lia. }
  apply NoDup_range_length; [by apply Z.div_le_mono|done|].
  intros b Hb. apply list_elem_of_fmap in Hb as (s & -> & Hs).
  specialize (Hrange s Hs). unfold bucketOf, BUCKET_SIZE.
  split; apply Z.div_le_mono; lia.
Qed.

Lemma frontier_size_bound_witness :
  let instances := [exampleReplica 0; exampleReplica 1] in
  lowestDelta (take 1 instances) = 0 /\
  highestDelta (take 1 instances) = 73041 /\
  Z.of_nat (length (prefixFrontier (mkSettings 1 0 zhenyuan 0) instances 1))
  <= 73041 / 100 - 0 / 100 + 1.
Proof.
  intros instances.
  destruct (frontier_size_bound (mkSettings 1 0 zhenyuan 0) instances 1)
    as (_ & _ & Hlen & Hrange).
  destruct Hrange as [Hlo Hhi].
  { repeat constructor. intros H. discriminate H. }
  assert (foldr Z.add 0 (valueRange <$> take 1 instances) = 73041) as Hsum
    by reflexivity.
  rewrite Hsum in Hhi.
  split; [exact Hlo|]. split; [exact Hhi|].
  rewrite Hlo, Hhi in Hlen. exact Hlen.
Defined.

(** ** The instances *)

Lemma elem_of_imap_expandArt (inst : Instance) (arts0 : list Art) (j : nat) :
  inst ∈ concat (imap (fun idx => expandArt (j + idx)) arts0) -> art inst ∈ arts0.
Proof.
  revert j. induction arts0 as [|a arts0 IH]; intros j Hin.
  - by apply elem_of_nil in Hin.
  - rewrite imap_cons in Hin. cbn [concat] in Hin.
    apply elem_of_app in Hin as [Hin|Hin].
    + unfold expandArt in Hin. apply list_elem_of_fmap in Hin as (i & -> & _).
      left.
    + right. apply (IH (S j)).
      erewrite imap_ext; [exact Hin|]. intros idx x _. cbn. f_equal. lia.
Qed.

Lemma elem_of_flatten (inst : Instance) (arts0 : list Art) :
  inst ∈ flatten arts0 -> art inst ∈ arts0.
Proof. apply (elem_of_imap_expandArt inst arts0 0). Qed.

Lemma concat_imap_nil {A B : Type} (f : nat -> A -> list B) (l : list A) :
  (forall idx a, a ∈ l -> f idx a = []) -> concat (imap f l) = [].
Proof.
  revert f. induction l as [|a l IH]; intros f Hnil; [done|].
  rewrite imap_cons. cbn [concat]. rewrite Hnil by left. cbn.
  apply IH. intros idx a' Ha'. cbn. apply Hnil. by right.
Qed.

Lemma flatten_no_count (arts0 : list Art) :
  Forall (fun a => count a = 0) arts0 -> flatten arts0 = [].
Proof.
  intros Hall. apply concat_imap_nil. intros idx a Ha.
  rewrite Forall_forall in Hall. unfold expandArt. by rewrite (Hall a Ha).
Qed.

(** C9: with an empty specification list, or when every replica count is
    zero, there are no instances and [optimize] returns at once the zero
    result: total value 0, total time 0, empty mapping. *)
Theorem optimize_no_instances (arts0 : list Art) (settings : Settings) :
  Forall (fun a => count a = 0) arts0 ->
  flatten arts0 = [] /\
  optimize arts0 settings = Some (mkResult 0 0%Q ∅ []).
Proof.
  intros Hall. pose proof (flatten_no_count arts0 Hall) as Hf.
  split; [done|]. unfold optimize. by rewrite Hf.
Qed.

Lemma optimize_no_instances_witness :
  optimize [] (mkSettings 1 0 zhenyuan 100) = Some (mkResult 0 0%Q ∅ []) /\
  optimize [mkArt "a" 3 true 0; mkArt "b" 1 false 0] (mkSettings 2 10 time 50)
  = Some (mkResult 0 0%Q ∅ []).
Proof.
  split.
  - apply (optimize_no_instances [] (mkSettings 1 0 zhenyuan 100)). constructor.
  - apply (optimize_no_instances [mkArt "a" 3 true 0; mkArt "b" 1 false 0]
             (mkSettings 2 10 time 50)).
    repeat constructor.
Defined.

(** ** The selector *)

Lemma scanZhenyuan_elem (base : Z) (target : Q) (frontier : list State)
    (best : option State) (s : State) :
  scanZhenyuan base target frontier best = Some s -> s ∈ frontier \/ best = Some s.
Proof.
  revert best. induction frontier as [|c fr IH]; intros best H; cbn in H.
  - by right.
  - destruct (Qle_bool _ _); [|by right].
    apply IH in H as [H|[= <-]]; left; [by right|left].
Qed.

Lemma scanTime_elem (target : Q) (frontier : list State) (s : State) :
  scanTime target frontier = Some s -> s ∈ frontier.
Proof.
  induction frontier as [|c fr IH]; intros H; cbn in H; [done|].
  destruct (Qle_bool _ _); [injection H as <-; left|right; by apply IH].
Qed.

Lemma selectBest_elem (settings : Settings) (base : Z) (frontier : list State) :
  frontier <> [] ->
  exists s, selectBest settings base frontier = Some s /\ s ∈ frontier.
Proof.
  intros Hne. unfold selectBest. destruct (targetType settings).
  - destruct (scanZhenyuan _ _ frontier None) as [s|] eqn:E.
    + exists s. split; [done|]. by apply scanZhenyuan_elem in E as [E|E].
    + destruct frontier as [|s fr]; [done|]. exists s. split; [done|left].
  - destruct (scanTime _ frontier) as [s|] eqn:E.
    + exists s. split; [done|]. by apply scanTime_elem in E.
    + apply last_is_Some in Hne as [s Hs]. exists s. split; [done|].
      by apply last_Some_elem_of.
Qed.

Lemma frontierOf_nonempty (settings : Settings) (instances : list Instance) :
  frontierOf settings instances <> [].
Proof.
  apply mergeFrom_nonempty; [|done].
  apply Forall_fmap, Forall_forall. intros inst _. apply computeOptions_nonempty.
Qed.

Lemma prefixFrontier_time_nonneg settings instances (k : nat) :
  Forall (fun inst => 0 < difficulty (art inst))%Q instances ->
  (0 < speed settings)%Q -> (reduction settings <= 100)%Q ->
  forall s, s ∈ prefixFrontier settings instances k -> (0 <= st_t s)%Q.
Proof.
  intros Hd Hsp Hr. apply mergeFrom_time_nonneg.
  - apply Forall_take, Forall_fmap. eapply Forall_impl; [exact Hd|].
    intros inst Hi o Ho. cbn in Hi. by eapply computeOptions_time_nonneg.
  - intros s Hs. apply list_elem_of_singleton in Hs as ->. cbn. lra.
Qed.

(** C10 (amended): with at least one instance, positive difficulties,
    positive speed and a reduction of at most 100 percent, every state of
    every frontier of the fold has a value delta of at least 0 and a time
    of at least 0; [optimize] returns a record, whose total value is at
    least the baseline total and whose total time is at least 0. *)
Theorem optimize_nonneg (arts0 : list Art) (settings : Settings) :
  flatten arts0 <> [] ->
  Forall (fun a => 0 < difficulty a)%Q arts0 ->
  (0 < speed settings)%Q ->
  (reduction settings <= 100)%Q ->
  (forall (k : nat) (s : State),
      s ∈ prefixFrontier settings (flatten arts0) k ->
      0 <= st_z s /\ (0 <= st_t s)%Q) /\
  exists r, optimize arts0 settings = Some r /\
            baseTotal (flatten arts0) <= totalZhenyuan r /\
            (0 <= totalTimeHours r)%Q.
Proof.
  intros Hne Hd Hsp Hr.
  assert (Forall (fun inst => 0 < difficulty (art inst))%Q (flatten arts0)) as Hd'.
  { apply Forall_forall. intros inst Hin. apply elem_of_flatten in Hin.
    rewrite Forall_forall in Hd. by apply Hd. }
  assert (forall (k : nat) (s : State),
             s ∈ prefixFrontier settings (flatten arts0) k ->
             0 <= st_z s /\ (0 <= st_t s)%Q) as Hall.
  { intros k s Hs. split.
    - eapply prefixFrontier_value_nonneg; [|exact Hs].
      eapply Forall_impl; [exact Hd'|]. intros inst Hi. cbn in *. lra.
    - by eapply prefixFrontier_time_nonneg. }
  split; [exact Hall|].
  unfold optimize. rewrite decide_False by (by destruct (flatten arts0)).
  destruct (selectBest_elem settings (baseTotal (flatten arts0))
              (frontierOf settings (flatten arts0))
              (frontierOf_nonempty _ _)) as (s & -> & Hs).
  rewrite <- prefixFrontier_all in Hs. apply Hall in Hs as [Hz Ht].
  eexists. split; [done|]. cbn. split; [lia|done].
Qed.

Lemma scanTime_first (target : Q) (frontier : list State) (k : nat) (s : State) :
  frontier !! k = Some s ->
  (st_t s <= target)%Q ->
  (forall j s', (j < k)%nat -> frontier !! j = Some s' -> ~ (st_t s' <= target)%Q) ->
  scanTime target frontier = Some s.
Proof.
  revert k. induction frontier as [|c fr IH]; intros k Hk Hs Hfirst; [done|].
  cbn [scanTime]. destruct k as [|k].
  - cbn in Hk. injection Hk as ->.
    apply Qle_bool_iff in Hs. by rewrite Hs.
  - destruct (Qle_bool (st_t c) target) eqn:E.
    + exfalso. apply (Hfirst 0%nat c); [lia|done|by apply Qle_bool_iff].
    + apply (IH k); [done..|].
      intros j s' Hj Hs'. apply (Hfirst (S j) s'); [lia|done].
Qed.

Lemma scanTime_none (target : Q) (frontier : list State) :
  (forall s, s ∈ frontier -> ~ (st_t s <= target)%Q) ->
  scanTime target frontier = None.
Proof.
  induction frontier as [|c fr IH]; intros Hall; [done|].
  cbn [scanTime]. destruct (Qle_bool (st_t c) target) eqn:E.
  - exfalso. apply (Hall c); [left|by apply Qle_bool_iff].
  - apply IH. intros s Hs. apply Hall. by right.
Qed.

Lemma frontierOf_sorted (settings : Settings) (instances : list Instance) :
  zDesc (frontierOf settings instances) /\ tDesc (frontierOf settings instances).
Proof. apply mergeFrom_sorted; repeat constructor. Qed.

(** C7: in time-budget mode the selector returns the first state of the
    final frontier, scanned from its high-value end, whose time is within
    the budget, and no state within the budget has a higher value; when no
    state is within the budget it returns the last state of the frontier,
    whose time is the lowest. *)
Theorem selectBest_time_budget (settings : Settings) (instances : list Instance)
    (baseTotalZ : Z) :
  targetType settings = time ->
  let fr := frontierOf settings instances in
  let budget := targetValue settings in
  (forall (k : nat) (s : State),
      fr !! k = Some s ->
      (st_t s <= budget)%Q ->
      (forall j s', (j < k)%nat -> fr !! j = Some s' -> ~ (st_t s' <= budget)%Q) ->
      selectBest settings baseTotalZ fr = Some s /\
      (forall s', s' ∈ fr -> (st_t s' <= budget)%Q -> st_z s' <= st_z s)) /\
  ((forall s, s ∈ fr -> ~ (st_t s <= budget)%Q) ->
   exists s, selectBest settings baseTotalZ fr = Some s /\
             last fr = Some s /\
             (forall s', s' ∈ fr -> (st_t s <= st_t s')%Q)).
Proof.
  intros Hmode fr budget.
  destruct (frontierOf_sorted settings instances) as [Hz Ht]. fold fr in Hz, Ht.
  split.
  - intros k s Hk Hs Hfirst. split.
    + unfold selectBest. rewrite Hmode. fold budget.
      by rewrite (scanTime_first budget fr k s).
    + intros s' Hs' Hfeas. apply list_elem_of_lookup in Hs' as [j Hj].
      destruct (Nat.lt_trichotomy j k) as [Hlt|[->|Hgt]].
      * exfalso. by apply (Hfirst j s').
      * rewrite Hk in Hj. injection Hj as ->. lia.
      * pose proof (StronglySorted_lookup _ fr k j s s' Hz Hgt Hk Hj) as Hlt.
        cbn in Hlt. lia.
  - intros Hnone.
    destruct (proj2 (last_is_Some fr)) as [s Hs]; [apply frontierOf_nonempty|].
    exists s. split_and!; [|done|].
    + unfold selectBest. rewrite Hmode. fold budget.
      by rewrite scanTime_none.
    + intros s' Hs'. apply list_elem_of_lookup in Hs' as [j Hj].
      rewrite last_lookup in Hs.
      assert (j < length fr)%nat as Hlen by (by eapply lookup_lt_Some).
      destruct (decide (j = pred (length fr))) as [->|Hne].
      * rewrite Hs in Hj. injection Hj as ->. lra.
      * pose proof (StronglySorted_lookup _ fr j (pred (length fr)) s' s Ht
                      ltac:(lia) Hj Hs) as Hlt.
        cbn in Hlt. lra.
Qed.

(** ** When the baseline state survives *)

Lemma insertByZ_low (c0 : State) (l : list State) :
  (forall y, y ∈ l -> st_z c0 < st_z y) -> insertByZ c0 l = l ++ [c0].
Proof.
  induction l as [|y l IH]; intros Hl; [done|]. cbn [insertByZ].
  destruct (Z.ltb_spec 0 (st_z y - st_z c0)) as [_|Hge].
  - cbn. f_equal. apply IH. intros y' Hy'. apply Hl. by right.
  - specialize (Hl y ltac:(left)). lia.
Qed.

Lemma insertByZ_high (x c0 : State) (l : list State) :
  st_z c0 < st_z x -> insertByZ x (l ++ [c0]) = insertByZ x l ++ [c0].
Proof.
  intros Hx. induction l as [|y l IH]; cbn [insertByZ app].
  - destruct (Z.ltb_spec 0 (st_z c0 - st_z x)); [lia|done].
  - destruct (Z.ltb_spec 0 (st_z y - st_z x)); [|done].
    cbn. by rewrite IH.
Qed.

Lemma sortByZDesc_cons (x : State) (l : list State) :
  sortByZDesc (x :: l) = insertByZ x (sortByZDesc l).
Proof. reflexivity. Qed.

Lemma sortByZDesc_baseline (A B : list State) (c0 : State) :
  (forall x, x ∈ A ++ B -> st_z c0 < st_z x) ->
  sortByZDesc (A ++ c0 :: B) = sortByZDesc (A ++ B) ++ [c0].
Proof.
  induction A as [|a A IH]; intros Hall.
  - cbn [app]. rewrite sortByZDesc_cons. apply insertByZ_low.
    intros y Hy. apply Hall. by rewrite elem_of_sortByZDesc in Hy.
  - cbn [app]. rewrite !sortByZDesc_cons, IH.
    + apply insertByZ_high, Hall. left.
    + intros x Hx. apply Hall. by right.
Qed.

Lemma prune_baseline (S0 : list State) (ch : list Z) :
  (forall s, s ∈ S0 -> 100 <= st_z s /\ (0 < st_t s)%Q) ->
  hasBaseline (prune (S0 ++ [mkState 0 0%Q ch])) ch.
Proof.
  intros Hall. rewrite prune_app. cbn [foldl].
  pose proof (pruneInv_prune S0) as Hinv.
  set (acc := foldl pruneStep pruneInit S0) in *.
  assert (forall k, k ∈ pruned acc -> 100 <= st_z k /\ (0 < st_t k)%Q) as Hkept.
  { intros k Hk. apply Hall. eapply sublist_subseteq; [apply (inv_sub _ _ Hinv)|done]. }
  exists (pruned acc). split; [|done].
  destruct (pruneStep_cases acc (mkState 0 0%Q ch)) as [(_ & _ & ->)|[[Hn|Hn] _]].
  - done.
  - exfalso. assert (belowMinTime (st_t (mkState 0 0%Q ch)) (minTimeSeen acc) = true);
      [|congruence].
    apply (belowMinTime_all S0 acc _ Hinv). intros k Hk. apply (Hkept k Hk).
  - exfalso. apply (inv_buckets _ _ Hinv) in Hn.
    apply list_elem_of_fmap in Hn as (k & Hb & Hk).
    destruct (Hkept k Hk) as [Hz _].
    assert (bucketOf k = 0) as Hk0 by (by rewrite <- Hb).
    unfold bucketOf, BUCKET_SIZE in Hk0.
    assert (1 <= st_z k / 100) by (apply Z.div_le_lower_bound; lia). lia.
Qed.

Lemma mergeStep_baseline (i : nat) (options : list Opt) (frontier : list State)
    (ch : list Z) :
  optionsGap options -> hasBaseline frontier ch ->
  hasBaseline (mergeStep i options frontier) (<[i := 99]> ch).
Proof.
  intros (o0 & rest & -> & Hlvl & Ht0 & Hrest) (fr' & -> & Hfr').
  set (options := o0 :: rest).
  set (b := mkState 0 0%Q ch). set (c0 := mkState 0 0%Q (<[i := 99]> ch)).
  assert (forall o, o ∈ options -> 0 <= opt_z o - baseZ options /\ (0 <= opt_t o)%Q)
    as Hopt.
  { intros o Ho. cbn. apply elem_of_cons in Ho as [->|Ho].
    - rewrite Ht0. split; [lia|lra].
    - destruct (Hrest o Ho). split; [lia|lra]. }
  assert (candidate i options b o0 = c0) as Hc0.
  { unfold candidate, c0. cbn. rewrite Ht0, Hlvl. f_equal. lia. }
  assert (exists A B, expand i options (fr' ++ [b]) = A ++ c0 :: B /\
                      forall x, x ∈ A ++ B -> 100 <= st_z x /\ (0 < st_t x)%Q)
    as (A & B & Hexp & HAB).
  { exists (expand i options fr'),
           (rest ≫= fun opt => [candidate i options b opt]).
    split.
    - unfold expand. rewrite bind_app, bind_singleton. f_equal.
      change (candidate i options b o0 :: (rest ≫= fun opt => [candidate i options b opt])
              = c0 :: (rest ≫= fun opt => [candidate i options b opt])).
      by rewrite Hc0.
    - intros x Hx. apply elem_of_app in Hx as [Hx|Hx].
      + apply elem_of_expand in Hx as (s & o & Hs & Ho & ->).
        destruct (Hfr' s Hs). destruct (Hopt o Ho).
        unfold candidate. cbn [st_z st_t]. split; [lia|lra].
      + apply list_elem_of_bind in Hx as (o & Hx & Ho).
        apply list_elem_of_singleton in Hx as ->.
        destruct (Hrest o Ho). unfold candidate, b. cbn. split; [lia|lra]. }
  unfold mergeStep. rewrite Hexp, sortByZDesc_baseline.
  - apply prune_baseline. intros s Hs. apply HAB. by rewrite elem_of_sortByZDesc in Hs.
  - intros x Hx. destruct (HAB x Hx). cbn. lia.
Qed.

Lemma computeOptions_gap (settings : Settings) (inst : Instance) :
  let d := difficulty (art inst) in
  let m := isMain (art inst) in
  (0 < d)%Q -> (0 < speed settings)%Q -> (reduction settings <= 100)%Q ->
  100 <= getZhenyuan 109 d m - getZhenyuan 99 d m ->
  optionsGap (computeOptions settings inst).
Proof.
  intros d m Hd Hsp Hr Hgap. rewrite computeOptions_closed.
  exists (optionAt settings inst 0), (optionAt settings inst <$> seq 1 40).
  split_and!; [done..|].
  intros o Ho. apply list_elem_of_fmap in Ho as (k & -> & Hk).
  apply elem_of_seq in Hk. cbn [optionAt opt_z opt_t]. fold d m. split.
  - pose proof (getZhenyuan_mono 109 (99 + 10 * Z.of_nat k) d m ltac:(lra) ltac:(lia)).
    change (99 + 10 * Z.of_nat 0) with 99. lia.
  - apply cumCost_pos; [done..|lia].
Qed.

Lemma scanZhenyuan_all (base : Z) (target : Q) (frontier : list State)
    (best : option State) :
  (forall s, s ∈ frontier -> (target <= inject_Z (st_z s + base))%Q) ->
  scanZhenyuan base target frontier best
  = match last frontier with Some s => Some s | None => best end.
Proof.
  revert best. induction frontier as [|c fr IH]; intros best Hall; [done|].
  cbn [scanZhenyuan].
  rewrite (proj2 (Qle_bool_iff _ _) (Hall c ltac:(left))).
  rewrite IH by (intros s Hs; apply Hall; by right).
  destruct fr as [|c' fr']; [done|].
  change (last (c :: c' :: fr')) with (last (c' :: fr')).
  destruct (last (c' :: fr')) eqn:E; [done|]. by apply last_None in E.
Qed.

(** C4 (amended): two replicas of one art in resource-floor mode with the
    target at twice the level-99 value.  When level 109 is worth at least
    100 more than level 99, [optimize] returns total time 0, the total
    value of the target and level 99 for both instances. *)
Theorem optimize_baseline_target (aid : string) (d : Q) (m : bool)
    (sp r tv : Q) :
  (0 < d)%Q -> (0 < sp)%Q -> (0 <= r)%Q -> (r <= 100)%Q ->
  100 <= getZhenyuan 109 d m - getZhenyuan 99 d m ->
  (tv == inject_Z (2 * getZhenyuan 99 d m))%Q ->
  optimize [mkArt aid d m 2] (mkSettings sp r zhenyuan tv)
  = Some (mkResult (2 * getZhenyuan 99 d m) 0%Q
                   (<[aid +:+ "_1" := 99]> (<[aid +:+ "_0" := 99]> ∅)) []).
Proof.
  intros Hd Hsp Hr0 Hr Hgap Htv.
  set (a := mkArt aid d m 2). set (settings := mkSettings sp r zhenyuan tv).
  set (i0 := mkInstance a (aid +:+ "_0") 0). set (i1 := mkInstance a (aid +:+ "_1") 0).
  assert (flatten [a] = [i0; i1]) as Hflat by reflexivity.
  unfold optimize. rewrite Hflat. cbn [length]. rewrite decide_False by done.
  assert (hasBaseline (frontierOf settings [i0; i1]) [99; 99]) as (fr' & Hfr & Hfr').
  { unfold frontierOf. cbn [fmap list_fmap mergeFrom length].
    apply (mergeStep_baseline 1 _ _ [99; 99]); [by apply computeOptions_gap|].
    apply (mergeStep_baseline 0 _ _ [99; 99]); [by apply computeOptions_gap|].
    exists []. split; [done|]. intros s Hs. by apply elem_of_nil in Hs. }
  assert (baseTotal [i0; i1] = 2 * getZhenyuan 99 d m) as Hbase.
  { unfold baseTotal. cbn. lia. }
  unfold selectBest. cbn [targetType settings targetValue].
  rewrite scanZhenyuan_all.
  - rewrite Hfr, last_snoc. cbn [st_z st_t]. rewrite Hbase.
    f_equal.
  - intros s Hs. rewrite Htv, Hbase, <- Zle_Qle. rewrite Hfr in Hs.
    apply elem_of_app in Hs as [Hs|Hs].
    + destruct (Hfr' s Hs). lia.
    + apply list_elem_of_singleton in Hs as ->. cbn. lia.
Qed.

(** ** When the baseline state is displaced *)

Lemma first_such {A : Type} (P : A -> Prop) `{!forall x, Decision (P x)}
    (l : list A) :
  (exists x, x ∈ l /\ P x) ->
  exists l1 x l2, l = l1 ++ x :: l2 /\ P x /\ forall y, y ∈ l1 -> ~ P y.
Proof.
  induction l as [|a l IH]; intros (x & Hx & HP).
  - by apply elem_of_nil in Hx.
  - destruct (decide (P a)) as [Ha|Ha].
    + exists [], a, l. split_and!; [done..|]. intros y Hy. by apply elem_of_nil in Hy.
    + apply elem_of_cons in Hx as [->|Hx]; [done|].
      destruct IH as (l1 & x' & l2 & -> & HP' & Hl1); [by exists x|].
      exists (a :: l1), x', l2. split_and!; [done..|].
      intros y Hy. apply elem_of_cons in Hy as [->|Hy]; [done|by apply Hl1].
Qed.

(** The first merge step has one candidate per option. *)
Lemma expand_initial (i n : nat) (options : list Opt) :
  expand i options (initialFrontier n)
  = candidate i options (mkState 0 0%Q (replicate n 99)) <$> options.
Proof.
  unfold expand, initialFrontier. rewrite bind_singleton.
  unfold candidate. generalize (baseZ options). intros b.
  induction options as [|o os IH]; [done|].
  rewrite bind_cons, fmap_cons, IH. done.
Qed.

(** A higher value of an option means a higher level and so a higher
    cost. *)
Lemma option_gain_time (d sp r : Q) (m : bool) (i j : nat) :
  (0 < d)%Q -> (0 < sp)%Q -> (r <= 100)%Q ->
  getZhenyuan (99 + 10 * Z.of_nat i) d m < getZhenyuan (99 + 10 * Z.of_nat j) d m ->
  (cumCost d sp r i < cumCost d sp r j)%Q.
Proof.
  intros Hd Hsp Hr Hlt. apply cumCost_lt; [done..|].
  destruct (decide (i < j)%nat) as [Hij|Hij]; [done|]. exfalso.
  pose proof (getZhenyuan_mono (99 + 10 * Z.of_nat j) (99 + 10 * Z.of_nat i) d m
                ltac:(lra) ltac:(lia)). lia.
Qed.

(** When level 109 gains less than a bucket width, but something, the
    first merge step fills bucket 0 with a state above the baseline, and
    the baseline state is dropped. *)
Lemma mergeStep_initial_displaced (settings : Settings) (inst : Instance)
    (n : nat) :
  let d := difficulty (art inst) in
  let m := isMain (art inst) in
  let g1 := getZhenyuan 109 d m - getZhenyuan 99 d m in
  (0 < d)%Q -> (0 < speed settings)%Q -> (reduction settings <= 100)%Q ->
  0 < g1 < 100 ->
  forall s, s ∈ mergeStep 0 (computeOptions settings inst) (initialFrontier n) ->
            g1 <= st_z s /\ (0 < st_t s)%Q.
Proof.
  intros d m g1 Hd Hsp Hr Hg1.
  set (sp := speed settings) in *. set (r := reduction settings) in *.
  set (init := mkState 0 0%Q (replicate n 99)).
  set (options := computeOptions settings inst).
  set (cand := candidate 0 options init).
  assert (forall k : nat,
             st_z (cand (optionAt settings inst k))
             = getZhenyuan (99 + 10 * Z.of_nat k) d m - getZhenyuan 99 d m /\
             (st_t (cand (optionAt settings inst k)) == cumCost d sp r k)%Q) as Hcand.
  { intros k. unfold cand, candidate, options. rewrite baseZ_computeOptions.
    unfold optionAt. cbn [st_z st_t opt_z opt_t init]. fold d m sp r.
    split; [lia|lra]. }
  set (R := cand <$> (optionAt settings inst <$> seq 1 40)).
  assert (forall y, y ∈ R ->
            exists k : nat, (1 <= k <= 40)%nat /\ y = cand (optionAt settings inst k))
    as HR.
  { intros y Hy. apply list_elem_of_fmap in Hy as (o & -> & Ho).
    apply list_elem_of_fmap in Ho as (k & -> & Hk). apply elem_of_seq in Hk.
    exists k. split; [lia|done]. }
  assert (forall y, y ∈ R -> g1 <= st_z y /\ (0 < st_t y)%Q) as HRlow.
  { intros y Hy. apply HR in Hy as (k & Hk & ->).
    destruct (Hcand k) as [-> ->]. split.
    - pose proof (getZhenyuan_mono 109 (99 + 10 * Z.of_nat k) d m ltac:(lra)
                    ltac:(lia)). unfold g1. lia.
    - apply cumCost_pos; [done..|lia]. }
  assert (expand 0 options (initialFrontier n)
          = [] ++ cand (optionAt settings inst 0) :: R) as Hexp.
  { rewrite expand_initial. unfold options at 2. rewrite computeOptions_closed.
    reflexivity. }
  set (c0 := cand (optionAt settings inst 0)) in *.
  assert (st_z c0 = 0) as Hc0z.
  { unfold c0. destruct (Hcand 0%nat) as [-> _].
    change (99 + 10 * Z.of_nat 0) with 99. lia. }
  unfold mergeStep. fold options. rewrite Hexp, sortByZDesc_baseline.
  2:{ intros x Hx. cbn [app] in Hx. destruct (HRlow x Hx). lia. }
  cbn [app]. set (S0 := sortByZDesc R).
  assert (forall y, y ∈ S0 -> y ∈ R) as HS0.
  { intros y Hy. exact (proj1 (elem_of_sortByZDesc y R) Hy). }
  rewrite prune_app. cbn [foldl].
  pose proof (pruneInv_prune S0) as Hinv.
  set (acc := foldl pruneStep pruneInit S0) in *.
  (* some state kept from [S0] lies in bucket 0 *)
  assert (bucketOf c0 ∈ seenBuckets acc) as Hseen.
  { destruct (first_such (fun y => bucketOf y = 0) S0) as (S1 & x & S2 & HS & Hx & HS1).
    { exists (cand (optionAt settings inst 1)). split.
      - apply (proj2 (elem_of_sortByZDesc _ R)). unfold R. rewrite <- list_fmap_compose.
        apply list_elem_of_fmap. exists 1%nat. split; [done|].
        apply elem_of_seq. lia.
      - unfold bucketOf, BUCKET_SIZE. destruct (Hcand 1%nat) as [-> _].
        change (99 + 10 * Z.of_nat 1) with 109. fold g1.
        apply Z.div_small. lia. }
    pose proof (pruneInv_prune S1) as Hinv1.
    set (acc1 := foldl pruneStep pruneInit S1) in *.
    assert (forall k, k ∈ pruned acc1 -> k ∈ S1) as Hkept1.
    { intros k Hk. eapply sublist_subseteq; [apply (inv_sub _ _ Hinv1)|done]. }
    assert (x ∈ pruned acc) as Hxin.
    { unfold acc. rewrite HS, foldl_app. cbn [foldl]. fold acc1.
      destruct (pruned_foldl_prefix S2 (pruneStep acc1 x)) as (more & -> & _).
      apply elem_of_app. left.
      destruct (pruneStep_cases acc1 x) as [(_ & _ & ->)|[[Hn|Hn] _]].
      - cbn. apply elem_of_app. right. left.
      - exfalso.
        assert (belowMinTime (st_t x) (minTimeSeen acc1) = true); [|congruence].
        apply (belowMinTime_all S1 acc1 x Hinv1). intros k Hk.
        apply Hkept1 in Hk.
        assert (k ∈ S0) as HkS by (rewrite HS; apply elem_of_app; by left).
        assert (x ∈ S0) as HxS
          by (rewrite HS; apply elem_of_app; right; left).
        pose proof (HS1 k Hk) as Hkb.
        apply HS0, HR in HkS as (j & Hj & ->).
        apply HS0, HR in HxS as (i & Hi & ->).
        destruct (Hcand j) as [Hjz Hjt]. destruct (Hcand i) as [Hiz Hit].
        rewrite Hjt, Hit. apply (option_gain_time d sp r m); [done..|].
        unfold bucketOf, BUCKET_SIZE in Hx, Hkb. rewrite Hiz in Hx. rewrite Hjz in Hkb.
        pose proof (getZhenyuan_mono 99 (99 + 10 * Z.of_nat i) d m ltac:(lra)
                      ltac:(lia)).
        pose proof (getZhenyuan_mono 99 (99 + 10 * Z.of_nat j) d m ltac:(lra)
                      ltac:(lia)).
        assert (getZhenyuan (99 + 10 * Z.of_nat i) d m - getZhenyuan 99 d m < 100).
        { apply Z.div_small_iff in Hx; lia. }
        assert (100 <= getZhenyuan (99 + 10 * Z.of_nat j) d m - getZhenyuan 99 d m).
        { destruct (Z.lt_ge_cases
                      (getZhenyuan (99 + 10 * Z.of_nat j) d m - getZhenyuan 99 d m)
                      100) as [Hlt|Hge]; [|done].
          exfalso. apply Hkb. apply Z.div_small. lia. }
        lia.
      - exfalso. apply (inv_buckets _ _ Hinv1) in Hn.
        apply list_elem_of_fmap in Hn as (k & Hkb & Hk).
        apply (HS1 k); [by apply Hkept1|congruence]. }
    apply (inv_buckets _ _ Hinv). apply list_elem_of_fmap. exists x.
    split; [|done]. unfold bucketOf. rewrite Hc0z. unfold bucketOf in Hx.
    by rewrite Hx. }
  destruct (pruneStep_cases acc c0) as [(_ & Hfresh & _)|[_ ->]]; [done|].
  intros s Hs. apply HRlow, HS0.
  eapply sublist_subseteq; [apply (inv_sub _ _ Hinv)|done].
Qed.

(** A lower bound on value and a positive time carry over through a merge
    step whose options gain at least 0 and cost at least 0. *)
Lemma mergeStep_above (i : nat) (options : list Opt) (frontier : list State)
    (g : Z) :
  (forall o, o ∈ options -> 0 <= opt_z o - baseZ options /\ (0 <= opt_t o)%Q) ->
  (forall s, s ∈ frontier -> g <= st_z s /\ (0 < st_t s)%Q) ->
  forall s, s ∈ mergeStep i options frontier -> g <= st_z s /\ (0 < st_t s)%Q.
Proof.
  intros Ho Hf s Hs. apply elem_of_mergeStep in Hs as (s0 & o0 & Hs0 & Ho0 & ->).
  destruct (Hf s0 Hs0). destruct (Ho o0 Ho0). cbn. split; [lia|lra].
Qed.

(** With two replicas whose level 109 gains something but less than a
    bucket width, [optimize] never returns the baseline: whatever the
    objective, the result lies above twice the level-99 value and takes a
    positive time. *)
Lemma optimize_baseline_displaced (aid : string) (d : Q) (m : bool)
    (settings : Settings) :
  (0 < d)%Q -> (0 < speed settings)%Q -> (reduction settings <= 100)%Q ->
  0 < getZhenyuan 109 d m - getZhenyuan 99 d m < 100 ->
  exists res,
    optimize [mkArt aid d m 2] settings = Some res /\
    2 * getZhenyuan 99 d m < totalZhenyuan res /\
    (0 < totalTimeHours res)%Q.
Proof.
  intros Hd Hsp Hr Hgap.
  set (a := mkArt aid d m 2).
  set (i0 := mkInstance a (aid +:+ "_0") 0). set (i1 := mkInstance a (aid +:+ "_1") 0).
  assert (flatten [a] = [i0; i1]) as Hflat by reflexivity.
  unfold optimize. rewrite Hflat. cbn [length]. rewrite decide_False by done.
  assert (baseTotal [i0; i1] = 2 * getZhenyuan 99 d m) as Hbase.
  { unfold baseTotal. cbn. lia. }
  destruct (selectBest_elem settings (baseTotal [i0; i1]) (frontierOf settings [i0; i1])
              (frontierOf_nonempty _ _)) as (s & -> & Hs).
  eexists. split; [done|]. cbn [totalZhenyuan totalTimeHours]. rewrite Hbase.
  assert (getZhenyuan 109 d m - getZhenyuan 99 d m <= st_z s /\ (0 < st_t s)%Q)
    as [Hz Ht]; [|split; [lia|done]].
  revert s Hs. unfold frontierOf. cbn [fmap list_fmap mergeFrom length].
  apply mergeStep_above.
  - intros o Ho. split.
    + apply (computeOptions_gain settings i1 o); [cbn; lra|done].
    + by apply (computeOptions_time_nonneg settings i1 o).
  - by apply (mergeStep_initial_displaced settings i0 2).
Qed.

(** ** The level modifier and the cost of one level *)

Lemma inject_Z_le (a b : Z) : a <= b -> (inject_Z a <= inject_Z b)%Q.
Proof. intros H. by rewrite <- Zle_Qle. Qed.

Lemma getDifficultyModifier_low (l : Z) :
  l < 309 -> getDifficultyModifier l = 1%Q.
Proof.
  intros H. unfold getDifficultyModifier. destruct (l <? 309) eqn:E; [done|lia].
Qed.

Lemma getDifficultyModifier_mid (l : Z) :
  309 <= l < 400 ->
  (getDifficultyModifier l == (9 * inject_Z l - 1811) * (1 # 890))%Q.
Proof.
  intros H. unfold getDifficultyModifier.
  destruct (l <? 309) eqn:E1; [lia|].
  destruct (309 <=? l) eqn:E2; [|lia]. destruct (l <? 400) eqn:E3; [|lia].
  reflexivity.
Qed.

Lemma getDifficultyModifier_high (l : Z) :
  400 <= l -> getDifficultyModifier l = 2%Q.
Proof.
  intros H. unfold getDifficultyModifier.
  destruct (l <? 309) eqn:E1; [lia|]. destruct (l <? 400) eqn:E3; [lia|].
  by rewrite andb_false_r.
Qed.

Lemma getDifficultyModifier_range (l : Z) :
  (1 <= getDifficultyModifier l <= 2)%Q.
Proof.
  destruct (Z.lt_ge_cases l 309) as [A|A];
    [|destruct (Z.lt_ge_cases l 400) as [B|B]].
  - rewrite getDifficultyModifier_low by done. lra.
  - rewrite getDifficultyModifier_mid by lia.
    pose proof (inject_Z_le 309 l A) as Q1.
    pose proof (inject_Z_le l 399 ltac:(lia)) as Q2.
    change (inject_Z 309) with 309%Q in Q1. change (inject_Z 399) with 399%Q in Q2.
    lra.
  - rewrite getDifficultyModifier_high by done. lra.
Qed.

Lemma getDifficultyModifier_le (l1 l2 : Z) :
  l1 <= l2 -> (getDifficultyModifier l1 <= getDifficultyModifier l2)%Q.
Proof.
  intros Hle.
  destruct (Z.lt_ge_cases l1 309) as [A1|A1].
  { rewrite (getDifficultyModifier_low l1) by done.
    apply getDifficultyModifier_range. }
  destruct (Z.lt_ge_cases l2 400) as [B2|B2].
  - rewrite (getDifficultyModifier_mid l1), (getDifficultyModifier_mid l2) by lia.
    pose proof (inject_Z_le l1 l2 Hle). lra.
  - rewrite (getDifficultyModifier_high l2) by done.
    apply getDifficultyModifier_range.
Qed.

(** X1: the modifier at an integer level lies between 1 and 2 and never
    decreases with the level; it is 1 exactly below level 309 and 2 exactly
    from level 399 on, where the ramp meets the plateau. *)
Theorem getDifficultyModifier_ramp (l1 l2 : Z) :
  l1 <= l2 ->
  (1 <= getDifficultyModifier l1)%Q /\
  (getDifficultyModifier l1 <= getDifficultyModifier l2)%Q /\
  (getDifficultyModifier l2 <= 2)%Q /\
  ((getDifficultyModifier l1 == 1)%Q <-> l1 < 309) /\
  ((getDifficultyModifier l1 == 2)%Q <-> 399 <= l1).
Proof.
  intros Hle. split_and!.
  - apply getDifficultyModifier_range.
  - by apply getDifficultyModifier_le.
  - apply getDifficultyModifier_range.
  - split.
    + intros H. destruct (Z.lt_ge_cases l1 309) as [A|A]; [done|]. exfalso.
      destruct (Z.lt_ge_cases l1 400) as [B|B].
      * rewrite getDifficultyModifier_mid in H by lia.
        pose proof (inject_Z_le 309 l1 A) as Q1.
        change (inject_Z 309) with 309%Q in Q1. lra.
      * rewrite getDifficultyModifier_high in H by done. lra.
    + intros H. by rewrite getDifficultyModifier_low.
  - split.
    + intros H. destruct (Z.lt_ge_cases l1 399) as [A|A]; [|done]. exfalso.
      destruct (Z.lt_ge_cases l1 309) as [B|B].
      * rewrite getDifficultyModifier_low in H by done. lra.
      * rewrite getDifficultyModifier_mid in H by lia.
        pose proof (inject_Z_le l1 398 ltac:(lia)) as Q1.
        change (inject_Z 398) with 398%Q in Q1. lra.
    + intros H. destruct (Z.lt_ge_cases l1 400) as [B|B].
      * assert (l1 = 399) as -> by lia. reflexivity.
      * by rewrite getDifficultyModifier_high.
Qed.

Lemma getDifficultyModifier_ramp_witness :
  (1 <= getDifficultyModifier 309)%Q /\
  (getDifficultyModifier 309 <= getDifficultyModifier 399)%Q /\
  (getDifficultyModifier 399 <= 2)%Q /\
  ((getDifficultyModifier 309 == 1)%Q <-> 309 < 309) /\
  ((getDifficultyModifier 309 == 2)%Q <-> 399 <= 309).
Proof. apply (getDifficultyModifier_ramp 309 399). lia. Defined.

Lemma getLevelUpCostValue_eq (l : Z) (d : Q) :
  (getLevelUpCostValue l d
   == d * (inject_Z (l ^ 3 + 1000) * (1 # 100) * getDifficultyModifier l))%Q.
Proof.
  unfold getLevelUpCostValue. rewrite Qcube_inject, inject_Z_plus.
  change (inject_Z 1000) with 1000%Q. field.
Qed.

Lemma getLevelUpCostValue_lt (l1 l2 : Z) (d : Q) :
  (0 < d)%Q -> 0 <= l1 < l2 ->
  (getLevelUpCostValue l1 d < getLevelUpCostValue l2 d)%Q.
Proof.
  intros Hd Hl. rewrite !getLevelUpCostValue_eq.
  pose proof (getDifficultyModifier_le l1 l2 ltac:(lia)) as Hm.
  pose proof (getDifficultyModifier_pos l1) as Hp.
  assert (l1 ^ 3 + 1000 < l2 ^ 3 + 1000) as Hc.
  { pose proof (Z.pow_lt_mono_l l1 l2 3). lia. }
  assert (0 < l1 ^ 3 + 1000) as Hc0.
  { pose proof (Z.pow_nonneg l1 3). lia. }
  rewrite Zlt_Qlt in Hc, Hc0. change (inject_Z 0) with 0%Q in Hc0.
  set (a1 := inject_Z (l1 ^ 3 + 1000)) in *.
  set (a2 := inject_Z (l2 ^ 3 + 1000)) in *.
  set (m1 := getDifficultyModifier l1) in *.
  set (m2 := getDifficultyModifier l2) in *.
  assert (a1 * m1 < a2 * m2)%Q as Hprod.
  { apply Qle_lt_trans with (a1 * m2)%Q.
    - apply Qmult_le_l; [exact Hc0|exact Hm].
    - apply Qmult_lt_r; [lra|exact Hc]. }
  setoid_replace (d * (a1 * (1 # 100) * m1))%Q with ((d * (1 # 100)) * (a1 * m1))%Q
    using relation Qeq by ring.
  setoid_replace (d * (a2 * (1 # 100) * m2))%Q with ((d * (1 # 100)) * (a2 * m2))%Q
    using relation Qeq by ring.
  apply Qmult_lt_l; [lra|exact Hprod].
Qed.

(** The level-up cost at difficulty 1 carries the whole dependence on the
    level. *)
Lemma getLevelUpCostValue_unit (l : Z) (d : Q) :
  (getLevelUpCostValue l d == d * getLevelUpCostValue l 1)%Q.
Proof. rewrite !getLevelUpCostValue_eq. ring. Qed.

(** X2: the cost of one level-up is proportional to the difficulty, and at
    a positive difficulty it strictly increases with the level from level
    0 on. *)
Theorem getLevelUpCostValue_level (l1 l2 : Z) (d c : Q) :
  (0 < d)%Q -> 0 <= l1 < l2 ->
  (getLevelUpCostValue l1 d < getLevelUpCostValue l2 d)%Q /\
  (getLevelUpCostValue l1 (c * d) == c * getLevelUpCostValue l1 d)%Q.
Proof.
  intros Hd Hl. split; [by apply getLevelUpCostValue_lt|].
  rewrite !getLevelUpCostValue_eq. ring.
Qed.

Lemma getLevelUpCostValue_level_witness :
  (getLevelUpCostValue 99 2 < getLevelUpCostValue 100 2)%Q /\
  (getLevelUpCostValue 99 (3 * 2) == 3 * getLevelUpCostValue 99 2)%Q.
Proof. apply (getLevelUpCostValue_level 99 100 2 3); [reflexivity|lia]. Defined.

(** ** The value of a secondary art *)

Lemma Qfloor_half (x : Q) :
  2 * Qfloor (x * 0.5) <= Qfloor (x * 1) <= 2 * Qfloor (x * 0.5) + 1.
Proof.
  pose proof (Qfloor_le (x * 0.5)) as H1. pose proof (Qlt_floor (x * 0.5)) as H2.
  pose proof (Qfloor_le (x * 1)) as H3. pose proof (Qlt_floor (x * 1)) as H4.
  set (h := Qfloor (x * 0.5)) in *. set (f := Qfloor (x * 1)) in *.
  rewrite inject_Z_plus in H2, H4. change (inject_Z 1) with 1%Q in H2, H4.
  assert (inject_Z (2 * h) < inject_Z (f + 1))%Q as A.
  { rewrite inject_Z_mult, inject_Z_plus. change (inject_Z 2) with 2%Q.
    change (inject_Z 1) with 1%Q. lra. }
  assert (inject_Z f < inject_Z (2 * h + 2))%Q as B.
  { rewrite inject_Z_plus, inject_Z_mult. change (inject_Z 2) with 2%Q. lra. }
  rewrite <- Zlt_Qlt in A, B. lia.
Qed.

(** X3: a secondary art is worth half of the same art as the main one,
    rounded down: twice its value is the main value or one less.  The
    value never decreases with the difficulty. *)
Theorem getZhenyuan_secondary (l : Z) (d d' : Q) (m : bool) :
  0 <= l -> (d <= d')%Q ->
  (2 * getZhenyuan l d false <= getZhenyuan l d true
   <= 2 * getZhenyuan l d false + 1) /\
  getZhenyuan l d m <= getZhenyuan l d' m.
Proof.
  intros Hl Hd. split.
  - unfold getZhenyuan. apply Qfloor_half.
  - rewrite !getZhenyuan_rate. apply Qfloor_resp_le.
    assert (0 <= inject_Z (l ^ 3))%Q as Hc.
    { change 0%Q with (inject_Z 0). rewrite <- Zle_Qle. by apply Z.pow_nonneg. }
    rewrite !(Qmult_comm (inject_Z (l ^ 3))).
    apply Qmult_le_compat_r; [|exact Hc].
    unfold zhenyuanRate, Qdiv. apply Qmult_le_compat_r; [|discriminate].
    destruct m; lra.
Qed.

Lemma getZhenyuan_secondary_witness :
  (2 * getZhenyuan 109 1 false <= getZhenyuan 109 1 true
   <= 2 * getZhenyuan 109 1 false + 1) /\
  getZhenyuan 109 1 true <= getZhenyuan 109 2 true.
Proof.
  apply (getZhenyuan_secondary 109 1 2 true); [lia|]. intros H. discriminate H.
Defined.

(** ** The cost of a span *)

Lemma getBreakthroughTime_base (l : Z) (r : Q) :
  (getBreakthroughTime l r == baseTime l * (1 - r * (1 # 100)))%Q.
Proof. unfold getBreakthroughTime, baseTime. field. Qed.

Lemma baseTime_cases (l : Z) :
  ((l < 99 \/ 289 < l < 299 \/ 389 < l < 399) /\ baseTime l = 0%Q) \/
  (99 <= l <= 289 /\ baseTime l = 2%Q) \/
  (299 <= l <= 389 /\ baseTime l = 4%Q) \/
  (399 <= l /\ baseTime l = 8%Q).
Proof.
  unfold baseTime.
  destruct (99 <=? l) eqn:E1, (l <=? 289) eqn:E2, (299 <=? l) eqn:E3,
    (l <=? 389) eqn:E4, (399 <=? l) eqn:E5; cbn [andb];
    solve [ left; split; [lia|reflexivity]
          | right; left; split; [lia|reflexivity]
          | right; right; left; split; [lia|reflexivity]
          | right; right; right; split; [lia|reflexivity]
          | exfalso; lia ].
Qed.

(** X4: a span is free of a breakthrough charge exactly when its start
    level lies outside the three bands (below 99, from 290 to 298, from 390
    to 398) or the reduction is 100 percent. *)
Theorem getBreakthroughTime_zero (l : Z) (r : Q) :
  (getBreakthroughTime l r == 0)%Q <->
  (l < 99 \/ 289 < l < 299 \/ 389 < l < 399 \/ (r == 100)%Q).
Proof.
  rewrite getBreakthroughTime_base.
  destruct (baseTime_cases l) as [[H ->]|[[H ->]|[[H ->]|[H ->]]]].
  - split; [intros _; tauto|intros _; ring].
  - split; [intros H'; right; right; right; lra|].
    intros [?|[?|[?|H']]]; [lia..|lra].
  - split; [intros H'; right; right; right; lra|].
    intros [?|[?|[?|H']]]; [lia..|lra].
  - split; [intros H'; right; right; right; lra|].
    intros [?|[?|[?|H']]]; [lia..|lra].
Qed.

Lemma spanCultValue_sum (l : Z) (d : Q) :
  spanCultValue l d
  = (0 + getLevelUpCostValue l d + getLevelUpCostValue (l + 1) d
     + getLevelUpCostValue (l + 2) d + getLevelUpCostValue (l + 3) d
     + getLevelUpCostValue (l + 4) d + getLevelUpCostValue (l + 5) d
     + getLevelUpCostValue (l + 6) d + getLevelUpCostValue (l + 7) d
     + getLevelUpCostValue (l + 8) d + getLevelUpCostValue (l + 9) d)%Q.
Proof. unfold spanCultValue. by rewrite grid_span. Qed.

Lemma spanCultValue_unit (l : Z) (d : Q) :
  (spanCultValue l d == d * spanCultValue l 1)%Q.
Proof.
  rewrite !spanCultValue_sum.
  rewrite (getLevelUpCostValue_unit l), (getLevelUpCostValue_unit (l + 1)),
    (getLevelUpCostValue_unit (l + 2)), (getLevelUpCostValue_unit (l + 3)),
    (getLevelUpCostValue_unit (l + 4)), (getLevelUpCostValue_unit (l + 5)),
    (getLevelUpCostValue_unit (l + 6)), (getLevelUpCostValue_unit (l + 7)),
    (getLevelUpCostValue_unit (l + 8)), (getLevelUpCostValue_unit (l + 9)).
  ring.
Qed.

Lemma spanCultValue_lt (l1 l2 : Z) (d : Q) :
  (0 < d)%Q -> 0 <= l1 < l2 -> (spanCultValue l1 d < spanCultValue l2 d)%Q.
Proof.
  intros Hd Hl. rewrite !spanCultValue_sum.
  pose proof (getLevelUpCostValue_lt l1 l2 d Hd ltac:(lia)).
  pose proof (getLevelUpCostValue_lt (l1 + 1) (l2 + 1) d Hd ltac:(lia)).
  pose proof (getLevelUpCostValue_lt (l1 + 2) (l2 + 2) d Hd ltac:(lia)).
  pose proof (getLevelUpCostValue_lt (l1 + 3) (l2 + 3) d Hd ltac:(lia)).
  pose proof (getLevelUpCostValue_lt (l1 + 4) (l2 + 4) d Hd ltac:(lia)).
  pose proof (getLevelUpCostValue_lt (l1 + 5) (l2 + 5) d Hd ltac:(lia)).
  pose proof (getLevelUpCostValue_lt (l1 + 6) (l2 + 6) d Hd ltac:(lia)).
  pose proof (getLevelUpCostValue_lt (l1 + 7) (l2 + 7) d Hd ltac:(lia)).
  pose proof (getLevelUpCostValue_lt (l1 + 8) (l2 + 8) d Hd ltac:(lia)).
  pose proof (getLevelUpCostValue_lt (l1 + 9) (l2 + 9) d Hd ltac:(lia)).
  lra.
Qed.

(** X5: in exact arithmetic the cost of a span depends on difficulty and
    speed only through their ratio: scaling both by the same positive
    factor leaves it unchanged. *)
Theorem getStepCost_ratio (l : Z) (d sp r c : Q) :
  (0 < sp)%Q -> (0 < c)%Q ->
  (getStepCost l (c * d) (c * sp) r == getStepCost l d sp r)%Q.
Proof.
  intros Hsp Hc. rewrite !getStepCost_unfold.
  rewrite (spanCultValue_unit l (c * d)), (spanCultValue_unit l d).
  field. split; lra.
Qed.

Lemma getStepCost_ratio_witness :
  (getStepCost 99 (3 * 2) (3 * 5) 10 == getStepCost 99 2 5 10)%Q.
Proof. apply (getStepCost_ratio 99 2 5 10 3); reflexivity. Defined.

(** X6: a lower difficulty, a higher speed and a higher reduction never
    raise the cost of a span. *)
Theorem getStepCost_monotone (l : Z) (d1 d2 sp1 sp2 r1 r2 : Q) :
  0 <= l -> (0 <= d1 <= d2)%Q -> (0 < sp2 <= sp1)%Q -> (r2 <= r1)%Q ->
  (getStepCost l d1 sp1 r1 <= getStepCost l d2 sp2 r2)%Q.
Proof.
  intros Hl Hd Hsp Hr. rewrite !getStepCost_unfold, !getBreakthroughTime_base.
  rewrite (spanCultValue_unit l d1), (spanCultValue_unit l d2).
  pose proof (spanCultValue_pos l 1 ltac:(lra) Hl) as Hu.
  set (u := spanCultValue l 1) in *.
  assert (0 <= baseTime l)%Q as Hb.
  { destruct (baseTime_cases l) as [[_ ->]|[[_ ->]|[[_ ->]|[_ ->]]]]; lra. }
  set (b := baseTime l) in *.
  assert (0 < / sp1)%Q as Hi1 by (apply Qinv_lt_0_compat; lra).
  assert (/ sp1 <= / sp2)%Q as Hi.
  { apply Qle_shift_inv_l; [lra|].
    setoid_replace (/ sp1 * sp2)%Q with (sp2 / sp1)%Q using relation Qeq
      by (field; lra).
    apply Qle_shift_div_r; lra. }
  unfold Qdiv. set (i1 := (/ sp1)%Q) in *. set (i2 := (/ sp2)%Q) in *.
  assert (d1 * u <= d2 * u)%Q as Hdu by (apply Qmult_le_compat_r; lra).
  assert (0 <= d1 * u)%Q as Hdu0 by (apply Qmult_le_0_compat; lra).
  set (x1 := (d1 * u)%Q) in *. set (x2 := (d2 * u)%Q) in *.
  assert (x1 * i1 <= x2 * i2)%Q as Hcult.
  { apply Qle_trans with (x2 * i1)%Q.
    - apply Qmult_le_compat_r; lra.
    - rewrite !(Qmult_comm x2). apply Qmult_le_compat_r; lra. }
  assert (b * (r2 * (1 # 100)) <= b * (r1 * (1 # 100)))%Q as Hbr.
  { rewrite !(Qmult_comm b). apply Qmult_le_compat_r; lra. }
  lra.
Qed.

Lemma getStepCost_monotone_witness :
  (getStepCost 99 1 2 50 <= getStepCost 99 2 1 0)%Q.
Proof.
  apply (getStepCost_monotone 99 1 2 2 1 50 0); [lia|split|split|];
    first [reflexivity | intros H; discriminate H].
Defined.

(** X7: along the levels that end in 9, from 99 on, each span costs
    strictly more than every span below it. *)
Theorem getStepCost_level (l1 l2 : Z) (d sp r : Q) :
  (0 < d)%Q -> (0 < sp)%Q -> (r <= 100)%Q ->
  99 <= l1 < l2 -> l1 mod 10 = 9 -> l2 mod 10 = 9 ->
  (getStepCost l1 d sp r < getStepCost l2 d sp r)%Q.
Proof.
  intros Hd Hsp Hr Hl H1 H2. rewrite !getStepCost_unfold, !getBreakthroughTime_base.
  assert (baseTime l1 <= baseTime l2)%Q as Hb.
  { pose proof (Z.div_mod l1 10 ltac:(lia)). pose proof (Z.div_mod l2 10 ltac:(lia)).
    destruct (baseTime_cases l1) as [[? ->]|[[? ->]|[[? ->]|[? ->]]]];
      destruct (baseTime_cases l2) as [[? ->]|[[? ->]|[[? ->]|[? ->]]]];
      try lra; exfalso; lia. }
  assert (baseTime l1 * (1 - r * (1 # 100)) <= baseTime l2 * (1 - r * (1 # 100)))%Q
    as Hbreak by (apply Qmult_le_compat_r; [exact Hb|lra]).
  assert (spanCultValue l1 d / sp < spanCultValue l2 d / sp)%Q as Hcult.
  { apply Qmult_lt_compat_r; [apply Qinv_lt_0_compat; lra|].
    apply spanCultValue_lt; [exact Hd|lia]. }
  lra.
Qed.

Lemma getStepCost_level_witness :
  (getStepCost 289 2 1 0 < getStepCost 299 2 1 0)%Q.
Proof.
  apply (getStepCost_level 289 299 2 1 0);
    [reflexivity|reflexivity|intros H; discriminate H|lia|reflexivity|reflexivity].
Defined.

(** ** The instances and their identifiers *)

Lemma flattenFrom_cons (j : nat) (a : Art) (arts0 : list Art) :
  flattenFrom j (a :: arts0) = expandArt j a ++ flattenFrom (S j) arts0.
Proof.
  unfold flattenFrom. rewrite imap_cons. cbn [concat]. rewrite Nat.add_0_r.
  f_equal. f_equal. apply imap_ext. intros idx x _. cbn. f_equal. lia.
Qed.

Lemma flatten_flattenFrom (arts0 : list Art) : flatten arts0 = flattenFrom 0 arts0.
Proof. reflexivity. Qed.

Lemma elem_of_expandArt (inst : Instance) (j : nat) (a : Art) :
  inst ∈ expandArt j a <->
  exists i : nat, Z.of_nat i < count a /\
                  inst = mkInstance a (id a +:+ "_" +:+ pretty i) j.
Proof.
  unfold expandArt. rewrite list_elem_of_fmap. split.
  - intros (i & -> & Hi). apply elem_of_seq in Hi. exists i. split; [lia|done].
  - intros (i & Hi & ->). exists i. split; [done|]. apply elem_of_seq. lia.
Qed.

Lemma elem_of_flattenFrom (inst : Instance) (j : nat) (arts0 : list Art) :
  inst ∈ flattenFrom j arts0 <->
  exists (idx : nat) (a : Art) (i : nat),
    arts0 !! idx = Some a /\ Z.of_nat i < count a /\
    inst = mkInstance a (id a +:+ "_" +:+ pretty i) (j + idx).
Proof.
  revert j. induction arts0 as [|a arts0 IH]; intros j.
  - split; [intros H; by apply elem_of_nil in H|]. by intros (idx & a & i & H & _).
  - rewrite flattenFrom_cons, elem_of_app, elem_of_expandArt, IH. split.
    + intros [(i & Hi & ->)|(idx & a' & i & Hidx & Hi & ->)].
      * exists 0%nat, a, i. by rewrite Nat.add_0_r.
      * exists (S idx), a', i. split_and!; [done..|]. f_equal. lia.
    + intros ([|idx] & a' & i & Hidx & Hi & ->).
      * cbn in Hidx. injection Hidx as <-. left. exists i. by rewrite Nat.add_0_r.
      * right. exists idx, a', i. split_and!; [done..|]. f_equal. lia.
Qed.


(** *** Instance identifiers *)

Lemma pretty_N_char_noUnderscore (x : N) : pretty_N_char x <> "_"%char.
Proof. unfold pretty_N_char. repeat case_match; discriminate. Qed.

Lemma pretty_N_go_noUnderscore (x : N) (s : string) :
  noUnderscore s -> noUnderscore (pretty_N_go x s).
Proof.
  revert s. induction (N.lt_wf_0 x) as [x _ IH]; intros s Hs.
  destruct (decide (x = 0)%N) as [->|Hx]; [by rewrite pretty_N_go_0|].
  rewrite pretty_N_go_step by lia. apply IH.
  - apply N.div_lt; lia.
  - split; [apply pretty_N_char_noUnderscore|done].
Qed.

Lemma pretty_nat_noUnderscore (i : nat) : noUnderscore (pretty i).
Proof.
  unfold pretty, pretty_nat, pretty, pretty_N. case_decide.
  - cbn. split; [discriminate|done].
  - by apply pretty_N_go_noUnderscore.
Qed.

Lemma append_nil_l (s : string) : "" +:+ s = s.
Proof. reflexivity. Qed.

Lemma append_cons (c : ascii) (s t : string) :
  String c s +:+ t = String c (s +:+ t).
Proof. reflexivity. Qed.

Lemma noUnderscore_app (s d : string) : ~ noUnderscore (s +:+ "_" +:+ d).
Proof.
  induction s as [|c s IH]; rewrite ?append_nil_l, ?append_cons; cbn.
  - by intros [H _].
  - intros [_ H]. by apply IH.
Qed.

(** An identifier [id_i] splits at its last underscore: it determines the
    art's id and the replica's number. *)
Lemma uniqueId_split (s1 s2 d1 d2 : string) :
  noUnderscore d1 -> noUnderscore d2 ->
  s1 +:+ "_" +:+ d1 = s2 +:+ "_" +:+ d2 -> s1 = s2 /\ d1 = d2.
Proof.
  intros Hd1 Hd2. revert s2.
  induction s1 as [|c s1 IH]; intros [|c' s2] H;
    rewrite ?append_nil_l, ?append_cons in H.
  - injection H as H. rewrite !append_nil_l in H. by rewrite H.
  - exfalso. injection H as _ H. rewrite !append_nil_l in H. rewrite H in Hd1.
    by apply noUnderscore_app in Hd1.
  - exfalso. injection H as _ H. rewrite !append_nil_l in H. rewrite <- H in Hd2.
    by apply noUnderscore_app in Hd2.
  - injection H as <- H. by destruct (IH s2 H) as [-> ->].
Qed.

Lemma uniqueId_inj (s1 s2 : string) (i1 i2 : nat) :
  s1 +:+ "_" +:+ pretty i1 = s2 +:+ "_" +:+ pretty i2 -> s1 = s2 /\ i1 = i2.
Proof.
  intros H. apply uniqueId_split in H as [-> H];
    [|apply pretty_nat_noUnderscore..].
  split; [done|]. by apply (inj pretty).
Qed.

Lemma NoDup_uniqueId_flattenFrom (j : nat) (arts0 : list Art) :
  NoDup (id <$> arts0) -> NoDup (uniqueId <$> flattenFrom j arts0).
Proof.
  revert j. induction arts0 as [|a arts0 IH]; intros j Hnd; [constructor|].
  rewrite fmap_cons in Hnd. apply NoDup_cons in Hnd as [Hnotin Hnd].
  rewrite flattenFrom_cons, fmap_app. apply NoDup_app. split_and!.
  - unfold expandArt. rewrite <- list_fmap_compose.
    apply NoDup_fmap_2_strong; [|apply NoDup_seq].
    intros i1 i2 _ _ H. cbn in H. by apply uniqueId_inj in H as [_ ->].
  - intros u Hu1 Hu2.
    apply list_elem_of_fmap in Hu1 as (x1 & -> & Hx1).
    apply list_elem_of_fmap in Hu2 as (x2 & Hu & Hx2).
    apply elem_of_expandArt in Hx1 as (i1 & _ & ->).
    apply elem_of_flattenFrom in Hx2 as (idx & a' & i2 & Hidx & _ & ->).
    cbn in Hu. apply uniqueId_inj in Hu as [Hid _].
    apply Hnotin. rewrite Hid. apply list_elem_of_fmap. exists a'.
    split; [done|]. by eapply list_elem_of_lookup_2.
  - by apply IH.
Qed.

(** X9: when the arts have pairwise different ids, the instances have
    pairwise different identifiers, also when an id itself ends in an
    underscore and digits. *)
Theorem flatten_uniqueId_NoDup (arts0 : list Art) :
  NoDup (id <$> arts0) -> NoDup (uniqueId <$> flatten arts0).
Proof. rewrite flatten_flattenFrom. apply NoDup_uniqueId_flattenFrom. Qed.

Lemma flatten_uniqueId_NoDup_witness :
  NoDup (uniqueId <$> flatten [mkArt "a" 1 true 11; mkArt "a_1" 1 false 1]).
Proof.
  apply (flatten_uniqueId_NoDup [mkArt "a" 1 true 11; mkArt "a_1" 1 false 1]).
  apply NoDup_cons. split; [|apply NoDup_singleton].
  intros H. apply list_elem_of_singleton in H. discriminate H.
Defined.

(** ** The output map *)

Lemma formatArts_snoc (instances : list Instance) (inst : Instance) (s : State) :
  formatArts (instances ++ [inst]) s
  = <[uniqueId inst := default 0 (choices s !! length instances)]>
      (formatArts instances s).
Proof.
  unfold formatArts. rewrite imap_app, foldl_app. cbn. by rewrite Nat.add_0_r.
Qed.

Lemma formatArts_lookup_Some (instances : list Instance) (s : State)
    (k : string) (v : Z) :
  formatArts instances s !! k = Some v ->
  exists idx inst, instances !! idx = Some inst /\ uniqueId inst = k /\
                   v = default 0 (choices s !! idx).
Proof.
  induction instances as [|inst instances IH] using rev_ind; [done|].
  rewrite formatArts_snoc. destruct (decide (uniqueId inst = k)) as [<-|Hne].
  - rewrite lookup_insert_eq. intros [= <-].
    exists (length instances), inst. split_and!; [|done..].
    by rewrite lookup_app_r, Nat.sub_diag.
  - rewrite lookup_insert_ne by done. intros H.
    destruct (IH H) as (idx & inst' & Hidx & Hk & Hv).
    exists idx, inst'. split_and!; [|done..]. by apply lookup_app_l_Some.
Qed.

Lemma formatArts_lookup_is_Some (instances : list Instance) (s : State)
    (k : string) :
  is_Some (formatArts instances s !! k) <-> k ∈ uniqueId <$> instances.
Proof.
  induction instances as [|inst instances IH] using rev_ind.
  - unfold formatArts. cbn. rewrite lookup_empty. split; [by intros [? ?]|].
    intros H. by apply elem_of_nil in H.
  - rewrite formatArts_snoc, fmap_app, elem_of_app. cbn.
    rewrite list_elem_of_singleton.
    destruct (decide (uniqueId inst = k)) as [<-|Hne].
    + rewrite lookup_insert_eq. split; [by right|by eexists].
    + rewrite lookup_insert_ne by done. rewrite IH. split; [by left|].
      by intros [H|H].
Qed.

(** The entry of an identifier is the choice of the last instance that
    carries it. *)
Lemma formatArts_lookup_last (instances : list Instance) (s : State)
    (idx : nat) (inst : Instance) :
  instances !! idx = Some inst ->
  (forall j inst', (idx < j)%nat -> instances !! j = Some inst' ->
                   uniqueId inst' <> uniqueId inst) ->
  formatArts instances s !! uniqueId inst = Some (default 0 (choices s !! idx)).
Proof.
  induction instances as [|x instances IH] using rev_ind; [done|].
  intros Hidx Hlast. rewrite formatArts_snoc.
  destruct (decide (idx = length instances)) as [->|Hne].
  - rewrite lookup_app_r, Nat.sub_diag in Hidx by lia. cbn in Hidx.
    injection Hidx as ->. by rewrite lookup_insert_eq.
  - assert (idx < length instances)%nat as Hlt.
    { apply lookup_lt_Some in Hidx. rewrite length_app in Hidx. cbn in Hidx. lia. }
    rewrite lookup_insert_ne.
    + apply IH.
      * by rewrite lookup_app_l in Hidx.
      * intros j inst' Hj Hinst'. apply (Hlast j); [done|].
        by apply lookup_app_l_Some.
    + apply (Hlast (length instances)); [done|].
      by rewrite lookup_app_r, Nat.sub_diag.
Qed.

(** ** The state of a frontier and the levels it stands for *)

Lemma sum_insert_Z {A : Type} (f : A -> Z -> Z) (xs : list A) (ch : list Z)
    (k : nat) (x : A) (old v : Z) :
  xs !! k = Some x -> ch !! k = Some old ->
  foldr Z.add 0 (zip_with f xs (<[k := v]> ch))
  = foldr Z.add 0 (zip_with f xs ch) - f x old + f x v.
Proof.
  revert k ch. induction xs as [|y xs IH]; intros k ch Hx Hold; [done|].
  destruct ch as [|c ch]; [done|]. destruct k as [|k].
  - cbn in *. injection Hx as ->. injection Hold as ->. lia.
  - change (<[S k := v]> (c :: ch)) with (c :: <[k := v]> ch).
    cbn [zip_with foldr]. rewrite (IH k ch Hx Hold). lia.
Qed.

Lemma sum_insert_Q {A : Type} (f : A -> Z -> Q) (xs : list A) (ch : list Z)
    (k : nat) (x : A) (old v : Z) :
  xs !! k = Some x -> ch !! k = Some old ->
  (foldr Qplus 0 (zip_with f xs (<[k := v]> ch))
   == foldr Qplus 0 (zip_with f xs ch) - f x old + f x v)%Q.
Proof.
  revert k ch. induction xs as [|y xs IH]; intros k ch Hx Hold; [done|].
  destruct ch as [|c ch]; [done|]. destruct k as [|k].
  - cbn in *. injection Hx as ->. injection Hold as ->. ring.
  - change (<[S k := v]> (c :: ch)) with (c :: <[k := v]> ch).
    cbn [zip_with foldr]. rewrite (IH k ch Hx Hold). ring.
Qed.

Lemma baseTotal_foldr (instances : list Instance) :
  baseTotal instances
  = foldr Z.add 0 ((fun inst => levelValue inst 99) <$> instances).
Proof.
  unfold baseTotal.
  assert (forall acc,
             foldl (fun b inst =>
                      b + getZhenyuan 99 (difficulty (art inst)) (isMain (art inst)))
                   acc instances
             = acc + foldr Z.add 0 ((fun inst => levelValue inst 99) <$> instances))
    as H; [|by rewrite H].
  induction instances as [|inst instances IH]; intros acc;
    cbn [foldl foldr fmap list_fmap]; [lia|].
  rewrite IH. unfold levelValue. lia.
Qed.

Lemma chosenValue_base (instances : list Instance) :
  chosenValue instances (replicate (length instances) 99) = baseTotal instances.
Proof.
  rewrite baseTotal_foldr. unfold chosenValue.
  induction instances as [|inst instances IH]; [done|].
  cbn [length replicate zip_with foldr fmap list_fmap]. by rewrite IH.
Qed.

Lemma chosenCost_base (settings : Settings) (instances : list Instance) :
  (chosenCost settings instances (replicate (length instances) 99%Z) == 0)%Q.
Proof.
  unfold chosenCost.
  induction instances as [|inst instances IH]; [reflexivity|].
  cbn [length replicate zip_with foldr]. rewrite IH.
  unfold levelCost. change (Z.to_nat ((99 - 99) / 10)) with 0%nat.
  cbn [cumCost]. ring.
Qed.

Lemma levelCost_grid (settings : Settings) (inst : Instance) (k : nat) :
  levelCost settings inst (99 + 10 * Z.of_nat k)
  = cumCost (difficulty (art inst)) (speed settings) (reduction settings) k.
Proof.
  unfold levelCost. f_equal.
  replace (99 + 10 * Z.of_nat k - 99) with (Z.of_nat k * 10) by lia.
  rewrite Z.div_mul by lia. lia.
Qed.

Lemma elem_of_grid_levels (j : nat) :
  (j < 41)%nat -> 99 + 10 * Z.of_nat j ∈ grid 99 10 41.
Proof.
  intros Hj. unfold grid. apply list_elem_of_fmap. exists j.
  split; [done|]. apply elem_of_seq. lia.
Qed.

Lemma stateInv_initial (settings : Settings) (instances : list Instance) :
  stateInv settings instances 0
           (mkState 0 0%Q (replicate (length instances) 99)).
Proof.
  constructor; cbn [choices st_z st_t].
  - by rewrite length_replicate.
  - intros i Hi. apply lookup_replicate. split; [done|lia].
  - apply Forall_replicate. apply (elem_of_grid_levels 0). lia.
  - by rewrite chosenValue_base.
  - by rewrite chosenCost_base.
Qed.

Lemma stateInv_candidate (settings : Settings) (instances : list Instance)
    (k : nat) (inst : Instance) (s : State) (o : Opt) :
  instances !! k = Some inst ->
  o ∈ computeOptions settings inst ->
  stateInv settings instances k s ->
  stateInv settings instances (S k)
           (candidate k (computeOptions settings inst) s o).
Proof.
  intros Hk Ho [Hlen Hrest Hgrid Hval Htime].
  apply elem_of_computeOptions in Ho as (j & Hj & ->).
  assert (k < length instances)%nat as Hlt by (by eapply lookup_lt_Some).
  pose proof (Hrest k ltac:(lia)) as Hold.
  unfold candidate. rewrite baseZ_computeOptions.
  constructor; cbn [choices st_z st_t optionAt level opt_z opt_t].
  - by rewrite length_insert.
  - intros i Hi. rewrite list_lookup_insert_ne by lia. apply Hrest. lia.
  - apply Forall_insert; [done|]. by apply elem_of_grid_levels.
  - unfold chosenValue. rewrite (sum_insert_Z _ _ _ _ inst 99) by done.
    fold (chosenValue instances (choices s)). rewrite <- Hval.
    unfold levelValue. lia.
  - unfold chosenCost. rewrite (sum_insert_Q _ _ _ _ inst 99) by done.
    fold (chosenCost settings instances (choices s)). rewrite <- Htime.
    rewrite levelCost_grid. unfold levelCost.
    change (Z.to_nat ((99 - 99) / 10)) with 0%nat. cbn [cumCost]. ring.
Qed.

Lemma stateInv_prefixFrontier (settings : Settings) (instances : list Instance)
    (k : nat) (s : State) :
  (k <= length instances)%nat ->
  s ∈ prefixFrontier settings instances k ->
  stateInv settings instances k s.
Proof.
  revert s. induction k as [|k IH]; intros s Hk Hs.
  - unfold prefixFrontier in Hs. rewrite take_0 in Hs. cbn in Hs.
    apply list_elem_of_singleton in Hs as ->. apply stateInv_initial.
  - destruct (lookup_lt_is_Some_2 instances k ltac:(lia)) as [inst Hinst].
    rewrite (prefixFrontier_S _ _ _ inst Hinst) in Hs.
    apply elem_of_mergeStep in Hs as (s0 & o & Hs0 & Ho & ->).
    apply stateInv_candidate; [done..|]. apply IH; [lia|done].
Qed.

Lemma stateInv_frontierOf (settings : Settings) (instances : list Instance)
    (s : State) :
  s ∈ frontierOf settings instances ->
  stateInv settings instances (length instances) s.
Proof.
  rewrite <- prefixFrontier_all. by apply stateInv_prefixFrontier.
Qed.


(** ** The result of [optimize] *)

Lemma optimize_selected (arts0 : list Art) (settings : Settings) (s : State) :
  flatten arts0 <> [] ->
  selectBest settings (baseTotal (flatten arts0))
             (frontierOf settings (flatten arts0)) = Some s ->
  optimize arts0 settings
  = Some (mkResult (st_z s + baseTotal (flatten arts0)) (st_t s)
                   (formatArts (flatten arts0) s) []).
Proof.
  intros Hne Hsel. unfold optimize.
  rewrite decide_False by (by destruct (flatten arts0)). by rewrite Hsel.
Qed.

(** What [optimize] returns when there is an instance. *)
Lemma optimize_unfold (arts0 : list Art) (settings : Settings) :
  flatten arts0 <> [] ->
  exists s,
    s ∈ frontierOf settings (flatten arts0) /\
    selectBest settings (baseTotal (flatten arts0))
               (frontierOf settings (flatten arts0)) = Some s /\
    optimize arts0 settings
    = Some (mkResult (st_z s + baseTotal (flatten arts0)) (st_t s)
                     (formatArts (flatten arts0) s) []).
Proof.
  intros Hne.
  destruct (selectBest_elem settings (baseTotal (flatten arts0))
              (frontierOf settings (flatten arts0)) (frontierOf_nonempty _ _))
    as (s & Hsel & Hs).
  exists s. split_and!; [done..|]. by apply optimize_selected.
Qed.

Lemma optimize_empty (arts0 : list Art) (settings : Settings) :
  flatten arts0 = [] -> optimize arts0 settings = Some (mkResult 0 0%Q ∅ []).
Proof. intros H. unfold optimize. by rewrite H. Qed.

(** X11: [optimize] never returns [null]: the frontier is never empty, so
    the selector always finds a state; the [path] of the returned record
    is always empty. *)
Theorem optimize_total (arts0 : list Art) (settings : Settings) :
  ~ (speed settings == 0)%Q ->
  exists res, optimize arts0 settings = Some res /\ path res = [].
Proof.
  intros _. destruct (decide (flatten arts0 = [])) as [He|Hne].
  - rewrite (optimize_empty _ _ He). by eexists.
  - destruct (optimize_unfold arts0 settings Hne) as (s & _ & _ & ->). by eexists.
Qed.

Lemma optimize_total_witness :
  exists res,
    optimize [mkArt "a" 2 true 2; mkArt "b" 1 false 0] (mkSettings 1 0 time (-1))
    = Some res /\
    path res = [].
Proof.
  apply (optimize_total [mkArt "a" 2 true 2; mkArt "b" 1 false 0]
           (mkSettings 1 0 time (-1))).
  intros H. discriminate H.
Defined.

Lemma formatArts_size_le (instances : list Instance) (s : State) :
  (size (formatArts instances s) <= length instances)%nat.
Proof.
  induction instances as [|inst instances IH] using rev_ind.
  - unfold formatArts. cbn. by rewrite map_size_empty.
  - rewrite formatArts_snoc, length_app, map_size_insert. cbn.
    destruct (formatArts instances s !! uniqueId inst); cbn; lia.
Qed.

Lemma formatArts_size_NoDup (instances : list Instance) (s : State) :
  NoDup (uniqueId <$> instances) ->
  size (formatArts instances s) = length instances.
Proof.
  induction instances as [|inst instances IH] using rev_ind; intros Hnd.
  - unfold formatArts. cbn. by rewrite map_size_empty.
  - rewrite fmap_app in Hnd. apply NoDup_app in Hnd as (Hnd & Hdisj & _).
    rewrite formatArts_snoc, length_app, map_size_insert_None.
    + rewrite (IH Hnd). cbn. lia.
    + apply eq_None_not_Some. rewrite formatArts_lookup_is_Some.
      intros Hin. apply (Hdisj _ Hin). cbn. left.
Qed.

Lemma formatArts_size_lt (instances : list Instance) (s : State)
    (i j : nat) (x y : Instance) :
  (i < j)%nat -> instances !! i = Some x -> instances !! j = Some y ->
  uniqueId x = uniqueId y ->
  (size (formatArts instances s) < length instances)%nat.
Proof.
  revert j y. induction instances as [|inst instances IH] using rev_ind;
    intros j y Hij Hi Hj Hxy; [done|].
  rewrite formatArts_snoc, length_app. cbn.
  destruct (decide (j = length instances)) as [->|Hne].
  - rewrite lookup_app_r, Nat.sub_diag in Hj by lia. cbn in Hj.
    injection Hj as ->. rewrite lookup_app_l in Hi by done.
    rewrite map_size_insert_Some.
    + pose proof (formatArts_size_le instances s). lia.
    + apply formatArts_lookup_is_Some. rewrite <- Hxy.
      apply list_elem_of_fmap. exists x. split; [done|].
      by eapply list_elem_of_lookup_2.
  - assert (j < length instances)%nat as Hlt.
    { apply lookup_lt_Some in Hj. rewrite length_app in Hj. cbn in Hj. lia. }
    rewrite lookup_app_l in Hi, Hj by lia.
    pose proof (IH j y Hij Hi Hj Hxy) as Hsize.
    rewrite map_size_insert.
    destruct (formatArts instances s !! uniqueId inst); cbn; lia.
Qed.

(** X12: the output map has an entry for exactly the identifiers of the
    instances, every entry is one of the levels 99, 109, ..., 499, and the
    map has at most one entry per instance; when the arts have pairwise
    different ids it has exactly one entry per instance. *)
Theorem optimize_arts_keys (arts0 : list Art) (settings : Settings) :
  ~ (speed settings == 0)%Q ->
  exists res,
    optimize arts0 settings = Some res /\
    (forall k, is_Some (arts res !! k) <-> k ∈ uniqueId <$> flatten arts0) /\
    (forall k l, arts res !! k = Some l -> l ∈ grid 99 10 41) /\
    (size (arts res) <= length (flatten arts0))%nat /\
    (NoDup (id <$> arts0) -> size (arts res) = length (flatten arts0)).
Proof.
  intros _. destruct (decide (flatten arts0 = [])) as [He|Hne].
  - rewrite (optimize_empty _ _ He), He. eexists. split; [done|].
    cbn [arts]. split_and!.
    + intros k. rewrite lookup_empty. split; [by intros [? ?]|].
      intros H. by apply elem_of_nil in H.
    + intros k l H. by rewrite lookup_empty in H.
    + by rewrite map_size_empty.
    + intros _. by rewrite map_size_empty.
  - destruct (optimize_unfold arts0 settings Hne) as (s & Hs & _ & ->).
    eexists. split; [done|]. cbn [arts].
    apply stateInv_frontierOf in Hs. split_and!.
    + intros k. apply formatArts_lookup_is_Some.
    + intros k l Hk.
      apply formatArts_lookup_Some in Hk as (idx & inst & Hidx & _ & ->).
      destruct (lookup_lt_is_Some_2 (choices s) idx) as [c Hc].
      { rewrite (sinv_length _ _ _ _ Hs). by eapply lookup_lt_Some. }
      rewrite Hc. cbn.
      pose proof (sinv_grid _ _ _ _ Hs) as Hgrid. rewrite Forall_forall in Hgrid.
      apply Hgrid. by eapply list_elem_of_lookup_2.
    + apply formatArts_size_le.
    + intros Hnd. apply formatArts_size_NoDup.
      rewrite flatten_flattenFrom. by apply NoDup_uniqueId_flattenFrom.
Qed.

Lemma optimize_arts_keys_witness :
  exists res,
    optimize [mkArt "a" 2 true 2; mkArt "b" 1 false 1] (mkSettings 1 0 zhenyuan 900)
    = Some res /\
    (forall k, is_Some (arts res !! k) <->
               k ∈ uniqueId <$> flatten [mkArt "a" 2 true 2; mkArt "b" 1 false 1]) /\
    (forall k l, arts res !! k = Some l -> l ∈ grid 99 10 41) /\
    size (arts res) = 3%nat.
Proof.
  destruct (optimize_arts_keys [mkArt "a" 2 true 2; mkArt "b" 1 false 1]
              (mkSettings 1 0 zhenyuan 900))
    as (res & Hres & Hkeys & Hlevels & _ & Hsize).
  { intros H. discriminate H. }
  exists res. split; [exact Hres|]. split; [exact Hkeys|]. split; [exact Hlevels|].
  apply Hsize. apply NoDup_cons. split; [|apply NoDup_singleton].
  intros H. apply list_elem_of_singleton in H. discriminate H.
Defined.

(** X13: when two arts with a positive count share an id, their replicas
    share identifiers, and the output map has fewer entries than there are
    instances: the level of an instance is overwritten. *)
Theorem optimize_arts_collide (arts0 : list Art) (settings : Settings)
    (i j : nat) (a b : Art) :
  ~ (speed settings == 0)%Q ->
  arts0 !! i = Some a -> arts0 !! j = Some b -> i <> j -> id a = id b ->
  0 < count a -> 0 < count b ->
  exists res,
    optimize arts0 settings = Some res /\
    (size (arts res) < length (flatten arts0))%nat.
Proof.
  intros _ Hi Hj Hij Hid Ha Hb.
  set (x := mkInstance a (id a +:+ "_" +:+ pretty 0%nat) i).
  set (y := mkInstance b (id b +:+ "_" +:+ pretty 0%nat) j).
  assert (x ∈ flatten arts0) as Hx.
  { apply (elem_of_flattenFrom x 0 arts0). exists i, a, 0%nat.
    split_and!; [done|lia|done]. }
  assert (y ∈ flatten arts0) as Hy.
  { apply (elem_of_flattenFrom y 0 arts0). exists j, b, 0%nat.
    split_and!; [done|lia|done]. }
  assert (flatten arts0 <> []) as Hne.
  { intros He. rewrite He in Hx. by apply elem_of_nil in Hx. }
  destruct (optimize_unfold arts0 settings Hne) as (s & _ & _ & ->).
  eexists. split; [done|]. cbn [arts].
  apply list_elem_of_lookup in Hx as [p Hp]. apply list_elem_of_lookup in Hy as [q Hq].
  assert (uniqueId x = uniqueId y) as Hxy by (cbn; by rewrite Hid).
  destruct (Nat.lt_trichotomy p q) as [Hlt|[->|Hgt]].
  - by apply (formatArts_size_lt _ s p q x y).
  - exfalso. rewrite Hp in Hq. injection Hq as Hq. by apply Hij.
  - by apply (formatArts_size_lt _ s q p y x).
Qed.

Lemma optimize_arts_collide_witness :
  exists res,
    optimize [mkArt "a" 1 true 1; mkArt "a" 2 false 1] (mkSettings 1 0 zhenyuan 0)
    = Some res /\
    (size (arts res)
     < length (flatten [mkArt "a" 1 true 1; mkArt "a" 2 false 1]))%nat.
Proof.
  apply (optimize_arts_collide [mkArt "a" 1 true 1; mkArt "a" 2 false 1]
           (mkSettings 1 0 zhenyuan 0) 0 1 (mkArt "a" 1 true 1) (mkArt "a" 2 false 1));
    [intros H; discriminate H
    |reflexivity|reflexivity|lia|reflexivity|reflexivity|reflexivity].
Defined.

Lemma reportedLevels_choices (instances : list Instance) (s : State) (res : Result) :
  NoDup (uniqueId <$> instances) ->
  length (choices s) = length instances ->
  arts res = formatArts instances s ->
  reportedLevels instances res = choices s.
Proof.
  intros Hnd Hlen Harts. apply list_eq. intros idx.
  unfold reportedLevels. rewrite list_lookup_fmap, Harts.
  destruct (instances !! idx) as [inst|] eqn:Hidx; cbn.
  - rewrite (formatArts_lookup_last instances s idx inst Hidx).
    + cbn. destruct (lookup_lt_is_Some_2 (choices s) idx) as [c Hc].
      { rewrite Hlen. by eapply lookup_lt_Some. }
      by rewrite Hc.
    + intros j inst' Hj Hinst' Heq.
      assert (idx = j); [|lia].
      apply (NoDup_lookup (uniqueId <$> instances) idx j (uniqueId inst)); [done|..].
      * by rewrite list_lookup_fmap, Hidx.
      * rewrite list_lookup_fmap, Hinst'. cbn. by rewrite Heq.
  - symmetry. apply lookup_ge_None. rewrite Hlen. by apply lookup_ge_None.
Qed.

(** X14: the totals of the record are the totals of the levels it reports.
    When the arts have pairwise different ids, [totalZhenyuan] is the sum
    of [getZhenyuan] at the level reported for each instance, and
    [totalTimeHours] is, in exact arithmetic, the sum of the cumulative
    costs of these levels. *)
Theorem optimize_consistent (arts0 : list Art) (settings : Settings) :
  ~ (speed settings == 0)%Q ->
  NoDup (id <$> arts0) ->
  exists res,
    optimize arts0 settings = Some res /\
    totalZhenyuan res
    = chosenValue (flatten arts0) (reportedLevels (flatten arts0) res) /\
    (totalTimeHours res
     == chosenCost settings (flatten arts0) (reportedLevels (flatten arts0) res))%Q.
Proof.
  intros _ Hnd. destruct (decide (flatten arts0 = [])) as [He|Hne].
  - rewrite (optimize_empty _ _ He), He. eexists. split; [done|].
    split; reflexivity.
  - destruct (optimize_unfold arts0 settings Hne) as (s & Hs & _ & ->).
    eexists. split; [done|]. apply stateInv_frontierOf in Hs.
    rewrite (reportedLevels_choices _ s).
    + cbn [totalZhenyuan totalTimeHours].
      split; [apply (sinv_value _ _ _ _ Hs)|apply (sinv_time _ _ _ _ Hs)].
    + rewrite flatten_flattenFrom. by apply NoDup_uniqueId_flattenFrom.
    + apply (sinv_length _ _ _ _ Hs).
    + done.
Qed.

Lemma optimize_consistent_witness :
  exists res,
    optimize [mkArt "a" 1 true 2; mkArt "b" 2 false 1] (mkSettings 1 0 time 100)
    = Some res /\
    totalZhenyuan res
    = chosenValue (flatten [mkArt "a" 1 true 2; mkArt "b" 2 false 1])
        (reportedLevels (flatten [mkArt "a" 1 true 2; mkArt "b" 2 false 1]) res) /\
    (totalTimeHours res
     == chosenCost (mkSettings 1 0 time 100)
          (flatten [mkArt "a" 1 true 2; mkArt "b" 2 false 1])
          (reportedLevels (flatten [mkArt "a" 1 true 2; mkArt "b" 2 false 1]) res))%Q.
Proof.
  apply (optimize_consistent [mkArt "a" 1 true 2; mkArt "b" 2 false 1]
           (mkSettings 1 0 time 100)).
  { intros H. discriminate H. }
  apply NoDup_cons. split; [|apply NoDup_singleton].
  intros H. apply list_elem_of_singleton in H. discriminate H.
Defined.

(** ** What pruning keeps *)

(** X15: pruning candidates sorted by value descending covers every
    candidate: some kept state has at least its value and is either no
    slower or in the same bucket. *)
Theorem prune_covers (l : list State) (c : State) :
  zNonInc l -> c ∈ l ->
  exists k, k ∈ prune l /\ st_z c <= st_z k /\
            ((st_t k <= st_t c)%Q \/ bucketOf k = bucketOf c).
Proof.
  intros Hsorted Hc. apply list_elem_of_split in Hc as (l1 & l2 & ->).
  pose proof (pruneInv_prune l1) as Hinv.
  assert (forall k, k ∈ pruned (foldl pruneStep pruneInit l1) -> st_z c <= st_z k)
    as Hhigh.
  { intros k Hk.
    assert (k ∈ l1) as Hk1
      by (eapply sublist_subseteq; [apply (inv_sub _ _ Hinv)|done]).
    unfold zNonInc in Hsorted.
    exact (StronglySorted_app_1_elem_of _ _ _ k c Hsorted Hk1 ltac:(left)). }
  assert (forall k, k ∈ pruned (pruneStep (foldl pruneStep pruneInit l1) c) ->
                    k ∈ prune (l1 ++ c :: l2)) as Hkeep.
  { intros k Hk. rewrite prune_app. cbn [foldl].
    destruct (pruned_foldl_prefix l2 (pruneStep (foldl pruneStep pruneInit l1) c))
      as (more & -> & _).
    apply elem_of_app. by left. }
  destruct (pruneStep_cases (foldl pruneStep pruneInit l1) c)
    as [(_ & _ & Hstep)|[[Hslow|Hseen] Hstep]].
  - exists c. split_and!; [|lia|left; apply Qle_refl].
    apply Hkeep. rewrite Hstep. cbn. apply elem_of_app. right. left.
  - rewrite (inv_min _ _ Hinv) in Hslow.
    destruct (last (pruned (foldl pruneStep pruneInit l1))) as [k|] eqn:Hlast;
      [|done].
    cbn in Hslow. apply last_Some_elem_of in Hlast.
    exists k. split_and!.
    + apply Hkeep. by rewrite Hstep.
    + by apply Hhigh.
    + left. apply Qnot_lt_le. intros Hlt. apply Qltb_lt in Hlt. congruence.
  - apply (inv_buckets _ _ Hinv) in Hseen.
    apply list_elem_of_fmap in Hseen as (k & Hb & Hk).
    exists k. split_and!.
    + apply Hkeep. by rewrite Hstep.
    + by apply Hhigh.
    + by right.
Qed.

Lemma prune_covers_witness :
  exists k, k ∈ prune [mkState 250 5 []; mkState 150 7 []; mkState 140 3 []] /\
            st_z (mkState 150 7 []) <= st_z k /\
            ((st_t k <= st_t (mkState 150 7 []))%Q \/
             bucketOf k = bucketOf (mkState 150 7 [])).
Proof.
  apply (prune_covers [mkState 250 5 []; mkState 150 7 []; mkState 140 3 []]
           (mkState 150 7 [])).
  - repeat constructor; cbn; lia.
  - right. left.
Defined.

Lemma foldl_pruneStep_fixed (l seen : list State) (acc : PruneAcc) :
  pruneInv seen acc ->
  tDesc (pruned acc ++ l) -> NoDup (bucketOf <$> pruned acc ++ l) ->
  pruned (foldl pruneStep acc l) = pruned acc ++ l.
Proof.
  revert seen acc. induction l as [|c l IH]; intros seen acc Hinv Ht Hnd.
  - by rewrite app_nil_r.
  - cbn [foldl].
    destruct (pruneStep_cases acc c) as [(_ & _ & Hstep)|[[Hslow|Hseen] _]].
    + rewrite (IH (seen ++ [c]) (pruneStep acc c)).
      * rewrite Hstep. cbn. by rewrite <- app_assoc.
      * by apply pruneInv_step.
      * rewrite Hstep. cbn. by rewrite <- app_assoc.
      * rewrite Hstep. cbn. by rewrite <- app_assoc.
    + exfalso.
      assert (belowMinTime (st_t c) (minTimeSeen acc) = true); [|congruence].
      apply (belowMinTime_all seen acc c Hinv). intros k Hk.
      exact (StronglySorted_app_1_elem_of _ _ _ k c Ht Hk ltac:(left)).
    + exfalso. apply (inv_buckets _ _ Hinv) in Hseen.
      rewrite fmap_app in Hnd. apply NoDup_app in Hnd as (_ & Hdisj & _).
      apply (Hdisj _ Hseen). cbn. left.
Qed.

(** A list whose times strictly decrease and whose buckets are pairwise
    different is kept as it is. *)
Lemma prune_fixed (l : list State) :
  tDesc l -> NoDup (bucketOf <$> l) -> prune l = l.
Proof.
  intros Ht Hnd. unfold prune.
  by rewrite (foldl_pruneStep_fixed l [] pruneInit pruneInv_init).
Qed.

(** X16: pruning twice is the same as pruning once, whatever the
    candidates: a pruned list has strictly decreasing times and pairwise
    different buckets, and pruning keeps such a list as it is. *)
Theorem prune_idempotent (l : list State) : prune (prune l) = prune l.
Proof. apply prune_fixed; [apply prune_tDesc|apply prune_NoDup_buckets]. Qed.

(** ** The selector in resource-floor mode *)

(** A frontier sorted both ways: its head has the highest value and time. *)
Lemma sorted_head_max (c : State) (fr : list State) (s : State) :
  zDesc (c :: fr) -> tDesc (c :: fr) -> s ∈ c :: fr ->
  st_z s <= st_z c /\ (st_t s <= st_t c)%Q.
Proof.
  intros Hz Ht Hs. apply elem_of_cons in Hs as [->|Hs]; [split; [lia|lra]|].
  apply StronglySorted_inv in Hz as [_ Hz]. apply StronglySorted_inv in Ht as [_ Ht].
  rewrite Forall_forall in Hz, Ht. specialize (Hz s Hs). specialize (Ht s Hs).
  cbn in Hz, Ht. split; [lia|lra].
Qed.

Lemma sorted_tail (c : State) (fr : list State) :
  zDesc (c :: fr) -> tDesc (c :: fr) -> zDesc fr /\ tDesc fr.
Proof.
  intros Hz Ht. apply StronglySorted_inv in Hz as [Hz _].
  apply StronglySorted_inv in Ht as [Ht _]. done.
Qed.

(** The scan returns the last state of the leading run of states that
    reach the target. *)
Lemma scanZhenyuan_run (base : Z) (target : Q) (fr : list State)
    (best : option State) :
  zDesc fr ->
  (scanZhenyuan base target fr best = best /\
   forall s, s ∈ fr -> ~ (target <= inject_Z (st_z s + base))%Q) \/
  (exists s, scanZhenyuan base target fr best = Some s /\ s ∈ fr /\
             (target <= inject_Z (st_z s + base))%Q /\
             forall s', s' ∈ fr -> (target <= inject_Z (st_z s' + base))%Q ->
                        st_z s <= st_z s').
Proof.
  revert best. induction fr as [|c fr IH]; intros best Hz.
  - left. split; [done|]. intros s Hs. by apply elem_of_nil in Hs.
  - cbn [scanZhenyuan].
    destruct (Qle_bool target (inject_Z (st_z c + base))) eqn:E.
    + right. apply Qle_bool_iff in E.
      apply StronglySorted_inv in Hz as [Hz Hc]. rewrite Forall_forall in Hc.
      destruct (IH (Some c) Hz) as [[-> Hnone]|(s & -> & Hs & Hreach & Hleast)].
      * exists c. split_and!; [done|left|done|].
        intros s' Hs' Hr. apply elem_of_cons in Hs' as [->|Hs']; [lia|].
        by destruct (Hnone s' Hs').
      * exists s. split_and!; [done|by right|done|].
        intros s' Hs' Hr. apply elem_of_cons in Hs' as [->|Hs'].
        -- specialize (Hc s Hs). cbn in Hc. lia.
        -- by apply Hleast.
    + left. split; [done|]. intros s Hs Hr.
      assert (st_z s <= st_z c) as Hle.
      { apply elem_of_cons in Hs as [->|Hs]; [lia|].
        apply StronglySorted_inv in Hz as [_ Hc]. rewrite Forall_forall in Hc.
        specialize (Hc s Hs). cbn in Hc. lia. }
      assert (target <= inject_Z (st_z c + base))%Q as Hbad.
      { eapply Qle_trans; [exact Hr|]. rewrite <- Zle_Qle. lia. }
      apply Qle_bool_iff in Hbad. congruence.
Qed.

(** X17: in resource-floor mode the selector returns a state of the final
    frontier.  When some frontier state reaches the target, the returned
    state reaches it and has the least value and the least time among the
    frontier states that do; when none does, the returned state is the
    first of the frontier, which has the highest value. *)
Theorem selectBest_zhenyuan_floor (settings : Settings)
    (instances : list Instance) (baseTotalZ : Z) :
  ~ (speed settings == 0)%Q ->
  targetType settings = zhenyuan ->
  exists best,
    selectBest settings baseTotalZ (frontierOf settings instances) = Some best /\
    best ∈ frontierOf settings instances /\
    ((exists s, s ∈ frontierOf settings instances /\
                (targetValue settings <= inject_Z (st_z s + baseTotalZ))%Q) ->
     (targetValue settings <= inject_Z (st_z best + baseTotalZ))%Q /\
     forall s, s ∈ frontierOf settings instances ->
               (targetValue settings <= inject_Z (st_z s + baseTotalZ))%Q ->
               st_z best <= st_z s /\ (st_t best <= st_t s)%Q) /\
    ((forall s, s ∈ frontierOf settings instances ->
                ~ (targetValue settings <= inject_Z (st_z s + baseTotalZ))%Q) ->
     head (frontierOf settings instances) = Some best /\
     forall s, s ∈ frontierOf settings instances -> st_z s <= st_z best).
Proof.
  intros _ Hmode.
  destruct (frontierOf_sorted settings instances) as [Hz Ht].
  pose proof (frontierOf_nonempty settings instances) as Hne.
  unfold selectBest. rewrite Hmode.
  destruct (scanZhenyuan_run baseTotalZ (targetValue settings)
              (frontierOf settings instances) None Hz)
    as [[-> Hnone]|(s & -> & Hs & Hreach & Hleast)].
  - destruct (frontierOf settings instances) as [|c fr] eqn:Efr; [done|].
    exists c. split_and!; [done|left| |].
    + intros (s & Hs & Hr). by destruct (Hnone s Hs).
    + intros _. split; [done|]. intros s Hs.
      by destruct (sorted_head_max c fr s Hz Ht Hs).
  - exists s. split_and!; [done..| |].
    + intros _. split; [done|]. intros s' Hs' Hr. split; [by apply Hleast|].
      pose proof (Hleast s' Hs' Hr) as Hle.
      apply list_elem_of_lookup in Hs as [i Hi].
      apply list_elem_of_lookup in Hs' as [j Hj].
      destruct (Nat.lt_trichotomy i j) as [Hlt|[->|Hgt]].
      * pose proof (StronglySorted_lookup _ _ i j s s' Hz Hlt Hi Hj) as H.
        cbn in H. lia.
      * rewrite Hi in Hj. injection Hj as ->. apply Qle_refl.
      * pose proof (StronglySorted_lookup _ _ j i s' s Ht Hgt Hj Hi) as H.
        cbn in H. lra.
    + intros Hnone. by destruct (Hnone s Hs).
Qed.

(** ** The result grows with the target *)

(** The option curve, and so the frontier, depends on the settings only
    through speed and reduction. *)
Lemma computeOptions_settings (s1 s2 : Settings) (inst : Instance) :
  speed s1 = speed s2 -> reduction s1 = reduction s2 ->
  computeOptions s1 inst = computeOptions s2 inst.
Proof.
  intros Hsp Hr. rewrite !computeOptions_closed. apply list_fmap_ext.
  intros _ k _. unfold optionAt. by rewrite Hsp, Hr.
Qed.

Lemma frontierOf_settings (s1 s2 : Settings) (instances : list Instance) :
  speed s1 = speed s2 -> reduction s1 = reduction s2 ->
  frontierOf s1 instances = frontierOf s2 instances.
Proof.
  intros Hsp Hr. unfold frontierOf. f_equal. apply list_fmap_ext.
  intros _ inst _. by apply computeOptions_settings.
Qed.

(** Along a frontier a state of no more value takes no more time. *)
Lemma frontier_time_of_value (fr : list State) (s s' : State) :
  zDesc fr -> tDesc fr -> s ∈ fr -> s' ∈ fr ->
  st_z s <= st_z s' -> (st_t s <= st_t s')%Q.
Proof.
  intros Hz Ht Hs Hs' Hle.
  apply list_elem_of_lookup in Hs as [i Hi].
  apply list_elem_of_lookup in Hs' as [j Hj].
  destruct (Nat.lt_trichotomy i j) as [Hlt|[->|Hgt]].
  - pose proof (StronglySorted_lookup _ _ i j s s' Hz Hlt Hi Hj) as H.
    cbn in H. lia.
  - rewrite Hi in Hj. injection Hj as ->. apply Qle_refl.
  - pose proof (StronglySorted_lookup _ _ j i s' s Ht Hgt Hj Hi) as H.
    cbn in H. lra.
Qed.

Lemma frontier_value_of_time (fr : list State) (s s' : State) :
  zDesc fr -> tDesc fr -> s ∈ fr -> s' ∈ fr ->
  (st_t s <= st_t s')%Q -> st_z s <= st_z s'.
Proof.
  intros Hz Ht Hs Hs' Hle.
  apply list_elem_of_lookup in Hs as [i Hi].
  apply list_elem_of_lookup in Hs' as [j Hj].
  destruct (Nat.lt_trichotomy i j) as [Hlt|[->|Hgt]].
  - pose proof (StronglySorted_lookup _ _ i j s s' Ht Hlt Hi Hj) as H.
    cbn in H. lra.
  - rewrite Hi in Hj. injection Hj as ->. lia.
  - pose proof (StronglySorted_lookup _ _ j i s' s Hz Hgt Hj Hi) as H.
    cbn in H. lia.
Qed.

Lemma sorted_last_min (fr : list State) (b s : State) :
  tDesc fr -> last fr = Some b -> s ∈ fr -> (st_t b <= st_t s)%Q.
Proof.
  intros Ht Hb Hs. apply list_elem_of_lookup in Hs as [j Hj].
  rewrite last_lookup in Hb.
  assert (j < length fr)%nat as Hlen by (by eapply lookup_lt_Some).
  destruct (decide (j = pred (length fr))) as [->|Hne].
  - rewrite Hb in Hj. injection Hj as ->. apply Qle_refl.
  - pose proof (StronglySorted_lookup _ fr j (pred (length fr)) s b Ht
                  ltac:(lia) Hj Hb) as Hlt.
    cbn in Hlt. lra.
Qed.

(** The time scan returns the first state within the budget. *)
Lemma scanTime_run (target : Q) (fr : list State) :
  (scanTime target fr = None /\
   forall s, s ∈ fr -> ~ (st_t s <= target)%Q) \/
  (exists s, scanTime target fr = Some s /\ s ∈ fr /\ (st_t s <= target)%Q).
Proof.
  induction fr as [|c fr IH].
  - left. split; [done|]. intros s Hs. by apply elem_of_nil in Hs.
  - cbn [scanTime]. destruct (Qle_bool (st_t c) target) eqn:E.
    + right. exists c. split_and!; [done|left|by apply Qle_bool_iff].
    + destruct IH as [[-> Hnone]|(s & -> & Hs & Hin)].
      * left. split; [done|]. intros s Hs Hle.
        apply elem_of_cons in Hs as [->|Hs]; [|by apply (Hnone s)].
        apply Qle_bool_iff in Hle. congruence.
      * right. exists s. split_and!; [done|by right|done].
Qed.

(** On a frontier sorted both ways, a higher target never selects a state
    of less value or of less time, in either mode. *)
Lemma selectBest_monotone (sp r : Q) (mode : TargetType) (t1 t2 : Q)
    (base : Z) (fr : list State) :
  zDesc fr -> tDesc fr -> fr <> [] -> (t1 <= t2)%Q ->
  exists s1 s2,
    selectBest (mkSettings sp r mode t1) base fr = Some s1 /\
    selectBest (mkSettings sp r mode t2) base fr = Some s2 /\
    st_z s1 <= st_z s2 /\ (st_t s1 <= st_t s2)%Q.
Proof.
  intros Hz Ht Hne Hle.
  destruct (selectBest_elem (mkSettings sp r mode t1) base fr Hne) as (s1 & H1 & Hs1).
  destruct (selectBest_elem (mkSettings sp r mode t2) base fr Hne) as (s2 & H2 & Hs2).
  exists s1, s2. split; [done|]. split; [done|].
  unfold selectBest in H1, H2. cbn [targetType targetValue] in H1, H2.
  destruct mode.
  - destruct (scanZhenyuan_run base t2 fr None Hz)
      as [[E2 _]|(b2 & E2 & _ & Hr2 & _)]; rewrite E2 in H2.
    + destruct fr as [|c fr]; [done|]. cbn in H2.
      assert (s2 = c) as -> by congruence.
      by apply (sorted_head_max c fr).
    + assert (b2 = s2) as -> by congruence.
      destruct (scanZhenyuan_run base t1 fr None Hz)
        as [[_ Hnone]|(b1 & E1 & _ & _ & Hleast)].
      * exfalso. apply (Hnone s2 Hs2). by eapply Qle_trans.
      * rewrite E1 in H1. assert (b1 = s1) as -> by congruence.
        assert (st_z s1 <= st_z s2) as Hzle
          by (apply Hleast; [done|by eapply Qle_trans]).
        split; [done|]. by apply (frontier_time_of_value fr).
  - destruct (scanTime_run t1 fr) as [[E1 _]|(b1 & E1 & _ & Hw1)]; rewrite E1 in H1.
    + pose proof (sorted_last_min fr s1 s2 Ht H1 Hs2) as Htle.
      split; [|done]. by apply (frontier_value_of_time fr).
    + assert (b1 = s1) as -> by congruence.
      assert (scanTime t2 fr = Some s2) as E2.
      { destruct (scanTime_run t2 fr) as [[_ Hnone]|(b2 & E2 & _)].
        - exfalso. apply (Hnone s1 Hs1). by eapply Qle_trans.
        - rewrite E2 in H2 |- *. exact H2. }
      (* [s2] is the first state within the larger budget *)
      assert (st_z s1 <= st_z s2) as Hzle.
      { clear H2 E1 Hne. induction fr as [|c fr IH]; [done|].
        cbn [scanTime] in E2. destruct (Qle_bool (st_t c) t2) eqn:E.
        - assert (c = s2) as -> by congruence.
          by destruct (sorted_head_max _ fr s1 Hz Ht Hs1).
        - apply elem_of_cons in Hs1 as [<-|Hs1].
          + exfalso. assert (st_t s1 <= t2)%Q as Hb by (by eapply Qle_trans).
            apply Qle_bool_iff in Hb. congruence.
          + destruct (sorted_tail _ _ Hz Ht) as [Hz' Ht'].
            apply IH; [done..| |done]. by apply scanTime_elem in E2. }
      split; [done|]. by apply (frontier_time_of_value fr).
Qed.

(** X18: raising the target, the resource floor or the time budget, with
    everything else unchanged never lowers the total value or the total
    time that [optimize] returns. *)
Theorem optimize_target_monotone (arts0 : list Art) (sp r : Q)
    (mode : TargetType) (t1 t2 : Q) :
  ~ (sp == 0)%Q ->
  (t1 <= t2)%Q ->
  exists r1 r2,
    optimize arts0 (mkSettings sp r mode t1) = Some r1 /\
    optimize arts0 (mkSettings sp r mode t2) = Some r2 /\
    totalZhenyuan r1 <= totalZhenyuan r2 /\
    (totalTimeHours r1 <= totalTimeHours r2)%Q.
Proof.
  intros _ Hle. destruct (decide (flatten arts0 = [])) as [He|Hne].
  - rewrite !(optimize_empty _ _ He). eexists _, _.
    split_and!; [done..|cbn; lia|cbn; lra].
  - destruct (frontierOf_sorted (mkSettings sp r mode t1) (flatten arts0)) as [Hz Ht].
    destruct (selectBest_monotone sp r mode t1 t2 (baseTotal (flatten arts0))
                (frontierOf (mkSettings sp r mode t1) (flatten arts0)) Hz Ht
                (frontierOf_nonempty _ _) Hle)
      as (s1 & s2 & H1 & H2 & Hzle & Htle).
    rewrite <- (frontierOf_settings (mkSettings sp r mode t2)
                  (mkSettings sp r mode t1)) in H2 by done.
    rewrite (optimize_selected _ _ _ Hne H1), (optimize_selected _ _ _ Hne H2).
    eexists _, _. split_and!; [reflexivity|reflexivity|cbn; lia|exact Htle].
Qed.

Lemma optimize_target_monotone_witness :
  exists r1 r2,
    optimize [mkArt "a" 2 true 2] (mkSettings 1 0 time 100) = Some r1 /\
    optimize [mkArt "a" 2 true 2] (mkSettings 1 0 time 200) = Some r2 /\
    totalZhenyuan r1 <= totalZhenyuan r2 /\
    (totalTimeHours r1 <= totalTimeHours r2)%Q.
Proof.
  apply (optimize_target_monotone [mkArt "a" 2 true 2] 1 0 time 100 200);
    intros H; discriminate H.
Defined.

(** ** The highest value is always on the frontier *)

Lemma highestDelta_snoc (instances : list Instance) (inst : Instance) :
  highestDelta (instances ++ [inst])
  = highestDelta instances + Z.max 0 (valueRange inst).
Proof.
  unfold highestDelta. induction instances as [|x xs IH]; cbn; [lia|].
  cbn in IH. rewrite IH. lia.
Qed.

(** Some option of an instance gains the most an option can gain. *)
Lemma computeOptions_top (settings : Settings) (inst : Instance) :
  exists o, o ∈ computeOptions settings inst /\
            opt_z o - baseZ (computeOptions settings inst)
            = Z.max 0 (valueRange inst).
Proof.
  rewrite baseZ_computeOptions.
  destruct (Z.le_ge_cases 0 (valueRange inst)) as [Hr|Hr].
  - exists (optionAt settings inst 40). split.
    + apply list_elem_of_lookup. exists 40%nat. apply lookup_computeOptions. lia.
    + unfold valueRange in *. unfold optionAt. cbn [opt_z].
      change (99 + 10 * Z.of_nat 40) with 499. lia.
  - exists (optionAt settings inst 0). split.
    + apply list_elem_of_lookup. exists 0%nat. apply lookup_computeOptions. lia.
    + unfold valueRange in *. unfold optionAt. cbn [opt_z].
      change (99 + 10 * Z.of_nat 0) with 99. lia.
Qed.

(** The first state of every frontier of the fold has the highest value
    delta that the instances merged so far can reach. *)
Lemma prefixFrontier_head (settings : Settings) (instances : list Instance)
    (k : nat) :
  (k <= length instances)%nat ->
  exists h, head (prefixFrontier settings instances k) = Some h /\
            st_z h = highestDelta (take k instances).
Proof.
  induction k as [|k IH]; intros Hk.
  - exists (mkState 0 0%Q (replicate (length instances) 99)). by rewrite take_0.
  - destruct (IH ltac:(lia)) as (h & Hh & Hhz).
    destruct (lookup_lt_is_Some_2 instances k ltac:(lia)) as [inst Hinst].
    rewrite (prefixFrontier_S _ _ _ inst Hinst), (take_S_r _ _ inst Hinst),
      highestDelta_snoc.
    unfold mergeStep.
    destruct (computeOptions_top settings inst) as (o & Ho & Hgain).
    set (c0 := candidate k (computeOptions settings inst) h o).
    assert (c0 ∈ sortByZDesc (expand k (computeOptions settings inst)
                                     (prefixFrontier settings instances k))) as Hc0.
    { apply elem_of_sortByZDesc, elem_of_expand. exists h, o.
      split_and!; [|done..]. by apply head_Some_elem_of. }
    pose proof (sortByZDesc_sorted (expand k (computeOptions settings inst)
                                          (prefixFrontier settings instances k)))
      as Hsorted.
    assert (forall c, c ∈ sortByZDesc (expand k (computeOptions settings inst)
                                              (prefixFrontier settings instances k)) ->
                      st_z c <= highestDelta (take k instances)
                                + Z.max 0 (valueRange inst)) as Hup.
    { intros c Hc. rewrite elem_of_sortByZDesc in Hc.
      apply elem_of_expand in Hc as (s0 & o0 & Hs0 & Ho0 & ->).
      pose proof (prefixFrontier_range _ _ _ s0 Hs0).
      pose proof (computeOptions_span _ _ _ Ho0). cbn. lia. }
    destruct (sortByZDesc _) as [|c l]; [by apply elem_of_nil in Hc0|].
    exists c. split; [apply prune_head|].
    assert (st_z c0 <= st_z c) as Hlow.
    { apply elem_of_cons in Hc0 as [->|Hc0]; [lia|].
      apply StronglySorted_inv in Hsorted as [_ Hall].
      rewrite Forall_forall in Hall. exact (Hall c0 Hc0). }
    specialize (Hup c ltac:(left)).
    assert (st_z c0 = highestDelta (take k instances) + Z.max 0 (valueRange inst))
      by (unfold c0; cbn; lia).
    lia.
Qed.

Lemma frontierOf_head (settings : Settings) (instances : list Instance) :
  exists h, head (frontierOf settings instances) = Some h /\
            st_z h = highestDelta instances.
Proof.
  destruct (prefixFrontier_head settings instances (length instances) ltac:(lia))
    as (h & Hh & Hz).
  rewrite prefixFrontier_all in Hh. rewrite firstn_all in Hz. by exists h.
Qed.

(** With difficulties of at least 0 the highest delta leads to the total
    of all instances at level 499. *)
Lemma highest_total (instances : list Instance) :
  Forall (fun inst => 0 <= difficulty (art inst))%Q instances ->
  baseTotal instances + highestDelta instances
  = chosenValue instances (replicate (length instances) 499).
Proof.
  intros Hd. destruct (delta_range_nonneg instances Hd) as [_ ->].
  rewrite baseTotal_foldr. unfold chosenValue, valueRange, levelValue.
  clear Hd. induction instances as [|inst instances IH]; [done|].
  cbn [length replicate zip_with foldr fmap list_fmap]. lia.
Qed.

Lemma flatten_difficulty (arts0 : list Art) (P : Q -> Prop) :
  Forall (fun a => P (difficulty a)) arts0 ->
  Forall (fun inst => P (difficulty (art inst))) (flatten arts0).
Proof.
  rewrite !Forall_forall. intros Hall inst Hinst.
  apply Hall. by apply elem_of_flatten.
Qed.

(** X19: with difficulties of at least 0 the returned total value never
    exceeds the total of all instances at level 499. *)
Theorem optimize_value_bound (arts0 : list Art) (settings : Settings) :
  ~ (speed settings == 0)%Q ->
  Forall (fun a => 0 <= difficulty a)%Q arts0 ->
  exists res,
    optimize arts0 settings = Some res /\
    totalZhenyuan res
    <= chosenValue (flatten arts0) (replicate (length (flatten arts0)) 499).
Proof.
  intros _ Hd. apply (flatten_difficulty _ (fun d => 0 <= d)%Q) in Hd.
  destruct (decide (flatten arts0 = [])) as [He|Hne].
  - rewrite (optimize_empty _ _ He), He. by eexists.
  - destruct (optimize_unfold arts0 settings Hne) as (s & Hs & _ & ->).
    eexists. split; [done|]. cbn [totalZhenyuan].
    rewrite <- highest_total by done.
    rewrite <- prefixFrontier_all in Hs. apply prefixFrontier_range in Hs.
    rewrite firstn_all in Hs. lia.
Qed.

Lemma optimize_value_bound_witness :
  exists res,
    optimize [mkArt "a" 2 true 2] (mkSettings 1 0 zhenyuan 0) = Some res /\
    totalZhenyuan res
    <= chosenValue (flatten [mkArt "a" 2 true 2])
                   (replicate (length (flatten [mkArt "a" 2 true 2])) 499).
Proof.
  apply (optimize_value_bound [mkArt "a" 2 true 2] (mkSettings 1 0 zhenyuan 0)).
  - intros H. discriminate H.
  - repeat constructor. intros H. discriminate H.
Defined.

(** X20: best effort.  In resource-floor mode with difficulties of at
    least 0 and a target above the total of all instances at level 499,
    which no choice of levels reaches, [optimize] returns exactly that
    total. *)
Theorem optimize_unreachable_target (arts0 : list Art) (settings : Settings) :
  ~ (speed settings == 0)%Q ->
  Forall (fun a => 0 <= difficulty a)%Q arts0 ->
  targetType settings = zhenyuan ->
  (inject_Z (chosenValue (flatten arts0) (replicate (length (flatten arts0)) 499%Z))
   < targetValue settings)%Q ->
  exists res,
    optimize arts0 settings = Some res /\
    totalZhenyuan res
    = chosenValue (flatten arts0) (replicate (length (flatten arts0)) 499).
Proof.
  intros _ Hd Hmode Htarget.
  apply (flatten_difficulty _ (fun d => 0 <= d)%Q) in Hd.
  destruct (decide (flatten arts0 = [])) as [He|Hne].
  - rewrite (optimize_empty _ _ He), He. by eexists.
  - destruct (frontierOf_head settings (flatten arts0)) as (h & Hh & Hhz).
    rewrite <- highest_total in Htarget |- * by done.
    assert (selectBest settings (baseTotal (flatten arts0))
                       (frontierOf settings (flatten arts0)) = Some h) as Hsel.
    { unfold selectBest. rewrite Hmode.
      destruct (frontierOf_sorted settings (flatten arts0)) as [Hz _].
      destruct (scanZhenyuan_run (baseTotal (flatten arts0)) (targetValue settings)
                  (frontierOf settings (flatten arts0)) None Hz)
        as [[-> _]|(s & _ & Hs & Hreach & _)]; [exact Hh|]. exfalso.
      rewrite <- prefixFrontier_all in Hs. apply prefixFrontier_range in Hs.
      rewrite firstn_all in Hs.
      assert (inject_Z (st_z s + baseTotal (flatten arts0))
              <= inject_Z (baseTotal (flatten arts0) + highestDelta (flatten arts0)))%Q
        by (rewrite <- Zle_Qle; lia).
      lra. }
    rewrite (optimize_selected _ _ _ Hne Hsel). eexists. split; [done|].
    cbn [totalZhenyuan]. lia.
Qed.

Lemma optimize_unreachable_target_witness :
  exists res,
    optimize [mkArt "a" 2 true 2] (mkSettings 1 0 zhenyuan 1000000) = Some res /\
    totalZhenyuan res
    = chosenValue (flatten [mkArt "a" 2 true 2])
                  (replicate (length (flatten [mkArt "a" 2 true 2])) 499).
Proof.
  apply (optimize_unreachable_target [mkArt "a" 2 true 2]
           (mkSettings 1 0 zhenyuan 1000000)).
  - intros H. discriminate H.
  - repeat constructor. intros H. discriminate H.
  - reflexivity.
  - vm_compute. reflexivity.
Defined.

(** X21: a reachable target is met.  In resource-floor mode with
    difficulties of at least 0 and a target of at most the total of all
    instances at level 499, the returned total reaches the target; the
    bucket filter never drops the state of highest value. *)
Theorem optimize_target_met (arts0 : list Art) (settings : Settings) :
  ~ (speed settings == 0)%Q ->
  Forall (fun a => 0 <= difficulty a)%Q arts0 ->
  targetType settings = zhenyuan ->
  (targetValue settings
   <= inject_Z (chosenValue (flatten arts0)
                            (replicate (length (flatten arts0)) 499%Z)))%Q ->
  exists res,
    optimize arts0 settings = Some res /\
    (targetValue settings <= inject_Z (totalZhenyuan res))%Q.
Proof.
  intros _ Hd Hmode Htarget.
  apply (flatten_difficulty _ (fun d => 0 <= d)%Q) in Hd.
  destruct (decide (flatten arts0 = [])) as [He|Hne].
  { rewrite (optimize_empty _ _ He). rewrite He in Htarget.
    eexists. split; [done|]. exact Htarget. }
  destruct (frontierOf_head settings (flatten arts0)) as (h & Hh & Hhz).
  rewrite <- highest_total in Htarget by done.
  destruct (frontierOf_sorted settings (flatten arts0)) as [Hz _].
  destruct (scanZhenyuan_run (baseTotal (flatten arts0)) (targetValue settings)
              (frontierOf settings (flatten arts0)) None Hz)
    as [[_ Hnone]|(s & Hscan & _ & Hreach & _)].
  - exfalso. apply (Hnone h); [by apply head_Some_elem_of|].
    rewrite Hhz. by rewrite (Z.add_comm (highestDelta _)).
  - assert (selectBest settings (baseTotal (flatten arts0))
                       (frontierOf settings (flatten arts0)) = Some s) as Hsel.
    { unfold selectBest. by rewrite Hmode, Hscan. }
    rewrite (optimize_selected _ _ _ Hne Hsel). eexists. split; [done|].
    exact Hreach.
Qed.

Lemma optimize_target_met_witness :
  exists res,
    optimize [mkArt "a" 2 true 2] (mkSettings 1 0 zhenyuan 5000) = Some res /\
    (5000 <= inject_Z (totalZhenyuan res))%Q.
Proof.
  apply (optimize_target_met [mkArt "a" 2 true 2] (mkSettings 1 0 zhenyuan 5000)).
  - intros H. discriminate H.
  - repeat constructor. intros H. discriminate H.
  - reflexivity.
  - vm_compute. intros H. discriminate H.
Defined.





(** ** Arts that gain a bucket width at level 109 *)

Lemma mergeFrom_baseline (instanceOptions : list (list Opt)) (i n : nat)
    (frontier : list State) :
  Forall optionsGap instanceOptions ->
  hasBaseline frontier (replicate n 99) ->
  hasBaseline (mergeFrom i instanceOptions frontier) (replicate n 99).
Proof.
  intros Hall. revert i frontier.
  induction Hall as [|o os Ho Hall IH]; intros i frontier Hb; [done|].
  cbn [mergeFrom]. apply IH.
  pose proof (mergeStep_baseline i o frontier (replicate n 99) Ho Hb) as Hstep.
  by rewrite insert_replicate in Hstep.
Qed.

(** When every art has a positive difficulty and gains at least 100 at
    level 109, the final frontier ends with the all-level-99 state. *)
Lemma frontierOf_baseline (settings : Settings) (instances : list Instance) :
  Forall (fun inst =>
            (0 < difficulty (art inst))%Q /\
            100 <= levelValue inst 109 - levelValue inst 99) instances ->
  (0 < speed settings)%Q -> (reduction settings <= 100)%Q ->
  hasBaseline (frontierOf settings instances) (replicate (length instances) 99).
Proof.
  intros Hall Hsp Hr. apply mergeFrom_baseline.
  - apply Forall_fmap. eapply Forall_impl; [exact Hall|].
    intros inst [Hd Hgap]. by apply computeOptions_gap.
  - exists []. split; [done|]. intros s Hs. by apply elem_of_nil in Hs.
Qed.

Lemma flatten_Forall (arts0 : list Art) (P : Art -> Prop) :
  Forall P arts0 -> Forall (fun inst => P (art inst)) (flatten arts0).
Proof.
  rewrite !Forall_forall. intros Hall inst Hinst.
  apply Hall. by apply elem_of_flatten.
Qed.

(** X23: a time budget is met.  When every art has a positive difficulty
    and is worth at least 100 more at level 109 than at level 99, with a
    positive speed and a reduction of at most 100 percent, the total time
    returned in time-budget mode is within every budget of at least 0. *)
Theorem optimize_budget_met (arts0 : list Art) (settings : Settings) :
  Forall (fun a => (0 < difficulty a)%Q /\
                   100 <= getZhenyuan 109 (difficulty a) (isMain a)
                          - getZhenyuan 99 (difficulty a) (isMain a)) arts0 ->
  (0 < speed settings)%Q -> (reduction settings <= 100)%Q ->
  targetType settings = time ->
  (0 <= targetValue settings)%Q ->
  exists res,
    optimize arts0 settings = Some res /\
    (totalTimeHours res <= targetValue settings)%Q.
Proof.
  intros Harts Hsp Hr Hmode Hbudget.
  destruct (decide (flatten arts0 = [])) as [He|Hne].
  { rewrite (optimize_empty _ _ He). eexists. split; [done|]. exact Hbudget. }
  apply (flatten_Forall arts0) in Harts.
  destruct (frontierOf_baseline settings (flatten arts0) Harts Hsp Hr)
    as (fr' & Hfr & _).
  destruct (scanTime_run (targetValue settings) (frontierOf settings (flatten arts0)))
    as [[_ Hnone]|(s & Hscan & _ & Hfits)].
  - exfalso.
    apply (Hnone (mkState 0 0%Q (replicate (length (flatten arts0)) 99))).
    + rewrite Hfr. apply elem_of_app. right. left.
    + exact Hbudget.
  - assert (selectBest settings (baseTotal (flatten arts0))
                       (frontierOf settings (flatten arts0)) = Some s) as Hsel.
    { unfold selectBest. by rewrite Hmode, Hscan. }
    rewrite (optimize_selected _ _ _ Hne Hsel). eexists. split; [done|].
    exact Hfits.
Qed.

Lemma optimize_budget_met_witness :
  exists res,
    optimize [mkArt "a" 2 true 2; mkArt "b" 3 false 1] (mkSettings 1 0 time 5)
    = Some res /\
    (totalTimeHours res <= 5)%Q.
Proof.
  apply (optimize_budget_met [mkArt "a" 2 true 2; mkArt "b" 3 false 1]
           (mkSettings 1 0 time 5)).
  - repeat constructor; cbn [difficulty isMain]; try reflexivity;
      vm_compute; intros H; discriminate H.
  - reflexivity.
  - intros H. discriminate H.
  - reflexivity.
  - intros H. discriminate H.
Defined.

(** X24: a floor at the baseline costs nothing.  Under the same conditions
    on arts, speed and reduction, in resource-floor mode with a target of
    at most the baseline total, [optimize] returns the baseline total,
    time 0 and level 99 for every instance. *)
Theorem optimize_floor_at_baseline (arts0 : list Art) (settings : Settings) :
  Forall (fun a => (0 < difficulty a)%Q /\
                   100 <= getZhenyuan 109 (difficulty a) (isMain a)
                          - getZhenyuan 99 (difficulty a) (isMain a)) arts0 ->
  (0 < speed settings)%Q -> (reduction settings <= 100)%Q ->
  targetType settings = zhenyuan ->
  (targetValue settings <= inject_Z (baseTotal (flatten arts0)))%Q ->
  exists res,
    optimize arts0 settings = Some res /\
    totalZhenyuan res = baseTotal (flatten arts0) /\
    totalTimeHours res = 0%Q /\
    forall k l, arts res !! k = Some l -> l = 99.
Proof.
  intros Harts Hsp Hr Hmode Htarget.
  destruct (decide (flatten arts0 = [])) as [He|Hne].
  { rewrite (optimize_empty _ _ He), He. eexists. split; [done|].
    split_and!; [done..|]. intros k l H. cbn [arts] in H.
    by rewrite lookup_empty in H. }
  apply (flatten_Forall arts0) in Harts.
  destruct (frontierOf_baseline settings (flatten arts0) Harts Hsp Hr)
    as (fr' & Hfr & Hfr').
  assert (selectBest settings (baseTotal (flatten arts0))
                     (frontierOf settings (flatten arts0))
          = Some (mkState 0 0%Q (replicate (length (flatten arts0)) 99))) as Hsel.
  { unfold selectBest. rewrite Hmode, scanZhenyuan_all.
    - by rewrite Hfr, last_snoc.
    - intros s Hs. eapply Qle_trans; [exact Htarget|]. rewrite <- Zle_Qle.
      rewrite Hfr in Hs. apply elem_of_app in Hs as [Hs|Hs].
      + destruct (Hfr' s Hs). lia.
      + apply list_elem_of_singleton in Hs as ->. cbn. lia. }
  rewrite (optimize_selected _ _ _ Hne Hsel). eexists. split; [done|].
  cbn [totalZhenyuan totalTimeHours arts st_z st_t]. split_and!; [lia|done|].
  intros k l Hk. apply formatArts_lookup_Some in Hk as (idx & inst & Hidx & _ & ->).
  cbn [choices]. apply lookup_lt_Some in Hidx.
  by rewrite lookup_replicate_2.
Qed.

Lemma optimize_floor_at_baseline_witness :
  exists res,
    optimize [mkArt "a" 2 true 2; mkArt "b" 3 false 1] (mkSettings 1 0 zhenyuan 0)
    = Some res /\
    totalZhenyuan res = baseTotal (flatten [mkArt "a" 2 true 2; mkArt "b" 3 false 1]) /\
    totalTimeHours res = 0%Q /\
    forall k l, arts res !! k = Some l -> l = 99.
Proof.
  apply (optimize_floor_at_baseline [mkArt "a" 2 true 2; mkArt "b" 3 false 1]
           (mkSettings 1 0 zhenyuan 0)).
  - repeat constructor; cbn [difficulty isMain]; try reflexivity;
      vm_compute; intros H; discriminate H.
  - reflexivity.
  - intros H. discriminate H.
  - reflexivity.
  - vm_compute. intros H. discriminate H.
Defined.

(** ** Concrete runs *)

Lemma prefixFrontier_norm (settings : Settings) (instances : list Instance)
    (k : nat) :
  prefixFrontierN settings instances k
  = normState <$> prefixFrontier settings instances k.
Proof.
  unfold prefixFrontierN, prefixFrontier.
  by rewrite <- mergeFrom_norm, optionsN_fmap, fmap_take.
Qed.

Lemma normState_inv (a : State) (v : Z) (hours : Q) (ch : list Z) :
  normState a = mkState v hours ch ->
  st_z a = v /\ (st_t a == hours)%Q /\ choices a = ch.
Proof.
  intros [= <- <- <-]. split; [reflexivity|]. split; [|reflexivity].
  symmetry. apply Qred_correct.
Qed.

(** Reading two neighbouring states off a reduced frontier. *)
Lemma slice2_norm (fr frN : list State) (j : nat) (x y : State) :
  frN = normState <$> fr ->
  take 2 (drop j frN) = [x; y] ->
  exists a b, fr !! j = Some a /\ fr !! S j = Some b /\
              normState a = x /\ normState b = y.
Proof.
  intros -> H.
  assert ((normState <$> fr) !! j = Some x) as Hx.
  { rewrite <- (Nat.add_0_r j), <- lookup_drop.
    rewrite <- (lookup_take_lt _ 2) by lia. by rewrite H. }
  assert ((normState <$> fr) !! S j = Some y) as Hy.
  { rewrite <- (Nat.add_1_r j), <- lookup_drop.
    rewrite <- (lookup_take_lt _ 2) by lia. by rewrite H. }
  rewrite list_lookup_fmap in Hx, Hy.
  destruct (fr !! j) as [a|]; [|done]. destruct (fr !! S j) as [b|]; [|done].
  cbn in Hx, Hy. exists a, b. split_and!; congruence.
Qed.

(** The frontier of a single instance is the outcome of one merge step. *)
Lemma frontierOf_single (settings : Settings) (inst : Instance) :
  frontierOf settings [inst]
  = mergeStep 0 (computeOptions settings inst) (initialFrontier 1).
Proof. reflexivity. Qed.

(** The last two states of the frontier of the example instance. *)
Lemma example_frontier_tail (mode : TargetType) (target : Q) :
  exists a b,
    frontierOf (mkSettings 1 0 mode target) [exampleInstance] !! 39%nat = Some a /\
    frontierOf (mkSettings 1 0 mode target) [exampleInstance] !! 40%nat = Some b /\
    (st_z a = 193 /\ (st_t a == 2224579 # 10)%Q /\ choices a = [109]) /\
    (st_z b = 0 /\ (st_t b == 0)%Q /\ choices b = [99]).
Proof.
  destruct (slice2_norm _ _ 39 (mkState 193 (2224579 # 10) [109]) (mkState 0 0 [99])
              (frontierOf_norm (mkSettings 1 0 mode target) [exampleInstance]))
    as (a & b & Ha & Hb & Hna & Hnb).
  { vm_compute. reflexivity. }
  exists a, b. split; [exact Ha|]. split; [exact Hb|].
  split; [exact (normState_inv _ _ _ _ Hna)|exact (normState_inv _ _ _ _ Hnb)].
Qed.

Lemma optimize_baseline_target_witness :
  optimize [mkArt "a" 2 true 2] (mkSettings 1 0 zhenyuan 1148)
  = Some (mkResult 1148 0%Q (<["a_1" := 99]> (<["a_0" := 99]> ∅)) []).
Proof.
  refine (optimize_baseline_target "a" 2 true 1 0 1148 _ _ _ _ _ _).
  - reflexivity.
  - reflexivity.
  - intros H. discriminate H.
  - intros H. discriminate H.
  - vm_compute. intros H. discriminate H.
  - reflexivity.
Defined.

(** C4, as stated, fails at difficulty 1: level 109 is worth 383, only 96
    more than the 287 of level 99, so the candidate that raises the first
    instance to 109 shares bucket 0 with the baseline state and, having the
    higher value, takes its place.  The target 574 is met by the baseline,
    yet the run returns 111229.95 hours and level 109 for the first
    instance. *)
Lemma optimize_baseline_lost :
  2 * getZhenyuan 99 1 true = 574 /\
  getZhenyuan 109 1 true - getZhenyuan 99 1 true = 96 /\
  exists r,
    optimize [mkArt "a" 1 true 2] (mkSettings 1 0 zhenyuan 574) = Some r /\
    totalZhenyuan r = 670 /\
    (totalTimeHours r == 2224599 # 20)%Q /\
    arts r = <["a_1" := 99]> (<["a_0" := 109]> ∅).
Proof.
  split; [reflexivity|]. split; [reflexivity|].
  apply (optimizeN_Some _ _ 670 (2224599 # 20) _ []).
  vm_compute. reflexivity.
Qed.

Lemma mergeStep_order_witness :
  exists a b,
    mergeStep 0 (computeOptions (mkSettings 1 0 zhenyuan 0) exampleInstance)
              (initialFrontier 1) !! 39%nat = Some a /\
    mergeStep 0 (computeOptions (mkSettings 1 0 zhenyuan 0) exampleInstance)
              (initialFrontier 1) !! 40%nat = Some b /\
    st_z b < st_z a /\ (st_t b < st_t a)%Q.
Proof.
  destruct (example_frontier_tail zhenyuan 0) as (a & b & Ha & Hb & _).
  rewrite frontierOf_single in Ha, Hb.
  exists a, b. split; [exact Ha|]. split; [exact Hb|].
  destruct (mergeStep_order 0
              (computeOptions (mkSettings 1 0 zhenyuan 0) exampleInstance)
              (initialFrontier 1) (mkSettings 1 0 zhenyuan 0) [] 0) as [H _].
  exact (H 39%nat 40%nat a b ltac:(lia) Ha Hb).
Defined.

(** C2, as stated, fails on the frontier of a single instance of
    difficulty 2: its last two states have the values 193 and 0 and the
    times 222457.9 and 0, so along the frontier the value decreases and
    the time decreases with it. *)
Lemma frontier_time_decreases_with_value :
  exists a b,
    mergeStep 0 (computeOptions (mkSettings 1 0 zhenyuan 0) exampleInstance)
              (initialFrontier 1) !! 39%nat = Some a /\
    mergeStep 0 (computeOptions (mkSettings 1 0 zhenyuan 0) exampleInstance)
              (initialFrontier 1) !! 40%nat = Some b /\
    st_z a = 193 /\ st_z b = 0 /\
    (st_t a == 2224579 # 10)%Q /\ (st_t b == 0)%Q /\
    ~ (st_t a < st_t b)%Q.
Proof.
  destruct (example_frontier_tail zhenyuan 0)
    as (a & b & Ha & Hb & (Haz & Hat & _) & (Hbz & Hbt & _)).
  rewrite frontierOf_single in Ha, Hb.
  exists a, b.
  split; [exact Ha|]. split; [exact Hb|]. split; [exact Haz|]. split; [exact Hbz|].
  split; [exact Hat|]. split; [exact Hbt|].
  rewrite Hat, Hbt. intros H. discriminate H.
Qed.

Lemma selectBest_time_budget_witness :
  (exists s,
      frontierOf (mkSettings 1 0 time 200000) [exampleInstance] !! 40%nat = Some s /\
      st_z s = 0 /\
      selectBest (mkSettings 1 0 time 200000) 574
                 (frontierOf (mkSettings 1 0 time 200000) [exampleInstance]) = Some s /\
      forall s', s' ∈ frontierOf (mkSettings 1 0 time 200000) [exampleInstance] ->
                 (st_t s' <= 200000)%Q -> st_z s' <= st_z s) /\
  (exists s,
      selectBest (mkSettings 1 0 time (-1)) 574
                 (frontierOf (mkSettings 1 0 time (-1)) [exampleInstance]) = Some s /\
      last (frontierOf (mkSettings 1 0 time (-1)) [exampleInstance]) = Some s).
Proof.
  split.
  - destruct (example_frontier_tail time 200000)
      as (p & s & Hp & Hs & (_ & Hpt & _) & (Hsz & Hst & _)).
    exists s. split; [exact Hs|]. split; [exact Hsz|].
    destruct (selectBest_time_budget (mkSettings 1 0 time 200000) [exampleInstance]
                574 eq_refl) as [H _].
    apply (H 40%nat s Hs).
    + cbn [targetValue]. rewrite Hst. intros Hgt. discriminate Hgt.
    + intros j s' Hj Hs' Hle. cbn [targetValue] in Hle.
      destruct (frontierOf_sorted (mkSettings 1 0 time 200000) [exampleInstance])
        as [_ Ht].
      assert (st_t p <= st_t s')%Q as Hps.
      { destruct (decide (j = 39%nat)) as [->|Hne].
        - rewrite Hp in Hs'. injection Hs' as ->. apply Qle_refl.
        - apply Qlt_le_weak.
          apply (StronglySorted_lookup (fun a b => (st_t b < st_t a)%Q) _ j 39 s' p Ht);
            [lia|exact Hs'|exact Hp]. }
      rewrite Hpt in Hps.
      assert (2224579 # 10 <= 200000)%Q as Hbad by (eapply Qle_trans; eassumption).
      apply Hbad. reflexivity.
  - destruct (selectBest_time_budget (mkSettings 1 0 time (-1)) [exampleInstance]
                574 eq_refl) as [_ H].
    destruct H as (s & H1 & H2 & _).
    + intros s Hs Hle. rewrite <- prefixFrontier_all in Hs.
      apply prefixFrontier_time_nonneg in Hs; [|repeat constructor|reflexivity|].
      * cbn [targetValue] in Hle.
        assert (0 <= -1)%Q as Hbad by (eapply Qle_trans; eassumption).
        apply Hbad. reflexivity.
      * intros Hgt. discriminate Hgt.
    + exists s. split; [exact H1|exact H2].
Defined.

(** A run with two replicas of difficulty 2.  The second merge step meets
    the candidate of value 3849 (levels 189 and 119) as the first and
    highest of bucket 38; its time 6359437.9 is not below the 6247440.7 of
    the state kept just before it, so it is dropped, and bucket 38 goes to
    the next candidate, of value 3841 (levels 179 and 139). *)
Lemma replicas_bucket_38 :
  flatten [exampleReplicas] = [exampleReplica 0; exampleReplica 1] /\
  exists s1 o p k,
    s1 ∈ prefixFrontier (mkSettings 1 0 zhenyuan 0) (flatten [exampleReplicas]) 1 /\
    o ∈ computeOptions (mkSettings 1 0 zhenyuan 0) (exampleReplica 1) /\
    frontierOf (mkSettings 1 0 zhenyuan 0) (flatten [exampleReplicas]) !! 210%nat
    = Some p /\
    frontierOf (mkSettings 1 0 zhenyuan 0) (flatten [exampleReplicas]) !! 211%nat
    = Some k /\
    let c := candidate 1 (computeOptions (mkSettings 1 0 zhenyuan 0) (exampleReplica 1))
                       s1 o in
    (st_z p = 4092 /\ (st_t p == 62474407 # 10)%Q) /\
    (st_z c = 3849 /\ (st_t c == 63594379 # 10)%Q /\ choices c = [189; 119]) /\
    (st_z k = 3841 /\ (st_t k == 29884084 # 5)%Q /\ choices k = [179; 139]) /\
    bucketOf c = 38 /\ bucketOf k = 38.
Proof.
  assert (flatten [exampleReplicas] = [exampleReplica 0; exampleReplica 1]) as Hflat
    by reflexivity.
  split; [exact Hflat|]. rewrite Hflat.
  destruct (slice2_norm _ _ 31 (mkState 3425 (58437891 # 10) [189; 99])
              (mkState 2824 (23034536 # 5) [179; 99])
              (prefixFrontier_norm (mkSettings 1 0 zhenyuan 0)
                 [exampleReplica 0; exampleReplica 1] 1))
    as (s1 & s1' & Hs1 & _ & Hns1 & _).
  { vm_compute. reflexivity. }
  destruct (normState_inv _ _ _ _ Hns1) as (Hs1z & Hs1t & Hs1c).
  destruct (slice2_norm _ _ 210 (mkState 4092 (62474407 # 10) [169; 159])
              (mkState 3841 (29884084 # 5) [179; 139])
              (frontierOf_norm (mkSettings 1 0 zhenyuan 0)
                 [exampleReplica 0; exampleReplica 1]))
    as (p & k & Hp & Hk & Hnp & Hnk).
  { vm_compute. reflexivity. }
  destruct (normState_inv _ _ _ _ Hnp) as (Hpz & Hpt & _).
  destruct (normState_inv _ _ _ _ Hnk) as (Hkz & Hkt & Hkc).
  exists s1, (optionAt (mkSettings 1 0 zhenyuan 0) (exampleReplica 1) 2), p, k.
  split; [exact (list_elem_of_lookup_2 _ _ _ Hs1)|].
  split.
  { apply (list_elem_of_lookup_2 _ 2).
    exact (lookup_computeOptions _ _ 2 ltac:(lia)). }
  split; [exact Hp|]. split; [exact Hk|].
  unfold candidate, bucketOf. cbn [st_z st_t choices].
  rewrite baseZ_computeOptions, Hs1z, Hs1t, Hs1c, Hkz.
  split; [split; [exact Hpz|exact Hpt]|].
  split.
  { split; [vm_compute; reflexivity|].
    split; [vm_compute; reflexivity|vm_compute; reflexivity]. }
  split; [split; [reflexivity|split; [exact Hkt|exact Hkc]]|].
  split; vm_compute; reflexivity.
Qed.

(** The second merge step of the run with two replicas. *)
Lemma replicas_second_step :
  frontierOf (mkSettings 1 0 zhenyuan 0) (flatten [exampleReplicas])
  = prune (sortByZDesc
             (expand 1 (computeOptions (mkSettings 1 0 zhenyuan 0) (exampleReplica 1))
                     (prefixFrontier (mkSettings 1 0 zhenyuan 0)
                                     (flatten [exampleReplicas]) 1))).
Proof.
  assert (flatten [exampleReplicas] = [exampleReplica 0; exampleReplica 1]) as ->
    by reflexivity.
  rewrite <- prefixFrontier_all.
  change (length [exampleReplica 0; exampleReplica 1]) with 2%nat.
  rewrite (prefixFrontier_S (mkSettings 1 0 zhenyuan 0)
             [exampleReplica 0; exampleReplica 1] 1 (exampleReplica 1) eq_refl).
  unfold mergeStep. reflexivity.
Qed.

(** C1, as stated, fails in its description of the state kept for a
    bucket: that state need not be the first candidate met in the bucket,
    nor the one of highest value.  In the second merge step of the run
    with two replicas of difficulty 2 the state [k] kept for bucket 38 has
    value 3841, while the candidate [c] of value 3849 of the same bucket
    comes before it in the scan and is dropped by the time test. *)
Lemma prune_keeps_not_first_of_bucket :
  let candidates :=
    sortByZDesc
      (expand 1 (computeOptions (mkSettings 1 0 zhenyuan 0) (exampleReplica 1))
              (prefixFrontier (mkSettings 1 0 zhenyuan 0)
                              (flatten [exampleReplicas]) 1)) in
  exists c k,
    c ∈ candidates /\ k ∈ prune candidates /\
    st_z c = 3849 /\ st_z k = 3841 /\
    bucketOf c = 38 /\ bucketOf k = 38.
Proof.
  intros candidates.
  destruct replicas_bucket_38
    as (_ & s1 & o & p & k & Hs1 & Ho & _ & Hk & _ & (Hcz & _) & (Hkz & _) & Hcb & Hkb).
  exists (candidate 1 (computeOptions (mkSettings 1 0 zhenyuan 0) (exampleReplica 1))
                    s1 o), k.
  split.
  { apply elem_of_sortByZDesc, elem_of_expand. exists s1, o.
    split; [exact Hs1|]. split; [exact Ho|reflexivity]. }
  split.
  { unfold candidates. rewrite <- replicas_second_step.
    exact (list_elem_of_lookup_2 _ _ _ Hk). }
  split; [exact Hcz|]. split; [exact Hkz|]. split; [exact Hcb|exact Hkb].
Qed.

Lemma optimize_nonneg_witness :
  exists r, optimize [mkArt "a" 2 true 1] (mkSettings 1 0 zhenyuan 0) = Some r /\
            baseTotal (flatten [mkArt "a" 2 true 1]) <= totalZhenyuan r /\
            (0 <= totalTimeHours r)%Q.
Proof.
  apply (optimize_nonneg [mkArt "a" 2 true 1] (mkSettings 1 0 zhenyuan 0)).
  - by vm_compute.
  - repeat constructor.
  - reflexivity.
  - by vm_compute.
Defined.

(** C10, as stated, fails for a reduction above 100 percent, which makes
    every breakthrough charge negative: at difficulty 1, speed 10^9 and
    reduction 200 each span costs less than 0, the frontier consists of the
    level-499 state alone, and the returned total time is about -159.73. *)
Lemma optimize_negative_time :
  let arts0 := [mkArt "a" 1 true 1] in
  let s := mkSettings 1000000000 200 zhenyuan 0 in
  flatten arts0 <> [] /\
  Forall (fun a => 0 < difficulty a)%Q arts0 /\
  (0 < speed s)%Q /\
  getBreakthroughTime 99 200 = (2 * (1 - 200 / 100))%Q /\
  exists r, optimize arts0 s = Some r /\
            (totalTimeHours r == -3554001102897823 # 22250000000000)%Q /\
            (totalTimeHours r < 0)%Q /\
            arts r = {[ "a_0" := 499 ]}.
Proof.
  intros arts0 s. split_and!; [done|repeat constructor|reflexivity|reflexivity|].
  destruct (optimizeN_Some arts0 s 36807 (-3554001102897823 # 22250000000000)
              {[ "a_0" := 499 ]} [])
    as (r & Hr & _ & Ht & Ha).
  { vm_compute. reflexivity. }
  exists r. split_and!; [done..| |done].
  rewrite Ht. reflexivity.
Qed.

Lemma selectBest_zhenyuan_floor_witness :
  exists best,
    selectBest (mkSettings 1 0 zhenyuan 574) 574
               (frontierOf (mkSettings 1 0 zhenyuan 574) [exampleInstance])
    = Some best /\
    (574 <= inject_Z (st_z best + 574))%Q /\ st_z best <= 0.
Proof.
  destruct (selectBest_zhenyuan_floor (mkSettings 1 0 zhenyuan 574)
              [exampleInstance] 574)
    as (best & Hsel & _ & Hreach & _).
  { intros H. discriminate H. }
  { reflexivity. }
  destruct (example_frontier_tail zhenyuan 574) as (p & s & _ & Hs & _ & (Hsz & _)).
  apply list_elem_of_lookup_2 in Hs.
  assert (targetValue (mkSettings 1 0 zhenyuan 574) <= inject_Z (st_z s + 574))%Q
    as Hok.
  { rewrite Hsz. intros H. discriminate H. }
  destruct Hreach as [Hbest Hleast].
  { exists s. split; [exact Hs|exact Hok]. }
  exists best. split; [exact Hsel|]. split; [exact Hbest|].
  destruct (Hleast s Hs Hok) as [Hz _]. rewrite Hsz in Hz. exact Hz.
Defined.
